(** * Sudoku-Solver: a shallow embedding of [sudoku_solver.py]

    The Python module solves square Sudoku puzzles by building a 0/1 linear
    program with PuLP.  This development embeds its functions one by one and
    proves properties of the embedding.

    Conventions of the embedding.
    - A Python [int] is a [Z]; lengths and loop indices produced by [len],
      [range] and [enumerate] are [nat].
    - A Python [str] is the list of its code points ([pystr]); [chr] and [ord]
      are then exact.  Character classes ([isalpha], the white space of
      [strip] and [split], the digits and the white space accepted by [int])
      and [upper] are those of ASCII text: text outside ASCII is outside the
      model, and the properties that depend on the class of a character say
      so ([ascii], [ascii_grid]).
    - A grid cell is an [int] or a [str], the two kinds of value that
      [convert_to_numeric] distinguishes.
    - A raised exception is a value [Raise e] of the result type [Res]; the
      text of a message is kept as a constructor of [msg] with the values the
      f-string interpolates.
    - In [validate_sudoku_input], [n_rows] is the length of a list and
      [int(sqrt(n_rows))] is the integer square root (exact for every length
      a list can have in practice).  In [read_sudokus_from_file], [dim] is
      whatever integer the file holds, and [int(sqrt(dim))] is computed as
      Python does: [dim] is converted to the nearest binary64 number, which
      raises [OverflowError] when there is none, its square root is rounded
      to binary64 and truncated ([int_sqrt]).
    - [int(s)] accepts a literal of any length.
    - [open] is code outside the module: its outcome, a file or an exception,
      is an argument of the function that calls it.  A file open for reading
      is the list of the lines left to read, as text.
    - The call [prob.solve()] is the only code outside the module: it is an
      argument [backend] of [solver], a function from the problem to a status
      and a value for every variable.  The values are integers, and
      [plp.value(v)] is true when the value is not zero.  What is assumed of
      the backend is stated where it is used ([backend_sound],
      [backend_complete]). *)

From Stdlib Require Import String Ascii DecimalString.
From Stdlib Require Import List ZArith Lia Bool Arith.
Import ListNotations.

(** ** Python values *)

Definition pystr := list Z.

(** A literal: the code points of an ASCII string. *)
Definition py (s : string) : pystr :=
  map (fun a => Z.of_N (N_of_ascii a)) (list_ascii_of_string s).

Inductive cell : Type :=
| PInt (z : Z)
| PStr (s : pystr).

Definition Grid := list (list cell).

Definition cell_eqb (a b : cell) : bool :=
  match a, b with
  | PInt x, PInt y => Z.eqb x y
  | PStr s, PStr t => if list_eq_dec Z.eq_dec s t then true else false
  | _, _ => false
  end.

(** ** Exceptions *)

(** The classes the module and the built-in functions it calls can raise,
    and two classes that derive from [BaseException] only, which
    [except Exception] lets through.  [OSError] stands for the subclasses of
    [OSError] other than [FileNotFoundError] ([IsADirectoryError],
    [PermissionError], ...). *)
Inductive exc_class : Type :=
| ValueError | TypeError | KeyError | IndexError | FileNotFoundError
| OverflowError | OSError
| Exception
| KeyboardInterrupt | SystemExit.

Inductive LpStatus : Type :=
| Optimal | NotSolved | Infeasible | Unbounded | Undefined.

Inductive msg : Type :=
(* validate_sudoku_input *)
| RowLengthDiffers (row_number len_row n_cols : nat)
| GridNotSquare (n_rows n_cols : nat)
| DimensionInvalid (n_rows n_cols : nat)
| InvalidValue (value : cell) (row_number col_number n_rows : nat)
(* solver *)
| NoOptimalSolution (status : LpStatus)
(* read_sudokus_from_file *)
| FileInvalidDimension (sudoku_number : nat) (dim : Z)
| FileRowInvalidLength (sudoku_number row_number : nat)
| FileInvalidValue (sudoku_number : nat) (value : Z) (row_number col_number : nat)
(* built-ins *)
| InvalidLiteralForInt (s : pystr)
| OrdExpectedCharacter (len : nat)
| ListIndexOutOfRange
| MissingKey (key : Z)
| NotEnoughValuesToUnpack (expected got : nat)
| TooManyValuesToUnpack (expected : nat)
| MathDomainError
| IntTooLargeForFloat
| Errno (code : Z).

Record exc : Type := mkExc { exc_cls : exc_class; exc_msg : msg }.

(** [issubclass(c, Exception)] *)
Definition is_Exception (c : exc_class) : bool :=
  match c with
  | KeyboardInterrupt | SystemExit => false
  | _ => true
  end.

(** [issubclass(c, ValueError)] *)
Definition is_ValueError (c : exc_class) : bool :=
  match c with
  | ValueError => true
  | _ => false
  end.

(** [issubclass(c, FileNotFoundError)] *)
Definition is_FileNotFoundError (c : exc_class) : bool :=
  match c with
  | FileNotFoundError => true
  | _ => false
  end.

Inductive Res (A : Type) : Type :=
| Ok (a : A)
| Raise (e : exc).

Arguments Ok {A} a.
Arguments Raise {A} e.

Definition bind {A B} (r : Res A) (k : A -> Res B) : Res B :=
  match r with
  | Ok a => k a
  | Raise e => Raise e
  end.

Declare Scope res_scope.
Delimit Scope res_scope with res.
Notation "x <- r ;; k" := (bind r (fun x => k))
  (at level 61, r at next level, right associativity) : res_scope.
Notation "' p <- r ;; k" := (bind r (fun p => k))
  (at level 61, p pattern, r at next level, right associativity) : res_scope.
Open Scope res_scope.

Definition raise {A} (c : exc_class) (m : msg) : Res A := Raise (mkExc c m).

(** A [for] loop whose body only checks: it stops at the first exception. *)
Fixpoint for_ {A} (l : list A) (body : A -> Res unit) : Res unit :=
  match l with
  | [] => Ok tt
  | x :: t => _ <- body x ;; for_ t body
  end.

(** A [for] loop that updates a state [s]. *)
Fixpoint for_fold {A S} (l : list A) (s : S) (body : A -> S -> Res S) : Res S :=
  match l with
  | [] => Ok s
  | x :: t => s' <- body x s ;; for_fold t s' body
  end.

(** A list comprehension whose element expression may raise. *)
Fixpoint mapM {A B} (f : A -> Res B) (l : list A) : Res (list B) :=
  match l with
  | [] => Ok []
  | x :: t => y <- f x ;; ys <- mapM f t ;; Ok (y :: ys)
  end.

(** [range(n)], [range(1, 1 + n)] and [enumerate(l)] *)
Definition range (n : nat) : list nat := seq 0 n.
Definition range1 (n : nat) : list Z := map Z.of_nat (seq 1 n).
Definition enumerate {A} (l : list A) : list (nat * A) := combine (seq 0 (length l)) l.

(** [l[i]] for a list *)
Definition getitem {A} (l : list A) (i : nat) : Res A :=
  match nth_error l i with
  | Some x => Ok x
  | None => raise IndexError ListIndexOutOfRange
  end.

(** ** Built-in string functions (ASCII)

    On ASCII text these are the functions of Python.  Outside ASCII they
    are not: [str.isalpha] and [str.upper] know the letters of Unicode
    ([upper] of one letter can even be two), and [int] its digits. *)

Definition is_upper_cp (c : Z) : bool := ((65 <=? c) && (c <=? 90))%Z.
Definition is_lower_cp (c : Z) : bool := ((97 <=? c) && (c <=? 122))%Z.
Definition is_alpha_cp (c : Z) : bool := is_upper_cp c || is_lower_cp c.
Definition is_digit_cp (c : Z) : bool := ((48 <=? c) && (c <=? 57))%Z.
Definition is_space_cp (c : Z) : bool :=
  (((9 <=? c) && (c <=? 13)) || ((28 <=? c) && (c <=? 32)))%Z.

Definition is_nil {A} (l : list A) : bool :=
  match l with
  | [] => true
  | _ => false
  end.

(** [s.isalpha()]: at least one character and all of them letters *)
Definition isalpha (s : pystr) : bool := negb (is_nil s) && forallb is_alpha_cp s.

Definition upper_cp (c : Z) : Z := if is_lower_cp c then (c - 32)%Z else c.
Definition upper (s : pystr) : pystr := map upper_cp s.

(** [ord(s)]: defined on strings of length one *)
Definition ord (s : pystr) : Res Z :=
  match s with
  | [c] => Ok c
  | _ => raise TypeError (OrdExpectedCharacter (length s))
  end.

(** [chr(c)] *)
Definition chr (c : Z) : pystr := [c].

Fixpoint lstrip (s : pystr) : pystr :=
  match s with
  | [] => []
  | c :: t => if is_space_cp c then lstrip t else s
  end.

Definition rstrip (s : pystr) : pystr := rev (lstrip (rev s)).
Definition strip (s : pystr) : pystr := rstrip (lstrip s).

(** [s.split()]: the maximal runs of characters that are not white space.
    [cur] is the run being read, reversed. *)
Fixpoint split_from (cur : pystr) (s : pystr) : list pystr :=
  match s with
  | [] => if is_nil cur then [] else [rev cur]
  | c :: t =>
      if is_space_cp c
      then (if is_nil cur then split_from [] t else rev cur :: split_from [] t)
      else split_from (c :: cur) t
  end.

Definition split (s : pystr) : list pystr := split_from [] s.

(** The digits of a decimal literal: groups of digits separated by single
    underscores.  [after_digit] says whether the previous character was a
    digit. *)
Fixpoint parse_digits (acc : Z) (after_digit : bool) (s : pystr) : option Z :=
  match s with
  | [] => if after_digit then Some acc else None
  | c :: t =>
      if is_digit_cp c then parse_digits (10 * acc + (c - 48))%Z true t
      else if (c =? 95)%Z && after_digit then parse_digits acc false t
      else None
  end.

(** The white space that [int] skips around an ASCII literal: the
    characters 9 to 13 and the space, not the separators 28 to 31 that
    [strip] removes. *)
Definition is_int_space_cp (c : Z) : bool :=
  (((9 <=? c) && (c <=? 13)) || (c =? 32))%Z.

Fixpoint int_lstrip (s : pystr) : pystr :=
  match s with
  | [] => []
  | c :: t => if is_int_space_cp c then int_lstrip t else s
  end.

Definition int_strip (s : pystr) : pystr := rev (int_lstrip (rev (int_lstrip s))).

(** [int(s)] for a string, base ten *)
Definition int_of_str (s : pystr) : Res Z :=
  let body := int_strip s in
  let parsed :=
    match body with
    | 43%Z :: t => parse_digits 0 false t
    | 45%Z :: t => option_map Z.opp (parse_digits 0 false t)
    | _ => parse_digits 0 false body
    end in
  match parsed with
  | Some z => Ok z
  | None => raise ValueError (InvalidLiteralForInt s)
  end.

(** [int(value)] *)
Definition int (value : cell) : Res Z :=
  match value with
  | PInt z => Ok z
  | PStr s => int_of_str s
  end.

(** ** The value codec *)

(** [convert_to_numeric], lines 5-8 *)
Definition convert_to_numeric (value : cell) : Res Z :=
  match value with
  | PStr s =>
      if isalpha s
      then (o <- ord (upper s) ;; Ok (o - 55)%Z)
      else int value
  | PInt _ => int value
  end.

(** The expression of line 112: [chr(55 + value) if value > 9 else value] *)
Definition encode (value : Z) : cell :=
  if (value >? 9)%Z then PStr (chr (55 + value)) else PInt value.

(** ** The input validator *)

Definition in_range (numeric_value : Z) (n_rows : nat) : bool :=
  ((0 <=? numeric_value) && (numeric_value <=? Z.of_nat n_rows))%Z.

(** [validate_sudoku_input], lines 11-39.  The result is the tuple
    [(n_rows, n_cols, m)], a list of three numbers. *)
Definition validate_sudoku_input (input_sudoku : Grid) : Res (list nat) :=
  let n_rows := length input_sudoku in
  first_row <- getitem input_sudoku 0 ;;
  let n_cols := length first_row in
  _ <- for_ (enumerate input_sudoku) (fun '(row_index, row) =>
         if negb (length row =? n_cols)
         then raise ValueError (RowLengthDiffers (row_index + 1) (length row) n_cols)
         else Ok tt) ;;
  if negb (n_rows =? n_cols)
  then raise ValueError (GridNotSquare n_rows n_cols)
  else
    let m := Nat.sqrt n_rows in
    if negb (m * m =? n_rows)
    then raise ValueError (DimensionInvalid n_rows n_cols)
    else
      _ <- for_ (range n_rows) (fun row =>
             for_ (range n_cols) (fun col =>
               the_row <- getitem input_sudoku row ;;
               value <- getitem the_row col ;;
               numeric_value <- convert_to_numeric value ;;
               if negb (in_range numeric_value n_rows)
               then raise ValueError (InvalidValue value (row + 1) (col + 1) n_rows)
               else Ok tt)) ;;
      Ok [n_rows; n_cols; m].

(** ** The 0/1 program *)

(** A decision variable [grid_value_<row>_<col>_<value>]. *)
Definition var := (nat * nat * Z)%type.

(** The dictionary of [LpVariable.dicts]: one variable for every key triple. *)
Record VarDict : Type := mkVarDict {
  d_rows : list nat;
  d_cols : list nat;
  d_values : list Z
}.

Definition mem_nat (x : nat) (l : list nat) : bool := existsb (Nat.eqb x) l.
Definition mem_Z (x : Z) (l : list Z) : bool := existsb (Z.eqb x) l.

(** [grid_vars[row][col][value]]: a missing key is a [KeyError] *)
Definition lookup (grid_vars : VarDict) (row col : nat) (value : Z) : Res var :=
  if negb (mem_nat row (d_rows grid_vars)) then raise KeyError (MissingKey (Z.of_nat row))
  else if negb (mem_nat col (d_cols grid_vars)) then raise KeyError (MissingKey (Z.of_nat col))
  else if negb (mem_Z value (d_values grid_vars)) then raise KeyError (MissingKey value)
  else Ok (row, col, value).

(** The names given to the constraints. *)
Inductive cname : Type :=
| col_value (col : nat) (value : Z)
| row_value (row : nat) (value : Z)
| cell_name (row col : nat)
| subgrid_value (grid_row grid_col : nat) (value : Z)
| prefilled (row col : nat)
| diagonal1_value (value : Z)
| diagonal2_value (value : Z).

(** Every constraint of the module has the form [lpSum(vars) == 1]. *)
Record LpConstraint : Type := mkConstraint {
  c_name : cname;
  c_sum : list var
}.

(** The problem: its constraints, in the order they were added.  The
    objective is the constant zero. *)
Definition LpProblem := list LpConstraint.

Definition addConstraint (prob : LpProblem) (vars : list var) (name : cname) : LpProblem :=
  prob ++ [mkConstraint name vars].

(** [setup_problem], lines 42-54 *)
Definition setup_problem (n_rows n_cols : nat)
  : LpProblem * list nat * list nat * list Z * VarDict :=
  let prob : LpProblem := [] in
  let rows := range n_rows in
  let cols := range n_cols in
  let values := range1 n_rows in
  let grid_vars := mkVarDict rows cols values in
  (prob, rows, cols, values, grid_vars).

(** [input_sudoku[row][col] != 0]: a string is never equal to an integer *)
Definition not_zero (c : cell) : bool :=
  match c with
  | PInt z => negb (z =? 0)%Z
  | PStr _ => true
  end.

(** [create_sudoku_constraints], lines 57-91 *)
Definition create_sudoku_constraints (prob : LpProblem) (grid_vars : VarDict)
    (rows cols : list nat) (values : list Z) (n m : nat) (input_sudoku : Grid)
  : Res LpProblem :=
  (* each column contains every value once *)
  prob <- for_fold cols prob (fun col prob =>
            for_fold values prob (fun value prob =>
              vars <- mapM (fun row => lookup grid_vars row col value) rows ;;
              Ok (addConstraint prob vars (col_value col value)))) ;;
  (* each row contains every value once *)
  prob <- for_fold rows prob (fun row prob =>
            for_fold values prob (fun value prob =>
              vars <- mapM (fun col => lookup grid_vars row col value) cols ;;
              Ok (addConstraint prob vars (row_value row value)))) ;;
  (* each cell holds one value *)
  prob <- for_fold rows prob (fun row prob =>
            for_fold cols prob (fun col prob =>
              vars <- mapM (fun value => lookup grid_vars row col value) values ;;
              Ok (addConstraint prob vars (cell_name row col)))) ;;
  (* each sub-grid contains every value once *)
  prob <- for_fold (range m) prob (fun grid_row prob =>
            for_fold (range m) prob (fun grid_col prob =>
              for_fold values prob (fun value prob =>
                vars <- mapM (fun '(row, col) =>
                          lookup grid_vars (grid_row * m + row) (grid_col * m + col) value)
                        (list_prod (range m) (range m)) ;;
                Ok (addConstraint prob vars (subgrid_value grid_row grid_col value))))) ;;
  (* the clues *)
  for_fold rows prob (fun row prob =>
    for_fold cols prob (fun col prob =>
      the_row <- getitem input_sudoku row ;;
      c <- getitem the_row col ;;
      if not_zero c
      then
        value <- convert_to_numeric c ;;
        v <- lookup grid_vars row col value ;;
        Ok (addConstraint prob [v] (prefilled row col))
      else Ok prob)).

(** [add_diagonal_sudoku_constraints], lines 94-102 *)
Definition add_diagonal_sudoku_constraints (prob : LpProblem) (grid_vars : VarDict)
    (rows cols : list nat) (values : list Z) : Res LpProblem :=
  prob <- for_fold values prob (fun value prob =>
            vars <- mapM (fun i => lookup grid_vars i i value) rows ;;
            Ok (addConstraint prob vars (diagonal1_value value))) ;;
  for_fold values prob (fun value prob =>
    vars <- mapM (fun i => lookup grid_vars i (length rows - i - 1) value) rows ;;
    Ok (addConstraint prob vars (diagonal2_value value))).

(** The values the backend leaves in the variables. *)
Definition assignment := var -> Z.

(** [solution[row][col] = x] *)
Fixpoint set_item {A} (l : list A) (i : nat) (x : A) : Res (list A) :=
  match l, i with
  | [], _ => raise IndexError ListIndexOutOfRange
  | _ :: t, O => Ok (x :: t)
  | y :: t, S j => t' <- set_item t j x ;; Ok (y :: t')
  end.

Definition set_item2 (solution : Grid) (row col : nat) (x : cell) : Res Grid :=
  the_row <- getitem solution row ;;
  new_row <- set_item the_row col x ;;
  set_item solution row new_row.

(** [extract_solution], lines 105-113.  [plp.value(v)] is the value of the
    variable; it is true when it is not zero. *)
Definition extract_solution (a : assignment) (grid_vars : VarDict)
    (rows cols : list nat) (values : list Z) : Res Grid :=
  let solution : Grid := map (fun _ => map (fun _ => PInt 0) cols) rows in
  for_fold rows solution (fun row solution =>
    for_fold cols solution (fun col solution =>
      for_fold values solution (fun value solution =>
        v <- lookup grid_vars row col value ;;
        if negb (a v =? 0)%Z
        then set_item2 solution row col (encode value)
        else Ok solution))).

(** ** The solver *)

Definition Backend := LpProblem -> LpStatus * assignment.

(** Unpacking a tuple into three names. *)
Definition unpack3 (t : list nat) : Res (nat * nat * nat) :=
  match t with
  | [a; b; c] => Ok (a, b, c)
  | _ :: _ :: _ :: _ :: _ => raise ValueError (TooManyValuesToUnpack 3)
  | _ => raise ValueError (NotEnoughValuesToUnpack 3 (length t))
  end.

(** Lines 119-129 of [solver]: the problem handed to [prob.solve()]. *)
Definition solver_problem (input_sudoku : Grid) (diagonal : bool)
  : Res (LpProblem * list nat * list nat * list Z * VarDict) :=
  t <- validate_sudoku_input input_sudoku ;;
  '(n_rows, n_cols, m) <- unpack3 t ;;
  let '(prob, rows, cols, values, grid_vars) := setup_problem n_rows n_cols in
  prob <- create_sudoku_constraints prob grid_vars rows cols values n_rows m input_sudoku ;;
  prob <- (if diagonal
           then add_diagonal_sudoku_constraints prob grid_vars rows cols values
           else Ok prob) ;;
  Ok (prob, rows, cols, values, grid_vars).

(** The body of the [try] of [solver], lines 119-139. *)
Definition solver_try (backend : Backend) (input_sudoku : Grid) (diagonal : bool)
  : Res Grid :=
  '(prob, rows, cols, values, grid_vars) <- solver_problem input_sudoku diagonal ;;
  let '(solution_status, a) := backend prob in
  match solution_status with
  | Optimal => extract_solution a grid_vars rows cols values
  | _ => raise Exception (NoOptimalSolution solution_status)
  end.

(** What the program prints on standard output. *)
Inductive output : Type :=
| PrintError (e : exc)                              (* "Error: {e}" *)
| PrintErrorReading (sudoku_number : nat) (e : exc) (* "Error reading Sudoku {i}: {e}" *)
| PrintFileNotFound                                 (* "Error: File '{filename}' not found." *)
| PrintErrorProcessing (e : exc).                   (* "Error processing file '{filename}': {e}" *)

(** A computation that prints: it returns a result and the lines printed. *)
Definition Py (A : Type) : Type := (Res A * list output)%type.

(** [solver], lines 116-145.  [except Exception] handles the exceptions
    whose class derives from [Exception] and lets the others through. *)
Definition solver (backend : Backend) (input_sudoku : Grid) (diagonal : bool)
  : Py (option Grid) :=
  match solver_try backend input_sudoku diagonal with
  | Ok solution => (Ok (Some solution), [])
  | Raise e =>
      if is_Exception (exc_cls e)
      then (Ok None, [PrintError e])
      else (Raise e, [])
  end.

(** ** The batch driver *)

(** An open text file: the lines not read yet.  [readline] returns the empty
    string at the end of the file. *)
Definition File := list pystr.

Definition readline (f : File) : pystr * File :=
  match f with
  | [] => ([], [])
  | line :: rest => (line, rest)
  end.

(** [dim, diagonal_flag = map(int, tokens)]: [map] is lazy, so the tokens are
    converted one by one while the two names are filled, and a third one is
    converted to find out that there are too many. *)
Definition unpack2_ints (tokens : list pystr) : Res (Z * Z) :=
  match tokens with
  | [] => raise ValueError (NotEnoughValuesToUnpack 2 0)
  | [a] => _ <- int_of_str a ;; raise ValueError (NotEnoughValuesToUnpack 2 1)
  | [a; b] => x <- int_of_str a ;; y <- int_of_str b ;; Ok (x, y)
  | a :: b :: c :: _ =>
      _ <- int_of_str a ;; _ <- int_of_str b ;; _ <- int_of_str c ;;
      raise ValueError (TooManyValuesToUnpack 2)
  end.

(** Binary64 arithmetic on the numbers that [int(sqrt(dim))] meets.

    [round53 t inexact] is the number of 53 significant bits nearest to a
    real number whose integer part is [t], and the one of even last bit when
    two are as near; [inexact] says that the real number is more than [t].
    A [t] of 53 bits or fewer is left as it is: the function is applied to
    integers, and to square roots in units of [2 ** -64], which are 0 or
    have more than 64 bits. *)
Definition round53 (t : Z) (inexact : bool) : Z :=
  let shift := (Z.log2 t + 1 - 53)%Z in
  if (shift <=? 0)%Z then t
  else
    let q := (t / 2 ^ shift)%Z in
    let r := (t mod 2 ^ shift)%Z in
    let half := (2 ^ (shift - 1))%Z in
    let up := ((half <? r) || ((r =? half) && (inexact || Z.odd q)))%Z in
    ((if up then q + 1 else q) * 2 ^ shift)%Z.

(** [float(n)] for an [int]: the nearest binary64 number, which is again
    an integer; [OverflowError] when it would be [2 ** 1024] or more. *)
Definition float_of_int (n : Z) : Res Z :=
  let x := round53 (Z.abs n) false in
  if (2 ^ 1024 <=? x)%Z
  then raise OverflowError IntTooLargeForFloat
  else Ok (Z.sgn n * x)%Z.

(** [int(sqrt(x))] for a binary64 number [x >= 0] that is an integer: the
    square root, in units of [2 ** -64], lies between [t] and [t + 1]; it is
    rounded to 53 bits and what follows the point is dropped. *)
Definition floor_sqrt_float (x : Z) : Z :=
  let t := Z.sqrt (x * 2 ^ 128) in
  (round53 t (negb (t * t =? x * 2 ^ 128)) / 2 ^ 64)%Z.

(** [int(sqrt(dim))], with [sqrt] of the module [math] *)
Definition int_sqrt (dim : Z) : Res Z :=
  x <- float_of_int dim ;;
  if (x <? 0)%Z then raise ValueError MathDomainError else Ok (floor_sqrt_float x).

(** The loop over the rows of one puzzle, lines 166-177.  The position in
    the file is part of the state and survives an exception. *)
Fixpoint read_rows (sudoku_index : nat) (dim : Z) (row_indices : list nat)
    (sudoku : list (list Z)) (f : File) : Res (list (list Z)) * File :=
  match row_indices with
  | [] => (Ok sudoku, f)
  | row_index :: rest =>
      let '(line, f) := readline f in
      let row := split (strip line) in
      if negb (Z.of_nat (length row) =? dim)%Z
      then (raise ValueError (FileRowInvalidLength (sudoku_index + 1) (row_index + 1)), f)
      else
        match mapM (fun value => convert_to_numeric (PStr value)) row with
        | Raise e => (Raise e, f)
        | Ok numeric_row =>
            match for_ (enumerate numeric_row) (fun '(col_index, value) =>
                    if negb ((0 <=? value) && (value <=? dim))%Z
                    then raise ValueError
                           (FileInvalidValue (sudoku_index + 1) value (row_index + 1) (col_index + 1))
                    else Ok tt) with
            | Raise e => (Raise e, f)
            | Ok _ => read_rows sudoku_index dim rest (sudoku ++ [numeric_row]) f
            end
        end
  end.

(** The body of the inner [try], lines 157-182, up to the two [append]s. *)
Definition read_one (sudoku_index : nat) (f : File)
  : Res (list (list Z) * bool) * File :=
  let '(line, f) := readline f in
  match unpack2_ints (split (strip line)) with
  | Raise e => (Raise e, f)
  | Ok (dim, diagonal_flag) =>
      let diagonal := (diagonal_flag =? 1)%Z in
      match int_sqrt dim with
      | Raise e => (Raise e, f)
      | Ok m =>
          if negb (m * m =? dim)%Z
          then (raise ValueError (FileInvalidDimension (sudoku_index + 1) dim), f)
          else
            match read_rows sudoku_index dim (range (Z.to_nat dim)) [] f with
            | (Raise e, f) => (Raise e, f)
            | (Ok sudoku, f) =>
                let '(_, f) := readline f in
                (Ok (sudoku, diagonal), f)
            end
      end
  end.

(** The loop over the puzzles, lines 155-186: a [ValueError] is printed and
    the loop goes on; any other exception leaves the loop. *)
Fixpoint read_loop (indices : list nat) (f : File)
    (sudokus : list (list (list Z))) (diagonal_flags : list bool)
  : Res (list (list (list Z)) * list bool) * list output :=
  match indices with
  | [] => (Ok (sudokus, diagonal_flags), [])
  | sudoku_index :: rest =>
      match read_one sudoku_index f with
      | (Ok (sudoku, diagonal), f) =>
          read_loop rest f (sudokus ++ [sudoku]) (diagonal_flags ++ [diagonal])
      | (Raise e, f) =>
          if is_ValueError (exc_cls e)
          then
            let '(r, out) := read_loop rest f sudokus diagonal_flags in
            (r, PrintErrorReading (sudoku_index + 1) e :: out)
          else (Raise e, [])
      end
  end.

(** [read_sudokus_from_file], lines 148-193.  [file] is the outcome of
    [open(filename, 'r')], line 153: the file, or the exception raised, which
    the two handlers of lines 188 and 190 catch when it is a
    [FileNotFoundError] or a [ValueError]. *)
Definition read_sudokus_from_file (file : Res File)
  : Py (list (list (list Z)) * list bool) :=
  match file with
  | Raise e =>
      if is_FileNotFoundError (exc_cls e) then (Ok ([], []), [PrintFileNotFound])
      else if is_ValueError (exc_cls e) then (Ok ([], []), [PrintErrorProcessing e])
      else (Raise e, [])
  | Ok f =>
      let '(line, f) := readline f in
      match int_of_str (strip line) with
      | Raise e => (Ok ([], []), [PrintErrorProcessing e])
      | Ok num_sudokus => read_loop (range (Z.to_nat num_sudokus)) f [] []
      end
  end.

(** [str(x)] for a cell *)
Definition str_int (z : Z) : pystr := py (DecimalString.NilZero.string_of_int (Z.to_int z)).

Definition str (c : cell) : pystr :=
  match c with
  | PInt z => str_int z
  | PStr s => s
  end.

(** [sep.join(l)] *)
Fixpoint join (sep : pystr) (l : list pystr) : pystr :=
  match l with
  | [] => []
  | [x] => x
  | x :: t => x ++ sep ++ join sep t
  end.

(** The loop of [write_sudoku_solutions_to_file], lines 198-205: the lines
    written, without their final newline.  [None] and the empty list are
    false. *)
Fixpoint write_solutions (i : nat) (solutions : list (option Grid)) : list pystr :=
  match solutions with
  | [] => []
  | solution :: rest =>
      let number := str_int (Z.of_nat (i + 1)) in
      match solution with
      | Some (r :: rs) =>
          (py "Solution for Sudoku " ++ number ++ py ":")
          :: map (fun row => join (py " ") (map str row)) (r :: rs)
          ++ [[]]
      | _ => [py "Solution for Sudoku " ++ number ++ py ": No solution found."; []]
      end ++ write_solutions (i + 1) rest
  end.

(** [write_sudoku_solutions_to_file], lines 196-205.  [file] is the outcome
    of [open(filename, 'w')], line 197: an empty file, or the exception
    raised, which nothing catches.  The result is the content of the file
    when it is closed. *)
Definition write_sudoku_solutions_to_file (solutions : list (option Grid))
    (file : Res unit) : Res (list pystr) :=
  _ <- file ;; Ok (write_solutions 0 solutions).

(** The loop of [main], lines 212-214. *)
Fixpoint solve_all (backend : Backend) (puzzles : list (Grid * bool))
  : Py (list (option Grid)) :=
  match puzzles with
  | [] => (Ok [], [])
  | (sudoku, diagonal) :: rest =>
      match solver backend sudoku diagonal with
      | (Raise e, out) => (Raise e, out)
      | (Ok solution, out) =>
          let '(r, out') := solve_all backend rest in
          (solutions <- r ;; Ok (solution :: solutions), out ++ out')
      end
  end.

(** [main], lines 208-216: the solutions and the content of the output
    file.  [input_file] and [output_file] are the outcomes of the two calls
    of [open]; the output file is opened last, at line 216. *)
Definition main (backend : Backend) (input_file : Res File) (output_file : Res unit)
  : Py (list (option Grid) * list pystr) :=
  match read_sudokus_from_file input_file with
  | (Raise e, out) => (Raise e, out)
  | (Ok (sudokus, diagonal_flags), out) =>
      let '(r, out') :=
        solve_all backend (combine (map (map (map PInt)) sudokus) diagonal_flags) in
      (solutions <- r ;;
       text <- write_sudoku_solutions_to_file solutions output_file ;;
       Ok (solutions, text),
       out ++ out')
  end.

(** ** The validator and the objects of its caller

    [validate_sudoku_input] above is a function of the value of its
    argument.  What the call does to the objects of its caller is read from
    a second embedding of lines 11-39, in which every statement takes the
    state of the program and returns it.  The state holds the list
    [input_sudoku], whose items are references to the rows (two of them can
    be the same object), the row objects, and the lines printed so far.
    Integers and strings are immutable values. *)

Definition addr := nat.

Record world : Type := mkWorld {
  w_input : list addr;
  w_rows : list (list cell);
  w_printed : list output }.

Definition St (A : Type) : Type := world -> Res A * world.

Definition ret {A} (a : A) : St A := fun w => (Ok a, w).

Definition throw {A} (c : exc_class) (m : msg) : St A := fun w => (raise c m, w).

Definition bindS {A B} (s : St A) (k : A -> St B) : St B :=
  fun w =>
    match s w with
    | (Ok a, w') => k a w'
    | (Raise e, w') => (Raise e, w')
    end.

Declare Scope st_scope.
Delimit Scope st_scope with st.
Notation "x <~ s ;; k" := (bindS s (fun x => k))
  (at level 61, s at next level, right associativity) : st_scope.

Fixpoint forS {A} (l : list A) (body : A -> St unit) : St unit :=
  match l with
  | [] => ret tt
  | x :: t => bindS (body x) (fun _ => forS t body)
  end.

(** The row object at an address.  No reference of a program dangles; the
    empty row stands for an address that holds nothing. *)
Definition row_at (w : world) (a : addr) : list cell := nth a (w_rows w) [].

(** [len(input_sudoku)] and [input_sudoku[i]] *)
Definition len_input : St nat := fun w => (Ok (length (w_input w)), w).
Definition input_item (i : nat) : St addr := fun w => (getitem (w_input w) i, w).

(** The items that a [for] loop over [input_sudoku] visits, when its body
    leaves the list as it is. *)
Definition input_items : St (list addr) := fun w => (Ok (w_input w), w).

(** [len(row)] and [row[i]] for a reference [row] *)
Definition len_row (row : addr) : St nat := fun w => (Ok (length (row_at w row)), w).
Definition row_item (row : addr) (i : nat) : St cell :=
  fun w => (getitem (row_at w row) i, w).

(** A computation on immutable values. *)
Definition eval {A} (r : Res A) : St A := fun w => (r, w).

(** The call [validate_sudoku_input(input_sudoku)], lines 11-39. *)
Definition validate_sudoku_input_call : St (list nat) :=
  (n_rows <~ len_input ;;
   first_row <~ input_item 0 ;;
   n_cols <~ len_row first_row ;;
   rows <~ input_items ;;
   _ <~ forS (enumerate rows) (fun '(row_index, row) =>
          len <~ len_row row ;;
          if negb (len =? n_cols)
          then throw ValueError (RowLengthDiffers (row_index + 1) len n_cols)
          else ret tt) ;;
   if negb (n_rows =? n_cols)
   then throw ValueError (GridNotSquare n_rows n_cols)
   else
     let m := Nat.sqrt n_rows in
     if negb (m * m =? n_rows)
     then throw ValueError (DimensionInvalid n_rows n_cols)
     else
       _ <~ forS (range n_rows) (fun row =>
              forS (range n_cols) (fun col =>
                the_row <~ input_item row ;;
                value <~ row_item the_row col ;;
                numeric_value <~ eval (convert_to_numeric value) ;;
                if negb (in_range numeric_value n_rows)
                then throw ValueError (InvalidValue value (row + 1) (col + 1) n_rows)
                else ret tt)) ;;
       ret [n_rows; n_cols; m])%st.

(** * The vocabulary of the properties

    The grids the validator accepts, the constraints of the problem in closed
    form, what it means for values of the variables to satisfy a problem, the
    rules of Sudoku on a grid, and the grids and files used as examples. *)

(** ** The codec and the validator *)

Definition alphabet : pystr := py "ABCDEFGHIJKLMNOPQRSTUVWXYZ".

(** ASCII text, and a grid whose strings are ASCII text: the text on which
    the character classes of the embedding are those of Python. *)
Definition ascii (s : pystr) : bool :=
  forallb (fun c => (0 <=? c) && (c <? 128))%Z s.



(** The cell decodes to a value of [0..n]. *)
Definition cell_ok (n : nat) (x : cell) : bool :=
  match convert_to_numeric x with
  | Ok v => in_range v n
  | Raise _ => false
  end.

(** The grids the validator accepts. *)
Definition valid_grid (g : Grid) : bool :=
  let n := length g in
  negb (is_nil g)
  && forallb (fun row => length row =? n) g
  && (Nat.sqrt n * Nat.sqrt n =? n)
  && forallb (forallb (cell_ok n)) g.

(** The grid that [input_sudoku] holds in a state, and a state that holds
    a grid, every row an object of its own. *)
Definition grid_of (w : world) : Grid := map (row_at w) (w_input w).

Definition world_of (g : Grid) : world := mkWorld (seq 0 (length g)) g [].

(** The body of the loop of lines 16-19 of [validate_sudoku_input]. *)
Definition check_row_length (n_cols : nat) (p : nat * list cell) : Res unit :=
  let '(row_index, row) := p in
  if negb (length row =? n_cols)
  then raise ValueError (RowLengthDiffers (row_index + 1) (length row) n_cols)
  else Ok tt.

(** The body of the loops of lines 32-38 of [validate_sudoku_input]. *)
Definition check_cell (input_sudoku : Grid) (n_rows row col : nat) : Res unit :=
  the_row <- getitem input_sudoku row ;;
  value <- getitem the_row col ;;
  numeric_value <- convert_to_numeric value ;;
  if negb (in_range numeric_value n_rows)
  then raise ValueError (InvalidValue value (row + 1) (col + 1) n_rows)
  else Ok tt.

(** The decoded value of a cell (0 when the cell does not decode). *)
Definition numeric (x : cell) : Z :=
  match convert_to_numeric x with
  | Ok v => v
  | Raise _ => 0%Z
  end.

Definition numeric_grid (g : Grid) : list (list Z) := map (map numeric) g.

(** The cell as [extract_solution] writes it. *)
Definition reencode (x : cell) : cell := encode (numeric x).

(** A result that, when it is an exception, is one that [except Exception]
    handles. *)
Definition handled {A} (r : Res A) : Prop :=
  match r with
  | Ok _ => True
  | Raise e => is_Exception (exc_cls e) = true
  end.

(** ** Reading and updating a grid *)

(** [grid[r][c]], with a default outside the grid. *)
Definition get {A} (default : A) (grid : list (list A)) (r c : nat) : A :=
  nth c (nth r grid []) default.

(** The cells at the positions [ps], in this order. *)
Definition cells_at {A} (default : A) (grid : list (list A)) (ps : list (nat * nat))
  : list A :=
  map (fun '(r, c) => get default grid r c) ps.

(** A grid of [n] rows of [n] cells. *)
Definition square {A} (n : nat) (grid : list (list A)) : bool :=
  (length grid =? n) && forallb (fun row => length row =? n) grid.

(** The positions of the square of side [n]. *)
Definition in_square (n : nat) (ps : list (nat * nat)) : Prop :=
  forall r c, In (r, c) ps -> r < n /\ c < n.

(** The list [l] with [x] at the index [i]: what [set_item] returns when
    the index is in range. *)
Fixpoint upd {A} (l : list A) (i : nat) (x : A) : list A :=
  match l, i with
  | [], _ => []
  | _ :: t, O => x :: t
  | y :: t, S j => y :: upd t j x
  end.

Definition upd2 (sol : Grid) (r c : nat) (x : cell) : Grid :=
  upd sol r (upd (nth r sol []) c x).

(** ** The rules of Sudoku *)

(** The positions of the cells of a row, a column, a box and the two
    diagonals. *)
Definition row_cells (n r : nat) : list (nat * nat) := map (fun c => (r, c)) (range n).

Definition col_cells (n c : nat) : list (nat * nat) := map (fun r => (r, c)) (range n).

Definition box_cells (m gr gc : nat) : list (nat * nat) :=
  map (fun '(i, j) => (gr * m + i, gc * m + j)) (list_prod (range m) (range m)).

Definition diag1_cells (n : nat) : list (nat * nat) := map (fun i => (i, i)) (range n).

Definition diag2_cells (n : nat) : list (nat * nat) :=
  map (fun i => (i, n - i - 1)) (range n).

(** The rows, the columns and the boxes of a grid of side [n = m * m]. *)
Definition units (n m : nat) : list (list (nat * nat)) :=
  map (row_cells n) (range n)
  ++ map (col_cells n) (range n)
  ++ map (fun '(gr, gc) => box_cells m gr gc) (list_prod (range m) (range m)).

(** The number of occurrences of [x] in [l]. *)
Definition count {A} (eqb : A -> A -> bool) (x : A) (l : list A) : nat :=
  length (filter (eqb x) l).

(** Every symbol occurs exactly once among the cells at the positions [ps]. *)
Definition each_once {A} (eqb : A -> A -> bool) (default : A) (symbols : list A)
    (grid : list (list A)) (ps : list (nat * nat)) : bool :=
  forallb (fun s => count eqb s (cells_at default grid ps) =? 1) symbols.

(** The rules of Sudoku: every symbol once in every row, column and box. *)
Definition sudoku_rules {A} (eqb : A -> A -> bool) (default : A) (symbols : list A)
    (n m : nat) (grid : list (list A)) : bool :=
  forallb (each_once eqb default symbols grid) (units n m).

(** A solved grid: the validator accepts it, no cell is empty and the
    decoded values obey the rules. *)
Definition solved (g : Grid) : bool :=
  valid_grid g
  && forallb (forallb (fun x => (1 <=? numeric x)%Z)) g
  && sudoku_rules Z.eqb 0%Z (range1 (length g)) (length g) (Nat.sqrt (length g))
       (numeric_grid g).

(** ** The problem in closed form *)

(** The variables that say "the cell at this position holds [value]". *)
Definition vars_at (value : Z) (ps : list (nat * nat)) : list var :=
  map (fun '(r, c) => (r, c, value)) ps.

(** The four families of constraints of lines 59-83, in the order in
    which the loops add them. *)
Definition col_constraints (n : nat) : LpProblem :=
  flat_map (fun col =>
    flat_map (fun value => [mkConstraint (col_value col value) (vars_at value (col_cells n col))])
      (range1 n)) (range n).

Definition row_constraints (n : nat) : LpProblem :=
  flat_map (fun row =>
    flat_map (fun value => [mkConstraint (row_value row value) (vars_at value (row_cells n row))])
      (range1 n)) (range n).

Definition cell_constraints (n : nat) : LpProblem :=
  flat_map (fun row =>
    flat_map (fun col =>
      [mkConstraint (cell_name row col) (map (fun value => (row, col, value)) (range1 n))])
      (range n)) (range n).

Definition box_constraints (n m : nat) : LpProblem :=
  flat_map (fun grid_row =>
    flat_map (fun grid_col =>
      flat_map (fun value =>
        [mkConstraint (subgrid_value grid_row grid_col value)
           (vars_at value (box_cells m grid_row grid_col))])
        (range1 n)) (range m)) (range m).

Definition standard_constraints (n m : nat) : LpProblem :=
  col_constraints n ++ row_constraints n ++ cell_constraints n ++ box_constraints n m.

(** The clue of the cell at [(row, col)], if it has one. *)
Definition clue_of (g : Grid) (row col : nat) : LpProblem :=
  match nth_error g row with
  | Some the_row =>
      match nth_error the_row col with
      | Some c =>
          if not_zero c
          then match convert_to_numeric c with
               | Ok value => [mkConstraint (prefilled row col) [(row, col, value)]]
               | Raise _ => []
               end
          else []
      | None => []
      end
  | None => []
  end.

Definition clue_constraints (n : nat) (g : Grid) : LpProblem :=
  flat_map (fun row => flat_map (fun col => clue_of g row col) (range n)) (range n).

(** The constraints of [add_diagonal_sudoku_constraints]. *)
Definition diagonal_constraints (n : nat) : LpProblem :=
  flat_map (fun value => [mkConstraint (diagonal1_value value) (vars_at value (diag1_cells n))])
    (range1 n)
  ++ flat_map (fun value => [mkConstraint (diagonal2_value value) (vars_at value (diag2_cells n))])
       (range1 n).

Definition is_diagonal_name (name : cname) : bool :=
  match name with
  | diagonal1_value _ | diagonal2_value _ => true
  | _ => false
  end.

(** The cells of [g] in the square of side [n] whose clue can be added: a
    cell that is not the integer 0 decodes to a value of [1..n]. *)
Definition clue_good (n : nat) (g : Grid) (row col : nat) : Prop :=
  exists the_row c,
    nth_error g row = Some the_row /\ nth_error the_row col = Some c
    /\ (not_zero c = true ->
        exists value, convert_to_numeric c = Ok value
                      /\ (1 <= value <= Z.of_nat n)%Z).

Definition clues_good (g : Grid) : Prop :=
  forall row col, row < length g -> col < length g -> clue_good (length g) g row col.

(** The body of the loops of lines 86-91 of [create_sudoku_constraints]. *)
Definition clue_body (n : nat) (g : Grid) (row col : nat) (prob : LpProblem)
  : Res LpProblem :=
  let grid_vars := mkVarDict (range n) (range n) (range1 n) in
  the_row <- getitem g row ;;
  c <- getitem the_row col ;;
  if not_zero c
  then
    value <- convert_to_numeric c ;;
    v <- lookup grid_vars row col value ;;
    Ok (addConstraint prob [v] (prefilled row col))
  else Ok prob.

(** The problem [solver] hands to the backend, in closed form. *)
Definition problem_of (g : Grid) (diagonal : bool) : LpProblem :=
  let n := length g in
  standard_constraints n (Nat.sqrt n) ++ clue_constraints n g
  ++ (if diagonal then diagonal_constraints n else []).

(** The family of a constraint name and the indices it carries. *)
Definition name_family (name : cname) : nat :=
  match name with
  | col_value _ _ => 0
  | row_value _ _ => 1
  | cell_name _ _ => 2
  | subgrid_value _ _ _ => 3
  | prefilled _ _ => 4
  | diagonal1_value _ => 5
  | diagonal2_value _ => 6
  end.

Definition name_first (name : cname) : nat :=
  match name with
  | col_value i _ | row_value i _ | cell_name i _ | subgrid_value i _ _
  | prefilled i _ => i
  | _ => 0
  end.

Definition name_second (name : cname) : nat :=
  match name with
  | cell_name _ j | subgrid_value _ j _ | prefilled _ j => j
  | _ => 0
  end.

Definition names (prob : LpProblem) : list cname := map c_name prob.

(** The variable is one of the cube of side [n]. *)
Definition in_cube (n : nat) (x : var) : Prop :=
  let '(r, c, v) := x in r < n /\ c < n /\ (1 <= v <= Z.of_nat n)%Z.

(** The constraint sums [k] distinct variables of the cube. *)
Definition sums_distinct (n k : nat) (c : LpConstraint) : Prop :=
  NoDup (c_sum c) /\ length (c_sum c) = k /\ forall x, In x (c_sum c) -> in_cube n x.

(** The number of pre-filled cells of a grid. *)
Definition clue_count (g : Grid) : nat := length (filter not_zero (concat g)).

(** ** What the backend promises *)

(** The value of [lpSum(vars)]. *)
Definition lp_sum (a : assignment) (vars : list var) : Z :=
  fold_right Z.add 0%Z (map a vars).

(** The variables are binary and every constraint reads [lpSum(vars) == 1]. *)
Definition is_binary (a : assignment) (v : var) : bool := ((a v =? 0) || (a v =? 1))%Z.

Definition satisfied (a : assignment) (c : LpConstraint) : bool :=
  forallb (is_binary a) (c_sum c) && (lp_sum a (c_sum c) =? 1)%Z.

Definition feasible (prob : LpProblem) (a : assignment) : bool :=
  forallb (satisfied a) prob.

(** The assumption on [prob.solve()] for one call of [solver]: when the
    status is [Optimal], the values of the variables satisfy the problem. *)
Definition backend_sound (backend : Backend) (g : Grid) (diagonal : bool) : bool :=
  match solver_problem g diagonal with
  | Ok (prob, _, _, _, _) =>
      let '(status, a) := backend prob in
      match status with
      | Optimal => feasible prob a
      | _ => true
      end
  | Raise _ => true
  end.

(** The converse assumption: a problem that has a solution is solved. *)
Definition backend_complete (backend : Backend) (g : Grid) (diagonal : bool) : Prop :=
  forall prob rows cols values d a,
    solver_problem g diagonal = Ok (prob, rows, cols, values, d) ->
    feasible prob a = true ->
    fst (backend prob) = Optimal.

(** The status the backend reports, when [solver] gets as far as calling it. *)
Definition status_of (backend : Backend) (g : Grid) (diagonal : bool) : option LpStatus :=
  match solver_problem g diagonal with
  | Ok (prob, _, _, _, _) => Some (fst (backend prob))
  | Raise _ => None
  end.

(** The values a backend leaves in the variables when it has found the
    grid [s]: the variable of a cell and a value is 1 when the cell holds
    the value. *)
Definition indicator (s : list (list Z)) : assignment :=
  fun '(r, c, v) => if (get 0%Z s r c =? v)%Z then 1%Z else 0%Z.

(** A backend that answers with the grid [s]. *)
Definition answers (s : list (list Z)) : Backend := fun _ => (Optimal, indicator s).

(** A backend that reports [status] and leaves every variable at 0. *)
Definition reports (status : LpStatus) : Backend := fun _ => (status, fun _ => 0%Z).

(** The grid of values [s] completes the puzzle [g]: it has the side of
    [g], its values are values of [1..N] and it agrees with [g] on the
    pre-filled cells. *)
Definition completes (g : Grid) (s : list (list Z)) : bool :=
  let n := length g in
  square n s
  && forallb (forallb (fun v => (1 <=? v) && (v <=? Z.of_nat n))%Z) s
  && forallb (fun '(r, c) =>
                negb (not_zero (get (PInt 0) g r c))
                || (numeric (get (PInt 0) g r c) =? get 0%Z s r c)%Z)
       (list_prod (range n) (range n)).

(** The grid of values obeys the rules, and the rule of the diagonals
    when the flag is set. *)
Definition legal (diagonal : bool) (n : nat) (s : list (list Z)) : bool :=
  sudoku_rules Z.eqb 0%Z (range1 n) n (Nat.sqrt n) s
  && (negb diagonal
      || (each_once Z.eqb 0%Z (range1 n) s (diag1_cells n)
          && each_once Z.eqb 0%Z (range1 n) s (diag2_cells n))).

(** ** The loops of [extract_solution] *)

(** One pass of the innermost loop on the cell at [(r, c)]. *)
Definition pick (a : assignment) (r c : nat) (acc : cell) (value : Z) : cell :=
  if negb (a (r, c, value) =? 0)%Z then encode value else acc.

(** The content of the cell at [(r, c)] when the three loops have ended. *)
Definition chosen (a : assignment) (n r c : nat) : cell :=
  fold_left (pick a r c) (range1 n) (PInt 0).

(** The cells selected by [P] are extracted, the others still hold 0. *)
Definition filled (a : assignment) (n : nat) (P : nat -> nat -> bool) (sol : Grid)
  : Prop :=
  square n sol = true
  /\ forall r c, r < n -> c < n ->
       get (PInt 0) sol r c = if P r c then chosen a n r c else PInt 0.

(** The body of the innermost loop, lines 110-112. *)
Definition value_body (a : assignment) (n row col : nat) (value : Z) (solution : Grid)
  : Res Grid :=
  let grid_vars := mkVarDict (range n) (range n) (range1 n) in
  v <- lookup grid_vars row col value ;;
  if negb (a v =? 0)%Z
  then set_item2 solution row col (encode value)
  else Ok solution.

(** ** The batch driver *)

(** An exception of the body of the reader that no handler catches: the
    [TypeError] of [ord] on a string of two characters or more, and the
    [OverflowError] of [sqrt] on a dimension too large for a float. *)
Definition escapes (e : exc) : Prop :=
  (exists k, 2 <= k /\ e = mkExc TypeError (OrdExpectedCharacter k))
  \/ e = mkExc OverflowError IntTooLargeForFloat.

(** An exception of [open] that the reader does not handle. *)
Definition unhandled_by_reader (e : exc) : bool :=
  negb (is_FileNotFoundError (exc_cls e)) && negb (is_ValueError (exc_cls e)).

(** A row that [read_rows] accepts for the dimension [dim]. *)
Definition row_read (dim : Z) (row : list Z) : Prop :=
  Z.of_nat (length row) = dim /\ Forall (fun v => (0 <= v <= dim)%Z) row.

(** A line that reports a puzzle the reader has given up. *)
Definition reports_puzzle (o : output) : Prop :=
  match o with
  | PrintErrorReading _ e => exc_cls e = ValueError
  | _ => False
  end.

(** The line that [write_sudoku_solutions_to_file] writes for a row of a
    solution (line 202), and the values that [read_sudokus_from_file] reads
    from a line (lines 167-172). *)
Definition write_row (row : list cell) : pystr := join (py " ") (map str row).

Definition parse_row (line : pystr) : Res (list Z) :=
  mapM (fun value => convert_to_numeric (PStr value)) (split (strip line)).

(** A symbol: a string that is not empty and has no white space. *)
Definition is_token (t : pystr) : bool :=
  negb (is_nil t) && forallb (fun c => negb (is_space_cp c)) t.

(** What [solver] returns: the solution, or [None] when its body raises. *)
Definition solution_of (backend : Backend) (p : Grid * bool) : option Grid :=
  match solver_try backend (fst p) (snd p) with
  | Ok solution => Some solution
  | Raise _ => None
  end.

(** ** Example grids and files *)

(** A grid of integers. *)
Definition ints (g : list (list Z)) : Grid := map (map PInt) g.

(** The state after [input_sudoku = [[0] * 4] * 4] and one line printed:
    the four rows of the empty puzzle are one object. *)
Definition shared_rows : world :=
  mkWorld [0; 0; 0; 0] [[PInt 0; PInt 0; PInt 0; PInt 0]] [PrintFileNotFound].

(** A solved 4x4 grid and a puzzle with two clues. *)
Definition solved4 : list (list Z) :=
  [[1; 2; 3; 4]; [3; 4; 1; 2]; [2; 1; 4; 3]; [4; 3; 2; 1]]%Z.

Definition puzzle4 : list (list Z) :=
  [[1; 0; 0; 0]; [0; 0; 0; 0]; [0; 0; 0; 0]; [0; 0; 0; 1]]%Z.

(** A solution of the 4x4 puzzle [puzzle4x] with both diagonals. *)
Definition solved4x : list (list Z) :=
  [[1; 2; 3; 4]; [3; 4; 1; 2]; [4; 3; 2; 1]; [2; 1; 4; 3]]%Z.

Definition puzzle4x : list (list Z) :=
  [[1; 0; 0; 0]; [0; 0; 0; 0]; [0; 0; 0; 0]; [0; 0; 0; 3]]%Z.

(** A puzzle with the value 1 twice in its first row. *)
Definition twice_in_row : list (list Z) :=
  [[1; 1; 0; 0]; [0; 0; 0; 0]; [0; 0; 0; 0]; [0; 0; 0; 0]]%Z.

(** A grid of 4 rows of 5 cells and a grid of side 5. *)
Definition grid_4x5 : Grid :=
  ints [[1; 2; 3; 4; 0]; [3; 4; 1; 2; 0]; [2; 1; 4; 3; 0]; [4; 3; 2; 1; 0]]%Z.

Definition grid_5x5 : Grid :=
  ints [[0; 0; 0; 0; 0]; [0; 0; 0; 0; 0]; [0; 0; 0; 0; 0]; [0; 0; 0; 0; 0];
        [0; 0; 0; 0; 0]]%Z.


(** A solved 16x16 grid. *)
Definition solved16 : list (list Z) :=
  [[1; 2; 3; 4; 5; 6; 7; 8; 9; 10; 11; 12; 13; 14; 15; 16];
   [5; 6; 7; 8; 9; 10; 11; 12; 13; 14; 15; 16; 1; 2; 3; 4];
   [9; 10; 11; 12; 13; 14; 15; 16; 1; 2; 3; 4; 5; 6; 7; 8];
   [13; 14; 15; 16; 1; 2; 3; 4; 5; 6; 7; 8; 9; 10; 11; 12];
   [2; 3; 4; 5; 6; 7; 8; 9; 10; 11; 12; 13; 14; 15; 16; 1];
   [6; 7; 8; 9; 10; 11; 12; 13; 14; 15; 16; 1; 2; 3; 4; 5];
   [10; 11; 12; 13; 14; 15; 16; 1; 2; 3; 4; 5; 6; 7; 8; 9];
   [14; 15; 16; 1; 2; 3; 4; 5; 6; 7; 8; 9; 10; 11; 12; 13];
   [3; 4; 5; 6; 7; 8; 9; 10; 11; 12; 13; 14; 15; 16; 1; 2];
   [7; 8; 9; 10; 11; 12; 13; 14; 15; 16; 1; 2; 3; 4; 5; 6];
   [11; 12; 13; 14; 15; 16; 1; 2; 3; 4; 5; 6; 7; 8; 9; 10];
   [15; 16; 1; 2; 3; 4; 5; 6; 7; 8; 9; 10; 11; 12; 13; 14];
   [4; 5; 6; 7; 8; 9; 10; 11; 12; 13; 14; 15; 16; 1; 2; 3];
   [8; 9; 10; 11; 12; 13; 14; 15; 16; 1; 2; 3; 4; 5; 6; 7];
   [12; 13; 14; 15; 16; 1; 2; 3; 4; 5; 6; 7; 8; 9; 10; 11];
   [16; 1; 2; 3; 4; 5; 6; 7; 8; 9; 10; 11; 12; 13; 14; 15]]%Z.

(** The puzzle that keeps the first row of [solved16] as clues. *)
Definition puzzle16 : list (list Z) :=
  nth 0 solved16 [] :: repeat (repeat 0%Z 16) 15.

(** A solved 16x16 grid that also has every value once on each of its two
    diagonals, and the puzzle that keeps its first row as clues. *)
Definition solved16x : list (list Z) :=
  [[2; 13; 11; 16; 4; 8; 1; 15; 7; 5; 14; 9; 12; 6; 3; 10];
   [6; 7; 15; 14; 5; 10; 3; 12; 1; 4; 13; 16; 9; 11; 8; 2];
   [12; 1; 3; 10; 9; 13; 2; 7; 15; 6; 8; 11; 14; 16; 4; 5];
   [9; 5; 4; 8; 6; 16; 11; 14; 12; 10; 3; 2; 13; 1; 15; 7];
   [16; 12; 6; 5; 15; 2; 7; 8; 13; 11; 1; 4; 10; 14; 9; 3];
   [10; 11; 13; 3; 16; 14; 5; 9; 8; 12; 6; 7; 15; 4; 2; 1];
   [14; 9; 8; 4; 10; 12; 13; 1; 2; 15; 16; 3; 7; 5; 11; 6];
   [7; 15; 1; 2; 3; 6; 4; 11; 5; 14; 9; 10; 16; 13; 12; 8];
   [11; 14; 10; 1; 13; 5; 9; 2; 16; 7; 4; 15; 3; 8; 6; 12];
   [13; 2; 16; 6; 14; 1; 12; 3; 11; 9; 5; 8; 4; 10; 7; 15];
   [5; 4; 9; 7; 8; 11; 15; 6; 3; 13; 10; 12; 1; 2; 16; 14];
   [3; 8; 12; 15; 7; 4; 10; 16; 14; 1; 2; 6; 11; 9; 5; 13];
   [4; 16; 7; 9; 2; 3; 14; 13; 6; 8; 12; 1; 5; 15; 10; 11];
   [8; 6; 14; 11; 1; 7; 16; 10; 4; 3; 15; 5; 2; 12; 13; 9];
   [15; 3; 5; 13; 12; 9; 8; 4; 10; 2; 11; 14; 6; 7; 1; 16];
   [1; 10; 2; 12; 11; 15; 6; 5; 9; 16; 7; 13; 8; 3; 14; 4]]%Z.

Definition puzzle16x : list (list Z) :=
  nth 0 solved16x [] :: repeat (repeat 0%Z 16) 15.

(** Two puzzles; the first row of the first one has three symbols. *)
Definition batch_short_row : File :=
  map py ["2";
          "4 0"; "1 2 3"; "3 4 1 2"; "2 1 4 3"; "4 3 2 1"; "";
          "4 0"; "1 0 0 0"; "0 0 0 0"; "0 0 0 0"; "0 0 0 1"; ""]%string.

(** The second puzzle of [batch_short_row] alone. *)
Definition batch_second_alone : File :=
  map py ["1";
          "4 0"; "1 0 0 0"; "0 0 0 0"; "0 0 0 0"; "0 0 0 1"; ""]%string.

(** Two puzzles; the first one has the symbol AB. *)
Definition batch_two_letters : File :=
  map py ["2";
          "4 0"; "1 AB 3 0"; "3 4 1 2"; "2 1 4 3"; "4 3 2 1"; "";
          "4 0"; "1 0 0 0"; "0 0 0 0"; "0 0 0 0"; "0 0 0 1"; ""]%string.

(** * Properties *)

(** ** Loops *)

Lemma bind_ok {A B} (r : Res A) (k : A -> Res B) (b : B) :
  bind r k = Ok b <-> exists a, r = Ok a /\ k a = Ok b.
Proof.
  destruct r as [a|e]; simpl; split.
  - intros H; exists a; auto.
  - intros [a' [Ha Hk]]; inversion Ha; subst; assumption.
  - discriminate.
  - intros [a' [Ha _]]; discriminate.
Qed.

Lemma for_ok {A} (l : list A) (body : A -> Res unit) :
  for_ l body = Ok tt <-> Forall (fun x => body x = Ok tt) l.
Proof.
  induction l as [|x t IH]; simpl.
  - split; auto.
  - split.
    + intros H. destruct (body x) as [[]|e] eqn:Hx; simpl in H; [|discriminate].
      constructor; [exact Hx | apply IH; assumption].
    + intros H. inversion H as [|? ? Hx Ht]; subst. rewrite Hx; simpl.
      apply IH; assumption.
Qed.

Lemma for_result {A} (l : list A) (body : A -> Res unit) :
  for_ l body = Ok tt \/ exists x e, In x l /\ body x = Raise e /\ for_ l body = Raise e.
Proof.
  induction l as [|x t IH]; simpl; [left; reflexivity|].
  destruct (body x) as [[]|e] eqn:Hx; simpl.
  - destruct IH as [IH|[y [e [Hin [Hy Hr]]]]]; [left; assumption|].
    right; exists y, e; auto.
  - right; exists x, e; auto.
Qed.

Lemma mapM_ok {A B} (f : A -> Res B) (g : A -> B) (l : list A) :
  (forall x, In x l -> f x = Ok (g x)) -> mapM f l = Ok (map g l).
Proof.
  induction l as [|x t IH]; simpl; intros H; [reflexivity|].
  rewrite (H x) by auto. simpl. rewrite IH by auto. reflexivity.
Qed.

Lemma getitem_ok {A} (l : list A) (i : nat) (x : A) :
  getitem l i = Ok x <-> nth_error l i = Some x.
Proof.
  unfold getitem. destruct (nth_error l i); split; intros H;
    try discriminate; inversion H; reflexivity.
Qed.

Lemma In_range (i n : nat) : In i (range n) <-> i < n.
Proof. unfold range. rewrite in_seq. lia. Qed.

Lemma In_range1 (v : Z) (n : nat) : In v (range1 n) <-> (1 <= v <= Z.of_nat n)%Z.
Proof.
  unfold range1. rewrite in_map_iff. split.
  - intros [k [Hk Hin]]. apply in_seq in Hin. lia.
  - intros H. exists (Z.to_nat v). split; [lia | apply in_seq; lia].
Qed.

(** ** The codec *)

Lemma convert_encode (v : Z) :
  (v <= 35)%Z -> convert_to_numeric (encode v) = Ok v.
Proof.
  intros Hv. unfold encode. destruct (v >? 9)%Z eqn:Hgt; [|reflexivity].
  apply Z.gtb_lt in Hgt.
  assert (Hup : is_upper_cp (55 + v) = true).
  { unfold is_upper_cp. apply andb_true_iff; split; apply Z.leb_le; lia. }
  assert (Hlo : is_lower_cp (55 + v) = false).
  { unfold is_lower_cp. apply andb_false_iff; left. apply Z.leb_gt; lia. }
  assert (Hc : (55 + v - 55 = v)%Z) by lia.
  revert Hup Hlo Hc. generalize (55 + v)%Z as c. intros c Hup Hlo Hc.
  unfold chr, convert_to_numeric, isalpha, upper. simpl.
  unfold is_alpha_cp. rewrite Hup. simpl.
  unfold upper_cp. rewrite Hlo. simpl. rewrite Hc. reflexivity.
Qed.

Lemma encode_inj (v w : Z) : encode v = encode w -> v = w.
Proof.
  unfold encode, chr.
  destruct (v >? 9)%Z eqn:Hv, (w >? 9)%Z eqn:Hw; intros H;
    try discriminate; [|congruence].
  assert (E : (55 + v = 55 + w)%Z) by congruence. lia.
Qed.

Lemma encode_letter (v : Z) :
  (10 <= v <= 35)%Z ->
  exists c, nth_error alphabet (Z.to_nat (v - 10)) = Some c /\ encode v = PStr [c].
Proof.
  intros Hv.
  assert (Hin : In v (map Z.of_nat (seq 10 26))).
  { apply in_map_iff. exists (Z.to_nat v). split; [lia | apply in_seq; lia]. }
  simpl in Hin.
  repeat (destruct Hin as [Hin|Hin];
          [subst v; eexists; split; reflexivity|]).
  contradiction.
Qed.

(** C2, as stated, fails: for a value up to 9 the expression of line 112
    yields the integer itself, not a string of digits. *)
Lemma C2_encode_digit_is_not_a_string :
  encode 5 = PInt 5 /\ encode 5 <> PStr (py "5").
Proof. split; [reflexivity | discriminate]. Qed.

(** C2, amended: for every value [v] in [1, 35] decoding the encoded value
    gives [v] back; for [v <= 9] the encoded value is the integer [v] itself,
    which [str] renders as its decimal digits when the solution is written;
    for [v] in [10, 35] it is the one-letter string holding the letter at
    position [v - 9] of the alphabet. *)
Theorem C2_codec_roundtrip (v : Z) :
  (1 <= v <= 35)%Z ->
  convert_to_numeric (encode v) = Ok v
  /\ ((v <= 9)%Z -> encode v = PInt v /\ str (encode v) = str_int v)
  /\ ((10 <= v)%Z ->
      exists c, nth_error alphabet (Z.to_nat (v - 10)) = Some c
                /\ encode v = PStr [c]).
Proof.
  intros Hv. split; [apply convert_encode; lia|]. split.
  - intros H9. unfold encode.
    assert (Hgt : (v >? 9)%Z = false) by (rewrite Z.gtb_ltb; apply Z.ltb_ge; lia).
    rewrite Hgt. split; reflexivity.
  - intros H10. apply encode_letter; lia.
Qed.

Lemma C2_codec_roundtrip_witness :
  (1 <= 12 <= 35)%Z
  /\ convert_to_numeric (encode 12) = Ok 12%Z
  /\ encode 12 = PStr (py "C")
  /\ encode 7 = PInt 7 /\ str (encode 7) = py "7".
Proof.
  split; [lia|].
  destruct (C2_codec_roundtrip 12%Z ltac:(lia)) as [Hr [_ Hl]].
  destruct (C2_codec_roundtrip 7%Z ltac:(lia)) as [_ [Hd _]].
  split; [exact Hr|]. split.
  - destruct (Hl ltac:(lia)) as [c [Hc He]]. vm_compute in Hc.
    inversion Hc; subst c. exact He.
  - destruct (Hd ltac:(lia)) as [H1 H2]. split; [exact H1|]. rewrite H2. reflexivity.
Defined.

(** ** The validator *)

Lemma rows_loop_ok (g : Grid) (k s : nat) :
  for_ (combine (seq s (length g)) g) (check_row_length k) = Ok tt
  <-> forallb (fun row => length row =? k) g = true.
Proof.
  revert s; induction g as [|row t IH]; intros s; simpl; [tauto|].
  destruct (length row =? k); simpl; [apply IH|].
  split; discriminate.
Qed.

Lemma check_cell_ok (g : Grid) (n row col : nat) :
  check_cell g n row col = Ok tt
  <-> exists the_row x, nth_error g row = Some the_row
                        /\ nth_error the_row col = Some x /\ cell_ok n x = true.
Proof.
  unfold check_cell, cell_ok. split.
  - intros H.
    apply bind_ok in H as [the_row [Hr H]]. apply getitem_ok in Hr.
    apply bind_ok in H as [x [Hx H]]. apply getitem_ok in Hx.
    apply bind_ok in H as [v [Hv H]].
    exists the_row, x. rewrite Hv. repeat split; try assumption.
    destruct (in_range v n); [reflexivity | discriminate].
  - intros [the_row [x [Hr [Hx Hc]]]].
    apply getitem_ok in Hr, Hx. rewrite Hr; simpl. rewrite Hx; simpl.
    destruct (convert_to_numeric x) as [v|e]; [|discriminate]. simpl.
    rewrite Hc. reflexivity.
Qed.

Lemma cells_loop_ok (g : Grid) (n : nat) :
  length g = n ->
  forallb (fun row => length row =? n) g = true ->
  (for_ (range n) (fun row => for_ (range n) (fun col => check_cell g n row col)) = Ok tt
   <-> forallb (forallb (cell_ok n)) g = true).
Proof.
  intros Hlen Hrows.
  rewrite forallb_forall in Hrows.
  rewrite for_ok, Forall_forall. split.
  - intros H. apply forallb_forall. intros the_row Hin.
    apply forallb_forall. intros x Hx.
    apply In_nth_error in Hin as [r Hr]. apply In_nth_error in Hx as [c Hc].
    assert (Hr' : r < n).
    { rewrite <- Hlen. apply nth_error_Some. congruence. }
    assert (Hc' : c < n).
    { assert (Hl : length the_row = n).
      { apply Nat.eqb_eq, Hrows. eapply nth_error_In; eassumption. }
      rewrite <- Hl. apply nth_error_Some. congruence. }
    specialize (H r (proj2 (In_range r n) Hr')).
    rewrite for_ok, Forall_forall in H.
    specialize (H c (proj2 (In_range c n) Hc')).
    apply check_cell_ok in H as [row' [x' [Hr2 [Hx2 Hok]]]].
    congruence.
  - intros H r Hr. apply In_range in Hr.
    rewrite for_ok, Forall_forall. intros c Hc. apply In_range in Hc.
    apply check_cell_ok.
    destruct (nth_error g r) as [the_row|] eqn:Er.
    2:{ apply nth_error_None in Er. lia. }
    assert (Hin : In the_row g) by (eapply nth_error_In; eassumption).
    assert (Hl : length the_row = n) by (apply Nat.eqb_eq, Hrows; assumption).
    destruct (nth_error the_row c) as [x|] eqn:Ec.
    2:{ apply nth_error_None in Ec. lia. }
    exists the_row, x. split; [reflexivity | split; [exact Ec|]].
    rewrite forallb_forall in H. specialize (H the_row Hin).
    rewrite forallb_forall in H. apply H. eapply nth_error_In; eassumption.
Qed.

Lemma validate_unfold (g : Grid) :
  validate_sudoku_input g =
  (let n_rows := length g in
   first_row <- getitem g 0 ;;
   let n_cols := length first_row in
   _ <- for_ (enumerate g) (check_row_length n_cols) ;;
   if negb (n_rows =? n_cols)
   then raise ValueError (GridNotSquare n_rows n_cols)
   else
     let m := Nat.sqrt n_rows in
     if negb (m * m =? n_rows)
     then raise ValueError (DimensionInvalid n_rows n_cols)
     else
       _ <- for_ (range n_rows) (fun row =>
              for_ (range n_cols) (fun col => check_cell g n_rows row col)) ;;
       Ok [n_rows; n_cols; m]).
Proof. reflexivity. Qed.

Lemma validate_valid (g : Grid) :
  valid_grid g = true ->
  validate_sudoku_input g = Ok [length g; length g; Nat.sqrt (length g)].
Proof.
  unfold valid_grid. intros H.
  apply andb_true_iff in H as [H Hcells]. apply andb_true_iff in H as [H Hsq].
  apply andb_true_iff in H as [Hne Hrows].
  rewrite validate_unfold. destruct g as [|first rest]; [discriminate|].
  cbn [getitem nth_error bind].
  assert (Hfirst : length first = length (first :: rest)).
  { simpl in Hrows. apply andb_true_iff in Hrows as [Hf _].
    apply Nat.eqb_eq in Hf. exact Hf. }
  cbv zeta. rewrite Hfirst.
  unfold enumerate.
  rewrite (proj2 (rows_loop_ok (first :: rest) _ 0) Hrows).
  cbn [bind]. rewrite Nat.eqb_refl. cbn [negb].
  rewrite Hsq. cbn [negb].
  rewrite (proj2 (cells_loop_ok (first :: rest) _ eq_refl Hrows) Hcells).
  reflexivity.
Qed.

Lemma validate_ok_inv (g : Grid) (t : list nat) :
  validate_sudoku_input g = Ok t ->
  valid_grid g = true /\ t = [length g; length g; Nat.sqrt (length g)].
Proof.
  rewrite validate_unfold. intros H. cbv zeta in H.
  apply bind_ok in H as [first [Hfirst H]]. apply getitem_ok in Hfirst.
  apply bind_ok in H as [[] [Hrows H]].
  destruct (length g =? length first) eqn:Hsq; [|discriminate].
  apply Nat.eqb_eq in Hsq. rewrite <- Hsq in *.
  cbn [negb] in H.
  destruct (Nat.sqrt (length g) * Nat.sqrt (length g) =? length g) eqn:Hm;
    [|discriminate].
  cbn [negb] in H.
  apply bind_ok in H as [[] [Hcells H]].
  unfold enumerate in Hrows. apply rows_loop_ok in Hrows.
  apply (cells_loop_ok g _ eq_refl Hrows) in Hcells.
  split; [|congruence].
  unfold valid_grid. rewrite Hrows, Hm, Hcells.
  destruct g; [discriminate|reflexivity].
Qed.

Lemma validate_ok_iff (g : Grid) (t : list nat) :
  validate_sudoku_input g = Ok t
  <-> valid_grid g = true /\ t = [length g; length g; Nat.sqrt (length g)].
Proof.
  split; [apply validate_ok_inv|].
  intros [H ->]. apply validate_valid, H.
Qed.

Lemma cell_ok_iff (n : nat) (x : cell) :
  cell_ok n x = true
  <-> exists v, convert_to_numeric x = Ok v /\ (0 <= v <= Z.of_nat n)%Z.
Proof.
  unfold cell_ok, in_range. destruct (convert_to_numeric x) as [v|e]; split.
  - intros H. apply andb_true_iff in H as [H1 H2].
    apply Z.leb_le in H1, H2. exists v; auto.
  - intros [w [Hw [H1 H2]]]. inversion Hw; subst w.
    apply andb_true_iff; split; apply Z.leb_le; assumption.
  - discriminate.
  - intros [w [Hw _]]; discriminate.
Qed.

Lemma rows_same_length (g : Grid) (k : nat) :
  forallb (fun row => length row =? k) g = true
  <-> forall row, In row g -> length row = k.
Proof.
  rewrite forallb_forall. split; intros H row Hin.
  - apply Nat.eqb_eq, H, Hin.
  - apply Nat.eqb_eq, H, Hin.
Qed.

Lemma valid_grid_iff (g : Grid) :
  valid_grid g = true
  <-> g <> []
      /\ (forall row, In row g -> length row = length g)
      /\ Nat.sqrt (length g) * Nat.sqrt (length g) = length g
      /\ (forall row x, In row g -> In x row -> cell_ok (length g) x = true).
Proof.
  unfold valid_grid. rewrite !andb_true_iff, rows_same_length, Nat.eqb_eq.
  rewrite forallb_forall.
  assert (Hne : negb (is_nil g) = true <-> g <> []).
  { destruct g; simpl; split; congruence. }
  rewrite Hne. split.
  - intros [[[H1 H2] H3] H4]. repeat split; try assumption.
    intros row x Hr Hx. specialize (H4 row Hr).
    rewrite forallb_forall in H4. apply H4, Hx.
  - intros [H1 [H2 [H3 H4]]]. repeat split; try assumption.
    intros row Hr. apply forallb_forall. intros x Hx. eapply H4; eassumption.
Qed.

(** C7: on a square grid of side [N], [N] a perfect square, the validator
    succeeds exactly when every cell decodes to a value [v] with
    [0 <= v <= N], both bounds included: the check lets [N] pass, and a grid
    with a cell that decodes to [N + 1] or to [-1] is refused. *)
Theorem C7_value_range_bounds_inclusive (g : Grid) (n : nat) :
  length g = n -> 0 < n ->
  (forall row, In row g -> length row = n) ->
  Nat.sqrt n * Nat.sqrt n = n ->
  (validate_sudoku_input g = Ok [n; n; Nat.sqrt n]
   <-> forall row x, In row g -> In x row ->
         exists v, convert_to_numeric x = Ok v /\ (0 <= v <= Z.of_nat n)%Z)
  /\ in_range (Z.of_nat n) n = true
  /\ (forall row x, In row g -> In x row ->
        convert_to_numeric x = Ok (Z.of_nat n + 1)%Z
        \/ convert_to_numeric x = Ok (-1)%Z ->
        exists e, validate_sudoku_input g = Raise e).
Proof.
  intros Hlen Hpos Hrows Hsq. subst n.
  assert (Hiff : validate_sudoku_input g
                 = Ok [length g; length g; Nat.sqrt (length g)]
                 <-> forall row x, In row g -> In x row ->
                       exists v, convert_to_numeric x = Ok v
                                 /\ (0 <= v <= Z.of_nat (length g))%Z).
  { rewrite validate_ok_iff, valid_grid_iff. split.
    - intros [[_ [_ [_ H]]] _] row x Hr Hx. apply cell_ok_iff. eapply H; eassumption.
    - intros H. split; [|reflexivity]. repeat split; try assumption.
      + destruct g; [simpl in Hpos; lia | discriminate].
      + intros row x Hr Hx. apply cell_ok_iff. eapply H; eassumption. }
  split; [exact Hiff|]. split.
  - unfold in_range. apply andb_true_iff; split; apply Z.leb_le; lia.
  - intros row x Hr Hx Hv.
    destruct (validate_sudoku_input g) as [t|e] eqn:Hval; [|exists e; reflexivity].
    exfalso. apply validate_ok_inv in Hval as [Hvalid Ht]. subst t.
    destruct (proj1 Hiff eq_refl row x Hr Hx) as [v [Hc Hb]].
    destruct Hv as [Hv|Hv]; rewrite Hv in Hc; inversion Hc; lia.
Qed.

Lemma C7_value_range_bounds_inclusive_witness :
  validate_sudoku_input (ints solved4) = Ok [4; 4; 2]
  /\ in_range 4 4 = true
  /\ exists e, validate_sudoku_input
                 (ints [[1; 2; 3; 5]; [3; 4; 1; 2]; [2; 1; 4; 3]; [4; 3; 2; 1]]%Z)
               = Raise e.
Proof.
  split; [|split].
  - apply (C7_value_range_bounds_inclusive (ints solved4) 4 eq_refl); try lia.
    + intros row Hr. simpl in Hr.
      repeat (destruct Hr as [Hr|Hr]; [subst row; reflexivity|]). contradiction.
    + reflexivity.
    + intros row x Hr Hx. apply cell_ok_iff.
      assert (H : forallb (forallb (cell_ok 4)) (ints solved4) = true) by reflexivity.
      rewrite forallb_forall in H. specialize (H row Hr).
      rewrite forallb_forall in H. apply H, Hx.
  - apply (C7_value_range_bounds_inclusive (ints solved4) 4 eq_refl); try lia.
    + intros row Hr. simpl in Hr.
      repeat (destruct Hr as [Hr|Hr]; [subst row; reflexivity|]). contradiction.
    + reflexivity.
  - apply (C7_value_range_bounds_inclusive
             (ints [[1; 2; 3; 5]; [3; 4; 1; 2]; [2; 1; 4; 3]; [4; 3; 2; 1]]%Z) 4 eq_refl
             ltac:(lia)) with (row := [PInt 1; PInt 2; PInt 3; PInt 5]) (x := PInt 5).
    + intros row Hr. simpl in Hr.
      repeat (destruct Hr as [Hr|Hr]; [subst row; reflexivity|]). contradiction.
    + reflexivity.
    + simpl; auto.
    + simpl; auto.
    + left; reflexivity.
Defined.

(** C9, as stated, fails: the value returned is not the pair [(N, m)] but a
    tuple of three numbers. *)
Lemma C9_validate_does_not_return_a_pair :
  validate_sudoku_input (ints solved4) = Ok [4; 4; 2]
  /\ validate_sudoku_input (ints solved4) <> Ok [4; 2].
Proof. split; [reflexivity | discriminate]. Qed.

(** The statements of the validator only read the state. *)
Lemma forS_read {A} (l : list A) (body : A -> St unit) (f : A -> Res unit) (w : world) :
  (forall x, In x l -> body x w = (f x, w)) ->
  forS l body w = (for_ l f, w).
Proof.
  induction l as [|x t IH]; intros H; [reflexivity|].
  cbn [forS for_]. unfold bindS. rewrite (H x) by (left; reflexivity).
  destruct (f x) as [[]|e]; cbn [bind]; [|reflexivity].
  apply IH. intros y Hy. apply H. right. exact Hy.
Qed.

Lemma for_ext {A} (l : list A) (f g : A -> Res unit) :
  (forall x, In x l -> f x = g x) -> for_ l f = for_ l g.
Proof.
  induction l as [|x t IH]; intros H; [reflexivity|].
  cbn [for_]. rewrite (H x) by (left; reflexivity).
  rewrite IH; [reflexivity|]. intros y Hy. apply H. right. exact Hy.
Qed.

Lemma for_map {A B} (h : A -> B) (l : list A) (f : B -> Res unit) :
  for_ (map h l) f = for_ l (fun x => f (h x)).
Proof.
  induction l as [|x t IH]; [reflexivity|]. cbn [map for_]. rewrite IH. reflexivity.
Qed.

Lemma enumerate_map {A B} (h : A -> B) (l : list A) :
  enumerate (map h l) = map (fun p => (fst p, h (snd p))) (enumerate l).
Proof.
  unfold enumerate. rewrite length_map. generalize (seq 0 (length l)) as indices.
  induction l as [|x t IH]; intros [|i indices]; try reflexivity.
  cbn [map combine fst snd]. rewrite IH. reflexivity.
Qed.

Lemma getitem_map {A B} (h : A -> B) (l : list A) (i : nat) :
  getitem (map h l) i = (x <- getitem l i ;; Ok (h x)).
Proof.
  unfold getitem. rewrite nth_error_map. destruct (nth_error l i); reflexivity.
Qed.

Lemma validate_call_reads (w : world) :
  validate_sudoku_input_call w = (validate_sudoku_input (grid_of w), w).
Proof.
  rewrite validate_unfold. cbv zeta.
  assert (Hlen : length (grid_of w) = length (w_input w)) by apply length_map.
  assert (Hfirst : getitem (grid_of w) 0
                   = (first_row <- getitem (w_input w) 0 ;; Ok (row_at w first_row)))
    by apply getitem_map.
  rewrite Hlen, Hfirst.
  unfold validate_sudoku_input_call, bindS, len_input, input_item, input_items, len_row.
  destruct (getitem (w_input w) 0) as [first_row|e]; cbn [bind]; [|reflexivity].
  set (n_rows := length (w_input w)). set (n_cols := length (row_at w first_row)).
  assert (Hrows : for_ (enumerate (grid_of w)) (check_row_length n_cols)
                  = for_ (enumerate (w_input w))
                      (fun p => check_row_length n_cols (fst p, row_at w (snd p)))).
  { unfold grid_of. rewrite enumerate_map, for_map. reflexivity. }
  rewrite Hrows.
  rewrite (forS_read _ _
             (fun p => check_row_length n_cols (fst p, row_at w (snd p)))).
  2:{ intros [row_index row] _. cbn [fst snd check_row_length].
      destruct (negb (length (row_at w row) =? n_cols)); reflexivity. }
  match goal with |- context [for_ ?l ?f] => destruct (for_ l f) as [[]|e] end;
    cbn [bind]; [|reflexivity].
  destruct (negb (n_rows =? n_cols)); [reflexivity|].
  destruct (negb (Nat.sqrt n_rows * Nat.sqrt n_rows =? n_rows)); [reflexivity|].
  rewrite (forS_read _ _
             (fun row => for_ (range n_cols)
                           (fun col => check_cell (grid_of w) n_rows row col))).
  2:{ intros row _. apply forS_read. intros col _.
      unfold check_cell, grid_of, bindS, input_item, row_item, eval, throw, ret.
      rewrite getitem_map.
      destruct (getitem (w_input w) row) as [the_row|e]; cbn [bind]; [|reflexivity].
      destruct (getitem (row_at w the_row) col) as [value|e]; cbn [bind]; [|reflexivity].
      destruct (convert_to_numeric value) as [numeric_value|e]; cbn [bind];
        [|reflexivity].
      destruct (negb (in_range numeric_value n_rows)); reflexivity. }
  match goal with |- context [for_ ?l ?f] => destruct (for_ l f) as [[]|e] end;
    reflexivity.
Qed.

(** C9, amended: the call of [validate_sudoku_input] only reads.  In every
    state of the caller, and whatever its outcome, it leaves the list
    [input_sudoku], the rows and what has been printed as they were, and
    its outcome is a function of the grid that [input_sudoku] holds.  On
    success it returns exactly the triple [(N, N, m)]: the number of rows,
    the number of columns, equal to it, and the box size [m] with
    [m * m = N]; every row then has [N] cells. *)
Theorem C9_validate_returns_triple (w : world) (g : Grid) (t : list nat) :
  snd (validate_sudoku_input_call w) = w
  /\ fst (validate_sudoku_input_call w) = validate_sudoku_input (grid_of w)
  /\ (validate_sudoku_input g = Ok t ->
      exists N m,
        t = [N; N; m] /\ N = length g /\ m * m = N /\ 0 < N
        /\ (forall row, In row g -> length row = N)).
Proof.
  rewrite validate_call_reads. split; [reflexivity|]. split; [reflexivity|].
  intros H. apply validate_ok_inv in H as [Hv Ht].
  apply valid_grid_iff in Hv as [Hne [Hrows [Hsq _]]].
  exists (length g), (Nat.sqrt (length g)).
  repeat split; try assumption.
  destruct g; [congruence | simpl; lia].
Qed.

Lemma C9_validate_returns_triple_witness :
  snd (validate_sudoku_input_call shared_rows) = shared_rows
  /\ fst (validate_sudoku_input_call shared_rows)
     = validate_sudoku_input (grid_of shared_rows)
  /\ exists N m,
       [4; 4; 2] = [N; N; m] /\ N = length (ints solved4) /\ m * m = N /\ 0 < N
       /\ (forall row, In row (ints solved4) -> length row = N).
Proof.
  destruct (C9_validate_returns_triple shared_rows (ints solved4) [4; 4; 2])
    as [Hstate [Hvalue Htriple]].
  split; [exact Hstate|]. split; [exact Hvalue|]. apply Htriple. reflexivity.
Defined.

(** ** The kinds of failure of the validator *)

Lemma check_row_length_raise (k : nat) (p : nat * list cell) (e : exc) :
  check_row_length k p = Raise e ->
  exists i len, e = mkExc ValueError (RowLengthDiffers i len k).
Proof.
  destruct p as [i row]. unfold check_row_length.
  destruct (length row =? k); simpl; [discriminate|].
  intros H. inversion H. eauto.
Qed.

(** C3, as stated, fails: the grid that is not square and the grid whose
    side is not a perfect square raise an exception of one and the same
    class, [ValueError]; the module has no other error class of its own. *)
Lemma C3_same_error_class :
  exists e1 e2,
    validate_sudoku_input grid_4x5 = Raise e1
    /\ validate_sudoku_input grid_5x5 = Raise e2
    /\ exc_cls e1 = ValueError /\ exc_cls e2 = ValueError
    /\ exc_cls e1 = exc_cls e2.
Proof.
  exists (mkExc ValueError (GridNotSquare 4 5)), (mkExc ValueError (DimensionInvalid 5 5)).
  repeat split.
Qed.

(** C3, amended: every failure kind raises [ValueError], and the message
    tells the kinds apart: a row whose length differs from the first row's,
    a row count that differs from the column count, a side that is not a
    perfect square, and, when every cell decodes, a decoded value outside
    [0, N]. *)
Theorem C3_validate_raises_ValueError (g : Grid) (first : list cell) :
  nth_error g 0 = Some first ->
  ((exists row, In row g /\ length row <> length first) ->
   exists i len,
     validate_sudoku_input g
     = Raise (mkExc ValueError (RowLengthDiffers i len (length first))))
  /\ ((forall row, In row g -> length row = length first) ->
      length g <> length first ->
      validate_sudoku_input g
      = Raise (mkExc ValueError (GridNotSquare (length g) (length first))))
  /\ ((forall row, In row g -> length row = length first) ->
      length g = length first ->
      Nat.sqrt (length g) * Nat.sqrt (length g) <> length g ->
      validate_sudoku_input g
      = Raise (mkExc ValueError (DimensionInvalid (length g) (length first))))
  /\ ((forall row, In row g -> length row = length first) ->
      length g = length first ->
      Nat.sqrt (length g) * Nat.sqrt (length g) = length g ->
      (forall row x, In row g -> In x row -> exists v, convert_to_numeric x = Ok v) ->
      (exists row x v, In row g /\ In x row /\ convert_to_numeric x = Ok v
                       /\ ~ (0 <= v <= Z.of_nat (length g))%Z) ->
      exists x r c,
        validate_sudoku_input g
        = Raise (mkExc ValueError (InvalidValue x r c (length g)))).
Proof.
  intros Hfirst. rewrite validate_unfold. cbv zeta.
  apply getitem_ok in Hfirst. rewrite Hfirst. cbn [bind].
  unfold enumerate.
  split; [|split; [|split]].
  - intros [row [Hin Hlen]].
    destruct (for_result (combine (seq 0 (length g)) g)
                (check_row_length (length first))) as [Hok|[p [e [_ [Hp Hr]]]]].
    + apply rows_loop_ok in Hok. rewrite rows_same_length in Hok.
      elim Hlen. apply Hok, Hin.
    + apply check_row_length_raise in Hp as [i [len ->]].
      rewrite Hr. exists i, len. reflexivity.
  - intros Hrows Hns.
    rewrite (proj2 (rows_loop_ok g _ 0) (proj2 (rows_same_length g _) Hrows)).
    cbn [bind]. apply Nat.eqb_neq in Hns. rewrite Hns. reflexivity.
  - intros Hrows Hs Hsq.
    rewrite (proj2 (rows_loop_ok g _ 0) (proj2 (rows_same_length g _) Hrows)).
    cbn [bind]. rewrite (proj2 (Nat.eqb_eq _ _) Hs). cbn [negb].
    apply Nat.eqb_neq in Hsq. rewrite Hsq. reflexivity.
  - intros Hrows Hs Hsq Hdec [row [x [v [Hr [Hx [Hv Hout]]]]]].
    rewrite (proj2 (rows_loop_ok g _ 0) (proj2 (rows_same_length g _) Hrows)).
    cbn [bind]. rewrite (proj2 (Nat.eqb_eq _ _) Hs). cbn [negb].
    rewrite (proj2 (Nat.eqb_eq _ _) Hsq). cbn [negb].
    rewrite <- Hs in *.
    destruct (for_result (range (length g))
                (fun row => for_ (range (length g))
                              (fun col => check_cell g (length g) row col)))
      as [Hok|[r [e [Hinr [Hp Hr']]]]].
    + exfalso. apply (cells_loop_ok g _ eq_refl) in Hok.
      2:{ apply rows_same_length, Hrows. }
      rewrite forallb_forall in Hok. specialize (Hok row Hr).
      rewrite forallb_forall in Hok. specialize (Hok x Hx).
      apply cell_ok_iff in Hok as [w [Hw Hb]]. rewrite Hv in Hw.
      inversion Hw; subst w. contradiction.
    + rewrite Hr'. cbn [bind]. apply In_range in Hinr.
      destruct (for_result (range (length g))
                  (fun col => check_cell g (length g) r col))
        as [Hok|[c [e' [Hinc [Hc Hr'']]]]]; [congruence|].
      assert (He : e' = e) by congruence. subst e'.
      apply In_range in Hinc.
      destruct (nth_error g r) as [the_row|] eqn:Er.
      2:{ apply nth_error_None in Er. lia. }
      assert (Hin : In the_row g) by (eapply nth_error_In; eassumption).
      assert (Hl : length the_row = length g) by (apply Hrows, Hin).
      destruct (nth_error the_row c) as [x0|] eqn:Ec.
      2:{ apply nth_error_None in Ec. lia. }
      destruct (Hdec the_row x0 Hin (nth_error_In _ _ Ec)) as [w Hw].
      unfold check_cell, getitem in Hc. rewrite Er in Hc. cbn [bind] in Hc.
      rewrite Ec in Hc. cbn [bind] in Hc. rewrite Hw in Hc. cbn [bind] in Hc.
      destruct (in_range w (length g)); cbn [negb] in Hc; [discriminate|].
      inversion Hc. eauto.
Qed.

Ltac each_row Hr :=
  simpl in Hr;
  repeat (destruct Hr as [Hr|Hr]; [subst; reflexivity|]);
  contradiction.

Lemma C3_validate_raises_ValueError_witness :
  validate_sudoku_input grid_4x5 = Raise (mkExc ValueError (GridNotSquare 4 5))
  /\ validate_sudoku_input grid_5x5 = Raise (mkExc ValueError (DimensionInvalid 5 5)).
Proof.
  split.
  - destruct (C3_validate_raises_ValueError grid_4x5
                [PInt 1; PInt 2; PInt 3; PInt 4; PInt 0] eq_refl) as [_ [H _]].
    apply H.
    + intros row Hr. each_row Hr.
    + simpl. lia.
  - destruct (C3_validate_raises_ValueError grid_5x5
                [PInt 0; PInt 0; PInt 0; PInt 0; PInt 0] eq_refl) as [_ [_ [H _]]].
    apply H.
    + intros row Hr. each_row Hr.
    + reflexivity.
    + simpl. lia.
Defined.

(** ** No exception escapes [solver] *)

Lemma handled_bind {A B} (r : Res A) (k : A -> Res B) :
  handled r -> (forall a, handled (k a)) -> handled (bind r k).
Proof. destruct r; simpl; auto. Qed.

Lemma handled_for {A} (l : list A) (body : A -> Res unit) :
  (forall x, handled (body x)) -> handled (for_ l body).
Proof.
  intros H. induction l; simpl; [exact I|].
  apply handled_bind; auto.
Qed.

Lemma handled_for_fold {A S} (l : list A) (body : A -> S -> Res S) (s : S) :
  (forall x s, handled (body x s)) -> handled (for_fold l s body).
Proof.
  intros H. revert s. induction l; simpl; intros s; [exact I|].
  apply handled_bind; auto.
Qed.

Lemma handled_mapM {A B} (f : A -> Res B) (l : list A) :
  (forall x, handled (f x)) -> handled (mapM f l).
Proof.
  intros H. induction l; simpl; [exact I|].
  apply handled_bind; [apply H|]. intros y.
  apply handled_bind; [assumption|]. intros ys. exact I.
Qed.

Lemma handled_getitem {A} (l : list A) (i : nat) : handled (getitem l i).
Proof. unfold getitem. destruct (nth_error l i); simpl; auto. Qed.

Lemma handled_set_item {A} (l : list A) (i : nat) (x : A) : handled (set_item l i x).
Proof.
  revert i; induction l as [|y t IH]; intros i; simpl; [reflexivity|].
  destruct i; simpl; [exact I|].
  apply handled_bind; [apply IH|]. intros; exact I.
Qed.

Lemma handled_lookup (d : VarDict) (row col : nat) (value : Z) :
  handled (lookup d row col value).
Proof.
  unfold lookup.
  destruct (negb (mem_nat row (d_rows d))); [reflexivity|].
  destruct (negb (mem_nat col (d_cols d))); [reflexivity|].
  destruct (negb (mem_Z value (d_values d))); [reflexivity | exact I].
Qed.

Lemma handled_int_of_str (s : pystr) : handled (int_of_str s).
Proof.
  unfold int_of_str.
  match goal with |- handled (match ?p with _ => _ end) => destruct p end;
    simpl; auto.
Qed.

Lemma handled_convert (x : cell) : handled (convert_to_numeric x).
Proof.
  destruct x as [z|s]; simpl; [exact I|].
  destruct (isalpha s).
  - apply handled_bind; [|intros; exact I].
    unfold ord. destruct (upper s) as [|c [|c' t]]; simpl; auto.
  - apply handled_int_of_str.
Qed.

Ltac handled_step :=
  first
    [ exact I
    | reflexivity
    | apply handled_getitem
    | apply handled_set_item
    | apply handled_lookup
    | apply handled_convert
    | apply handled_bind
    | apply handled_for
    | apply handled_for_fold
    | apply handled_mapM
    | match goal with
      | |- handled (if ?b then _ else _) => destruct b
      | |- handled (let '(_, _) := ?p in _) => destruct p
      | |- forall _, _ => intro
      end ].

Lemma handled_validate (g : Grid) : handled (validate_sudoku_input g).
Proof. unfold validate_sudoku_input. repeat handled_step. Qed.

Lemma handled_create (prob : LpProblem) (d : VarDict) (rows cols : list nat)
    (values : list Z) (n m : nat) (g : Grid) :
  handled (create_sudoku_constraints prob d rows cols values n m g).
Proof. unfold create_sudoku_constraints. repeat handled_step. Qed.

Lemma handled_diagonal (prob : LpProblem) (d : VarDict) (rows cols : list nat)
    (values : list Z) :
  handled (add_diagonal_sudoku_constraints prob d rows cols values).
Proof. unfold add_diagonal_sudoku_constraints. repeat handled_step. Qed.

Lemma handled_extract (a : assignment) (d : VarDict) (rows cols : list nat)
    (values : list Z) :
  handled (extract_solution a d rows cols values).
Proof. unfold extract_solution, set_item2. repeat handled_step. Qed.

Lemma handled_unpack3 (t : list nat) : handled (unpack3 t).
Proof.
  destruct t as [|a [|b [|c [|d t]]]]; simpl; auto.
Qed.

Lemma handled_solver_problem (g : Grid) (diagonal : bool) :
  handled (solver_problem g diagonal).
Proof.
  unfold solver_problem.
  apply handled_bind; [apply handled_validate|]. intros t.
  apply handled_bind; [apply handled_unpack3|]. intros [[n_rows n_cols] m].
  unfold setup_problem.
  apply handled_bind; [apply handled_create|]. intros prob.
  apply handled_bind; [|intros; exact I].
  destruct diagonal; [apply handled_diagonal | exact I].
Qed.

Lemma handled_solver_try (backend : Backend) (g : Grid) (diagonal : bool) :
  handled (solver_try backend g diagonal).
Proof.
  unfold solver_try.
  apply handled_bind; [apply handled_solver_problem|].
  intros [[[[prob rows] cols] values] d].
  destruct (backend prob) as [status a].
  destruct status; try reflexivity. apply handled_extract.
Qed.

(** C10: whatever the grid, the flag and the backend's answer, [solver]
    raises nothing: it returns a solution and prints nothing, or it
    returns [None] after printing the one exception its body raised. *)
Theorem C10_solver_never_raises (backend : Backend) (g : Grid) (diagonal : bool) :
  (exists solution,
      solver_try backend g diagonal = Ok solution
      /\ solver backend g diagonal = (Ok (Some solution), []))
  \/ (exists e,
        solver_try backend g diagonal = Raise e
        /\ solver backend g diagonal = (Ok None, [PrintError e])).
Proof.
  unfold solver. pose proof (handled_solver_try backend g diagonal) as H.
  destruct (solver_try backend g diagonal) as [solution|e].
  - left. exists solution. split; reflexivity.
  - right. exists e. simpl in H. rewrite H. split; reflexivity.
Qed.

(** ** The problem in closed form *)

Lemma for_fold_app {A B} (l : list A) (body : A -> list B -> Res (list B))
    (f : A -> list B) :
  (forall x s, In x l -> body x s = Ok (s ++ f x)) ->
  forall s, for_fold l s body = Ok (s ++ flat_map f l).
Proof.
  induction l as [|x t IH]; simpl; intros H s.
  - rewrite app_nil_r. reflexivity.
  - rewrite (H x s) by auto. simpl. rewrite IH by (intros; apply H; auto).
    rewrite app_assoc. reflexivity.
Qed.

(** The same when the body may raise: if the loop ends, every pass has
    succeeded and has appended [f x]. *)
Lemma for_fold_app_inv {A B} (l : list A) (body : A -> list B -> Res (list B))
    (f : A -> list B) (P : A -> Prop) :
  (forall x s s', In x l -> body x s = Ok s' -> s' = s ++ f x /\ P x) ->
  forall s s', for_fold l s body = Ok s' ->
               s' = s ++ flat_map f l /\ forall x, In x l -> P x.
Proof.
  induction l as [|x t IH]; simpl; intros H s s' Hrun.
  - inversion Hrun. rewrite app_nil_r. split; [reflexivity | contradiction].
  - apply bind_ok in Hrun as [s1 [H1 Hrest]].
    apply H in H1 as [-> Hx]; [|auto].
    apply IH in Hrest as [-> Ht]; [|intros; apply H; auto].
    rewrite app_assoc. split; [reflexivity|].
    intros y [->|Hy]; auto.
Qed.

Lemma mem_nat_range (x n : nat) : mem_nat x (range n) = true <-> x < n.
Proof.
  unfold mem_nat. rewrite existsb_exists. split.
  - intros [y [Hin Heq]]. apply Nat.eqb_eq in Heq. subst y. apply In_range, Hin.
  - intros H. exists x. split; [apply In_range, H | apply Nat.eqb_refl].
Qed.

Lemma mem_Z_range1 (v : Z) (n : nat) :
  mem_Z v (range1 n) = true <-> (1 <= v <= Z.of_nat n)%Z.
Proof.
  unfold mem_Z. rewrite existsb_exists, <- In_range1. split.
  - intros [y [Hin Heq]]. apply Z.eqb_eq in Heq. subst y. exact Hin.
  - intros H. exists v. split; [exact H | apply Z.eqb_refl].
Qed.

Section Lookup.

Variables n m : nat.
Hypothesis Hm : m * m = n.

Let d : VarDict := mkVarDict (range n) (range n) (range1 n).

Lemma lookup_in_range (row col : nat) (value : Z) :
  row < n -> col < n -> In value (range1 n) ->
  lookup d row col value = Ok (row, col, value).
Proof.
  intros Hr Hc Hv. unfold lookup, d. simpl.
  rewrite (proj2 (mem_nat_range row n) Hr), (proj2 (mem_nat_range col n) Hc).
  rewrite (proj2 (mem_Z_range1 value n) (proj1 (In_range1 value n) Hv)).
  reflexivity.
Qed.

Lemma lookup_inv (row col : nat) (value : Z) (v : var) :
  lookup d row col value = Ok v ->
  v = (row, col, value) /\ row < n /\ col < n /\ (1 <= value <= Z.of_nat n)%Z.
Proof.
  unfold lookup, d. simpl.
  destruct (mem_nat row (range n)) eqn:Hr; [|discriminate].
  destruct (mem_nat col (range n)) eqn:Hc; [|discriminate].
  destruct (mem_Z value (range1 n)) eqn:Hv; [|discriminate].
  simpl. intros H; inversion H.
  apply mem_nat_range in Hr, Hc. apply mem_Z_range1 in Hv. auto.
Qed.

Lemma box_index (g i : nat) : g < m -> i < m -> g * m + i < n.
Proof. intros Hg Hi. rewrite <- Hm. nia. Qed.

End Lookup.

Section Building.

Variables n m : nat.
Hypothesis Hm : m * m = n.

Let d : VarDict := mkVarDict (range n) (range n) (range1 n).

Lemma col_loop (prob : LpProblem) :
  for_fold (range n) prob (fun col prob =>
    for_fold (range1 n) prob (fun value prob =>
      vars <- mapM (fun row => lookup d row col value) (range n) ;;
      Ok (addConstraint prob vars (col_value col value))))
  = Ok (prob ++ col_constraints n).
Proof.
  unfold col_constraints. apply for_fold_app. intros col s Hcol.
  apply for_fold_app. intros value s' Hv. cbv beta.
  match goal with
  | |- context [mapM ?f _] => rewrite (mapM_ok f (fun row => (row, col, value)))
  end.
  - unfold addConstraint, vars_at, col_cells. rewrite map_map. reflexivity.
  - intros row Hrow. apply In_range in Hrow, Hcol.
    apply lookup_in_range; assumption.
Qed.

Lemma row_loop (prob : LpProblem) :
  for_fold (range n) prob (fun row prob =>
    for_fold (range1 n) prob (fun value prob =>
      vars <- mapM (fun col => lookup d row col value) (range n) ;;
      Ok (addConstraint prob vars (row_value row value))))
  = Ok (prob ++ row_constraints n).
Proof.
  unfold row_constraints. apply for_fold_app. intros row s Hrow.
  apply for_fold_app. intros value s' Hv. cbv beta.
  match goal with
  | |- context [mapM ?f _] => rewrite (mapM_ok f (fun col => (row, col, value)))
  end.
  - unfold addConstraint, vars_at, row_cells. rewrite map_map. reflexivity.
  - intros col Hcol. apply In_range in Hrow, Hcol.
    apply lookup_in_range; assumption.
Qed.

Lemma cell_loop (prob : LpProblem) :
  for_fold (range n) prob (fun row prob =>
    for_fold (range n) prob (fun col prob =>
      vars <- mapM (fun value => lookup d row col value) (range1 n) ;;
      Ok (addConstraint prob vars (cell_name row col))))
  = Ok (prob ++ cell_constraints n).
Proof.
  unfold cell_constraints. apply for_fold_app. intros row s Hrow.
  apply for_fold_app. intros col s' Hcol. cbv beta.
  match goal with
  | |- context [mapM ?f _] => rewrite (mapM_ok f (fun value => (row, col, value)))
  end.
  - reflexivity.
  - intros value Hv. apply In_range in Hrow, Hcol.
    apply lookup_in_range; assumption.
Qed.

Lemma box_loop (prob : LpProblem) :
  for_fold (range m) prob (fun grid_row prob =>
    for_fold (range m) prob (fun grid_col prob =>
      for_fold (range1 n) prob (fun value prob =>
        vars <- mapM (fun '(row, col) =>
                  lookup d (grid_row * m + row) (grid_col * m + col) value)
                (list_prod (range m) (range m)) ;;
        Ok (addConstraint prob vars (subgrid_value grid_row grid_col value)))))
  = Ok (prob ++ box_constraints n m).
Proof.
  unfold box_constraints. apply for_fold_app. intros gr s Hgr.
  apply for_fold_app. intros gc s' Hgc.
  apply for_fold_app. intros value s'' Hv. cbv beta.
  match goal with
  | |- context [mapM ?f _] => rewrite (mapM_ok f (fun '(row, col) => (gr * m + row, gc * m + col, value)))
  end.
  - unfold addConstraint, vars_at, box_cells. rewrite map_map.
    cbn [bind]. do 4 f_equal. apply map_ext. intros [i j]. reflexivity.
  - intros [i j] Hij. apply in_prod_iff in Hij as [Hi Hj].
    apply In_range in Hgr, Hgc, Hi, Hj.
    apply lookup_in_range; try assumption; apply box_index; assumption.
Qed.

Lemma diagonal_loops (prob : LpProblem) (cols : list nat) :
  add_diagonal_sudoku_constraints prob d (range n) cols (range1 n)
  = Ok (prob ++ diagonal_constraints n).
Proof.
  unfold add_diagonal_sudoku_constraints, diagonal_constraints.
  rewrite for_fold_app
    with (f := fun value =>
                 [mkConstraint (diagonal1_value value) (vars_at value (diag1_cells n))]).
  - cbn [bind].
    rewrite for_fold_app
      with (f := fun value =>
                   [mkConstraint (diagonal2_value value) (vars_at value (diag2_cells n))]).
    + rewrite app_assoc. reflexivity.
    + intros value s Hv. cbv beta.
      match goal with
  | |- context [mapM ?f _] => rewrite (mapM_ok f (fun i => (i, length (range n) - i - 1, value)))
  end.
      * unfold addConstraint, vars_at, diag2_cells, range.
        rewrite map_map, length_seq. reflexivity.
      * intros i Hi. apply In_range in Hi.
        apply lookup_in_range; try assumption.
        unfold range. rewrite length_seq. lia.
  - intros value s Hv. cbv beta.
    match goal with
  | |- context [mapM ?f _] => rewrite (mapM_ok f (fun i => (i, i, value)))
  end.
    + unfold addConstraint, vars_at, diag1_cells. rewrite map_map. reflexivity.
    + intros i Hi. apply In_range in Hi. apply lookup_in_range; assumption.
Qed.

Lemma clue_body_inv (g : Grid) (row col : nat) (s s' : LpProblem) :
  clue_body n g row col s = Ok s' ->
  s' = s ++ clue_of g row col /\ clue_good n g row col.
Proof.
  unfold clue_body, clue_of, clue_good. intros H.
  apply bind_ok in H as [the_row [Hr H]]. apply getitem_ok in Hr.
  apply bind_ok in H as [c [Hc H]]. apply getitem_ok in Hc.
  rewrite Hr, Hc.
  destruct (not_zero c) eqn:Hnz.
  - apply bind_ok in H as [value [Hv H]].
    apply bind_ok in H as [v [Hl H]].
    apply lookup_inv in Hl as [-> [_ [_ Hb]]].
    rewrite Hv. inversion H. split; [reflexivity|].
    exists the_row, c. repeat split; try assumption.
    intros _. exists value. split; [exact Hv | assumption].
  - inversion H. rewrite app_nil_r. split; [reflexivity|].
    exists the_row, c. repeat split; try assumption. congruence.
Qed.

Lemma clue_body_ok (g : Grid) (row col : nat) (s : LpProblem) :
  row < n -> col < n -> clue_good n g row col ->
  clue_body n g row col s = Ok (s ++ clue_of g row col).
Proof.
  intros Hrow Hcol [the_row [c [Hr [Hc Hgood]]]].
  unfold clue_body, clue_of. rewrite Hr, Hc.
  apply getitem_ok in Hr, Hc. rewrite Hr. cbn [bind]. rewrite Hc. cbn [bind].
  destruct (not_zero c).
  - destruct (Hgood eq_refl) as [value [Hv Hb]]. rewrite Hv. cbn [bind].
    unfold d. rewrite lookup_in_range; try assumption; [reflexivity|].
    apply In_range1, Hb.
  - rewrite app_nil_r. reflexivity.
Qed.

Lemma create_unfold (prob : LpProblem) (g : Grid) :
  create_sudoku_constraints prob d (range n) (range n) (range1 n) n m g
  = for_fold (range n) (prob ++ standard_constraints n m) (fun row prob =>
      for_fold (range n) prob (fun col prob => clue_body n g row col prob)).
Proof.
  unfold create_sudoku_constraints.
  rewrite col_loop. cbn [bind]. rewrite row_loop. cbn [bind].
  rewrite cell_loop. cbn [bind]. rewrite box_loop. cbn [bind].
  unfold standard_constraints. rewrite !app_assoc. reflexivity.
Qed.

Lemma create_inv (prob prob' : LpProblem) (g : Grid) :
  create_sudoku_constraints prob d (range n) (range n) (range1 n) n m g = Ok prob' ->
  prob' = prob ++ standard_constraints n m ++ clue_constraints n g
  /\ forall row col, row < n -> col < n -> clue_good n g row col.
Proof.
  rewrite create_unfold. intros H.
  apply for_fold_app_inv
    with (f := fun row => flat_map (fun col => clue_of g row col) (range n))
         (P := fun row => forall col, col < n -> clue_good n g row col) in H.
  - destruct H as [-> Hgood]. rewrite <- app_assoc. split; [reflexivity|].
    intros row col Hrow Hcol. apply Hgood; [apply In_range|]; assumption.
  - intros row s s' Hrow Hs.
    apply for_fold_app_inv
      with (f := fun col => clue_of g row col)
           (P := fun col => clue_good n g row col) in Hs.
    + destruct Hs as [-> Hgood]. split; [reflexivity|].
      intros col Hcol. apply Hgood, In_range, Hcol.
    + intros col s0 s1 Hcol. apply clue_body_inv.
Qed.

Lemma create_ok (prob : LpProblem) (g : Grid) :
  (forall row col, row < n -> col < n -> clue_good n g row col) ->
  create_sudoku_constraints prob d (range n) (range n) (range1 n) n m g
  = Ok (prob ++ standard_constraints n m ++ clue_constraints n g).
Proof.
  intros Hgood. rewrite create_unfold. unfold clue_constraints.
  rewrite app_assoc. apply for_fold_app. intros row s Hrow.
  apply for_fold_app. intros col s' Hcol.
  apply In_range in Hrow, Hcol. apply clue_body_ok; auto.
Qed.

End Building.

Lemma solver_problem_inv (g : Grid) (diagonal : bool) (prob : LpProblem)
    (rows cols : list nat) (values : list Z) (d : VarDict) :
  solver_problem g diagonal = Ok (prob, rows, cols, values, d) ->
  valid_grid g = true /\ clues_good g
  /\ prob = problem_of g diagonal
  /\ rows = range (length g) /\ cols = range (length g)
  /\ values = range1 (length g)
  /\ d = mkVarDict (range (length g)) (range (length g)) (range1 (length g)).
Proof.
  unfold solver_problem. intros H.
  apply bind_ok in H as [t [Hval H]].
  apply validate_ok_inv in Hval as [Hvalid ->].
  cbn [unpack3 bind setup_problem] in H.
  apply bind_ok in H as [prob1 [Hcreate H]].
  assert (Hsq : Nat.sqrt (length g) * Nat.sqrt (length g) = length g).
  { apply valid_grid_iff in Hvalid. tauto. }
  apply (create_inv _ _ Hsq) in Hcreate as [-> Hgood].
  apply bind_ok in H as [prob2 [Hdiag H]].
  inversion H; subst. clear H.
  repeat split; try assumption; try reflexivity.
  unfold problem_of. destruct diagonal.
  - rewrite (diagonal_loops _ _ Hsq) in Hdiag. inversion Hdiag.
    simpl. rewrite <- app_assoc. reflexivity.
  - inversion Hdiag. simpl. rewrite app_nil_r. reflexivity.
Qed.

Lemma solver_problem_ok (g : Grid) (diagonal : bool) :
  valid_grid g = true -> clues_good g ->
  solver_problem g diagonal
  = Ok (problem_of g diagonal, range (length g), range (length g),
        range1 (length g),
        mkVarDict (range (length g)) (range (length g)) (range1 (length g))).
Proof.
  intros Hvalid Hgood. unfold solver_problem.
  rewrite (validate_valid g Hvalid). cbn [unpack3 bind setup_problem].
  assert (Hsq : Nat.sqrt (length g) * Nat.sqrt (length g) = length g).
  { apply valid_grid_iff in Hvalid. tauto. }
  rewrite (create_ok _ _ Hsq [] g Hgood). cbn [bind].
  unfold problem_of. destruct diagonal.
  - rewrite (diagonal_loops _ _ Hsq). cbn [bind]. simpl.
    rewrite <- app_assoc. reflexivity.
  - cbn [bind]. simpl. rewrite app_nil_r. reflexivity.
Qed.

(** ** Updating a grid in place *)

Lemma set_item_ok {A} (l : list A) (i : nat) (x : A) :
  i < length l -> set_item l i x = Ok (upd l i x).
Proof.
  revert i; induction l as [|y t IH]; intros i Hi; simpl in *; [lia|].
  destruct i; [reflexivity|]. rewrite IH by lia. reflexivity.
Qed.

Lemma length_upd {A} (l : list A) (i : nat) (x : A) : length (upd l i x) = length l.
Proof.
  revert i; induction l as [|y t IH]; intros i; simpl; [reflexivity|].
  destruct i; simpl; [reflexivity | rewrite IH; reflexivity].
Qed.

Lemma nth_upd_eq {A} (l : list A) (i : nat) (x d : A) :
  i < length l -> nth i (upd l i x) d = x.
Proof.
  revert i; induction l as [|y t IH]; intros i Hi; simpl in *; [lia|].
  destruct i; simpl; [reflexivity | apply IH; lia].
Qed.

Lemma nth_upd_neq {A} (l : list A) (i j : nat) (x d : A) :
  j <> i -> nth j (upd l i x) d = nth j l d.
Proof.
  revert i j; induction l as [|y t IH]; intros i j Hij; simpl.
  - destruct j; reflexivity.
  - destruct i, j; simpl; try reflexivity; [lia | apply IH; lia].
Qed.

Lemma In_upd {A} (l : list A) (i : nat) (x y : A) :
  In y (upd l i x) -> y = x \/ In y l.
Proof.
  revert i; induction l as [|z t IH]; intros i; simpl; [tauto|].
  destruct i; simpl.
  - intros [H|H]; auto.
  - intros [H|H]; auto. apply IH in H. tauto.
Qed.

Lemma square_iff {A} (n : nat) (grid : list (list A)) :
  square n grid = true
  <-> length grid = n /\ forall row, In row grid -> length row = n.
Proof.
  unfold square. rewrite andb_true_iff, Nat.eqb_eq, forallb_forall.
  split; intros [H1 H2]; split; try assumption; intros row Hr.
  - apply Nat.eqb_eq, H2, Hr.
  - apply Nat.eqb_eq, H2, Hr.
Qed.

Lemma square_row {A} (n : nat) (grid : list (list A)) (r : nat) :
  square n grid = true -> r < n -> length (nth r grid []) = n.
Proof.
  intros H Hr. apply square_iff in H as [Hl Hrows].
  apply Hrows, nth_In. lia.
Qed.

Lemma set_item2_ok (n : nat) (sol : Grid) (r c : nat) (x : cell) :
  square n sol = true -> r < n -> c < n ->
  set_item2 sol r c x = Ok (upd2 sol r c x).
Proof.
  intros Hsq Hr Hc. unfold set_item2, upd2.
  pose proof (square_row n sol r Hsq Hr) as Hrow.
  apply square_iff in Hsq as [Hl _].
  assert (Hnth : nth_error sol r = Some (nth r sol [])).
  { apply nth_error_nth'. lia. }
  apply getitem_ok in Hnth. rewrite Hnth. cbn [bind].
  rewrite set_item_ok by lia. cbn [bind].
  apply set_item_ok. lia.
Qed.

Lemma square_upd2 (n : nat) (sol : Grid) (r c : nat) (x : cell) :
  square n sol = true -> r < n -> square n (upd2 sol r c x) = true.
Proof.
  intros Hsq Hr. pose proof (square_row n sol r Hsq Hr) as Hrow.
  apply square_iff in Hsq as [Hl Hrows]. apply square_iff. unfold upd2.
  split; [rewrite length_upd; assumption|].
  intros row Hin. apply In_upd in Hin as [->|Hin]; [|auto].
  rewrite length_upd. assumption.
Qed.

Lemma get_upd2_same (n : nat) (sol : Grid) (r c : nat) (x d : cell) :
  square n sol = true -> r < n -> c < n ->
  get d (upd2 sol r c x) r c = x.
Proof.
  intros Hsq Hr Hc. pose proof (square_row n sol r Hsq Hr) as Hrow.
  apply square_iff in Hsq as [Hl _]. unfold get, upd2.
  rewrite nth_upd_eq by lia. apply nth_upd_eq. lia.
Qed.

Lemma get_upd2_other (n : nat) (sol : Grid) (r c r' c' : nat) (x d : cell) :
  square n sol = true -> r < n ->
  (r', c') <> (r, c) ->
  get d (upd2 sol r c x) r' c' = get d sol r' c'.
Proof.
  intros Hsq Hr Hne. apply square_iff in Hsq as [Hl _]. unfold get, upd2.
  destruct (Nat.eq_dec r' r) as [->|Hrr].
  - rewrite nth_upd_eq by lia. apply nth_upd_neq. congruence.
  - rewrite nth_upd_neq by assumption. reflexivity.
Qed.

(** A loop that keeps an invariant [I] of the state and of the elements
    already visited runs to its end. *)
Lemma for_fold_invariant {A S} (I : list A -> S -> Prop) (l : list A)
    (body : A -> S -> Res S) (s0 : S) :
  I [] s0 ->
  (forall done x rest s, l = done ++ x :: rest -> I done s ->
     exists s', body x s = Ok s' /\ I (done ++ [x]) s') ->
  exists s', for_fold l s0 body = Ok s' /\ I l s'.
Proof.
  intros H0 Hstep.
  assert (Hgen : forall rest done s,
             l = done ++ rest -> I done s ->
             exists s', for_fold rest s body = Ok s' /\ I l s').
  { induction rest as [|x t IH]; intros done s Hl Hs; simpl.
    - exists s. rewrite app_nil_r in Hl. subst l. auto.
    - destruct (Hstep done x t s Hl Hs) as [s1 [Hb Hs1]].
      rewrite Hb. cbn [bind].
      apply (IH (done ++ [x]) s1); [|assumption].
      rewrite <- app_assoc. exact Hl. }
  apply (Hgen l [] s0); auto.
Qed.

Lemma split_fresh {A} (l done rest : list A) (x : A) :
  NoDup l -> l = done ++ x :: rest -> ~ In x done /\ In x l.
Proof.
  intros Hnd ->. split.
  - apply NoDup_remove_2 in Hnd. intros H. apply Hnd, in_or_app. auto.
  - apply in_or_app. right. left. reflexivity.
Qed.

Lemma mem_nat_iff (x : nat) (l : list nat) : mem_nat x l = true <-> In x l.
Proof.
  unfold mem_nat. rewrite existsb_exists. split.
  - intros [y [Hin Heq]]. apply Nat.eqb_eq in Heq. subst y. exact Hin.
  - intros H. exists x. split; [exact H | apply Nat.eqb_refl].
Qed.

Lemma mem_nat_snoc (x y : nat) (l : list nat) :
  mem_nat x (l ++ [y]) = mem_nat x l || (x =? y).
Proof. unfold mem_nat. rewrite existsb_app. simpl. rewrite orb_false_r. reflexivity. Qed.

Lemma nth_map_const {A B} (l : list A) (y d : B) (i : nat) :
  i < length l -> nth i (map (fun _ => y) l) d = y.
Proof.
  revert i; induction l as [|x t IH]; intros i Hi; simpl in *; [lia|].
  destruct i; [reflexivity | apply IH; lia].
Qed.

Section Extraction.

Variable a : assignment.
Variable n : nat.

Let d : VarDict := mkVarDict (range n) (range n) (range1 n).

Lemma values_loop (sol : Grid) (row col : nat) :
  square n sol = true -> row < n -> col < n ->
  get (PInt 0) sol row col = PInt 0 ->
  exists sol',
    for_fold (range1 n) sol (value_body a n row col) = Ok sol'
    /\ square n sol' = true
    /\ get (PInt 0) sol' row col = chosen a n row col
    /\ forall r c, (r, c) <> (row, col) ->
                   get (PInt 0) sol' r c = get (PInt 0) sol r c.
Proof.
  intros Hsq Hrow Hcol Hzero.
  destruct (for_fold_invariant
              (fun done s =>
                 square n s = true
                 /\ get (PInt 0) s row col = fold_left (pick a row col) done (PInt 0)
                 /\ forall r c, (r, c) <> (row, col) ->
                                get (PInt 0) s r c = get (PInt 0) sol r c)
              (range1 n) (value_body a n row col) sol) as [sol' [Hrun Hinv]].
  - repeat split; auto.
  - intros done value rest s Hsplit [Hs [Hget Hother]].
    assert (Hin : In value (range1 n)).
    { rewrite Hsplit. apply in_or_app. right. left. reflexivity. }
    unfold value_body, d. rewrite lookup_in_range by assumption. cbn [bind].
    rewrite fold_left_app. cbn [fold_left]. unfold pick at 1.
    destruct (negb (a (row, col, value) =? 0)%Z).
    + exists (upd2 s row col (encode value)).
      split; [apply (set_item2_ok n); assumption|].
      split; [apply square_upd2; assumption|].
      split; [apply (get_upd2_same n); assumption|].
      intros r c Hne. rewrite (get_upd2_other n) by assumption. apply Hother, Hne.
    + exists s. repeat split; assumption.
  - exists sol'. tauto.
Qed.

Lemma cols_loop (P : nat -> nat -> bool) (sol : Grid) (row : nat) :
  filled a n P sol -> row < n -> (forall c, P row c = false) ->
  exists sol',
    for_fold (range n) sol (fun col solution =>
      for_fold (range1 n) solution (value_body a n row col)) = Ok sol'
    /\ filled a n (fun r c => P r c || (r =? row)) sol'.
Proof.
  intros Hfill Hrow HP.
  destruct (for_fold_invariant
              (fun done s => filled a n (fun r c => P r c || ((r =? row) && mem_nat c done)) s)
              (range n)
              (fun col solution => for_fold (range1 n) solution (value_body a n row col))
              sol) as [sol' [Hrun Hinv]].
  - destruct Hfill as [Hsq Hget]. split; [assumption|].
    intros r c Hr Hc. rewrite (Hget r c Hr Hc). simpl.
    rewrite andb_false_r, orb_false_r. reflexivity.
  - intros done col rest s Hsplit [Hsq Hget].
    destruct (split_fresh (range n) done rest col (seq_NoDup n 0) Hsplit)
      as [Hfresh Hin].
    apply In_range in Hin.
    destruct (values_loop s row col Hsq Hrow Hin) as [s' [Hrun' [Hsq' [Hsame Hother]]]].
    + rewrite (Hget row col Hrow Hin), HP, Nat.eqb_refl. simpl.
      destruct (mem_nat col done) eqn:Hmem; [|reflexivity].
      apply mem_nat_iff in Hmem. contradiction.
    + exists s'. split; [exact Hrun'|]. split; [exact Hsq'|].
      intros r c Hr Hc. rewrite mem_nat_snoc.
      destruct (Nat.eq_dec r row) as [->|Hrr].
      * rewrite Nat.eqb_refl, HP. simpl.
        destruct (Nat.eq_dec c col) as [->|Hcc].
        -- rewrite Nat.eqb_refl, orb_true_r. exact Hsame.
        -- rewrite Hother by congruence. rewrite (Hget row c Hr Hc), HP.
           rewrite Nat.eqb_refl. simpl.
           rewrite (proj2 (Nat.eqb_neq c col) Hcc), orb_false_r. reflexivity.
      * rewrite Hother by congruence. rewrite (Hget r c Hr Hc).
        rewrite (proj2 (Nat.eqb_neq r row) Hrr). reflexivity.
  - exists sol'. split; [exact Hrun|].
    destruct Hinv as [Hsq Hget]. split; [assumption|].
    intros r c Hr Hc. rewrite (Hget r c Hr Hc).
    rewrite (proj2 (mem_nat_range c n) Hc), andb_true_r. reflexivity.
Qed.

Lemma extract_solution_ok :
  exists sol,
    extract_solution a d (range n) (range n) (range1 n) = Ok sol
    /\ square n sol = true
    /\ forall r c, r < n -> c < n -> get (PInt 0) sol r c = chosen a n r c.
Proof.
  unfold extract_solution.
  destruct (for_fold_invariant
              (fun done s => filled a n (fun r c => mem_nat r done) s)
              (range n)
              (fun row solution =>
                 for_fold (range n) solution (fun col solution =>
                   for_fold (range1 n) solution (value_body a n row col)))
              (map (fun _ => map (fun _ => PInt 0) (range n)) (range n)))
    as [sol [Hrun Hinv]].
  - split.
    + apply square_iff. unfold range. rewrite length_map, length_seq.
      split; [reflexivity|]. intros row Hin. apply in_map_iff in Hin as [x [<- _]].
      rewrite length_map, length_seq. reflexivity.
    + intros r c Hr Hc. simpl. unfold get.
      rewrite !nth_map_const by (unfold range; rewrite length_seq; assumption).
      reflexivity.
  - intros done row rest s Hsplit Hfill.
    destruct (split_fresh (range n) done rest row (seq_NoDup n 0) Hsplit)
      as [Hfresh Hin].
    apply In_range in Hin.
    destruct (cols_loop (fun r c => mem_nat r done) s row Hfill Hin) as [s' [Hrun' Hfill']].
    + intros c. destruct (mem_nat row done) eqn:Hmem; [|reflexivity].
      apply mem_nat_iff in Hmem. contradiction.
    + exists s'. split; [exact Hrun'|].
      destruct Hfill' as [Hsq Hget]. split; [assumption|].
      intros r c Hr Hc. rewrite (Hget r c Hr Hc), mem_nat_snoc. reflexivity.
  - exists sol. split; [exact Hrun|].
    destruct Hinv as [Hsq Hget]. split; [assumption|].
    intros r c Hr Hc. rewrite (Hget r c Hr Hc).
    rewrite (proj2 (mem_nat_range r n) Hr). reflexivity.
Qed.

End Extraction.

(** ** The cells of a row and of a column

    On a square grid the cells at the positions of a row are the row itself,
    and the cells at the positions of a column are the column. *)

Lemma nth_map_seq {A} (f : nat -> A) (n i : nat) (d : A) :
  i < n -> nth i (map f (seq 0 n)) d = f i.
Proof.
  intros Hi.
  assert (Hlen : i < length (map f (seq 0 n))) by (rewrite length_map, length_seq; exact Hi).
  rewrite (nth_indep _ d (f 0) Hlen), map_nth, seq_nth by exact Hi. reflexivity.
Qed.

Lemma cells_at_row {A} (n : nat) (d : A) (grid : list (list A)) (r : nat) :
  square n grid = true -> r < n ->
  cells_at d grid (row_cells n r) = nth r grid [].
Proof.
  intros Hsq Hr. pose proof (square_row n grid r Hsq Hr) as Hlen.
  unfold cells_at, row_cells, range. rewrite map_map.
  apply (nth_ext _ _ d d).
  - rewrite length_map, length_seq. symmetry. exact Hlen.
  - intros c Hc. rewrite length_map, length_seq in Hc.
    rewrite nth_map_seq by exact Hc. reflexivity.
Qed.

Lemma cells_at_col {A} (n : nat) (d : A) (grid : list (list A)) (c : nat) :
  square n grid = true ->
  cells_at d grid (col_cells n c) = map (fun row => nth c row d) grid.
Proof.
  intros Hsq. apply square_iff in Hsq as [Hlen _].
  unfold cells_at, col_cells, range. rewrite map_map.
  apply (nth_ext _ _ d d).
  - rewrite !length_map, length_seq. symmetry. exact Hlen.
  - intros r Hr. rewrite length_map, length_seq in Hr.
    rewrite nth_map_seq by exact Hr. unfold get.
    assert (Hlen' : r < length (map (fun row => nth c row d) grid))
      by (rewrite length_map; lia).
    rewrite (nth_indep _ d ((fun row => nth c row d) []) Hlen').
    rewrite (map_nth (fun row => nth c row d)). reflexivity.
Qed.

(** ** From a feasible assignment to a grid that obeys the rules *)

Lemma cell_eqb_eq (x y : cell) : cell_eqb x y = true <-> x = y.
Proof.
  destruct x as [x|s], y as [y|t]; simpl.
  - rewrite Z.eqb_eq. split; congruence.
  - split; discriminate.
  - split; discriminate.
  - destruct (list_eq_dec Z.eq_dec s t); split; congruence.
Qed.

Lemma is_binary_iff (a : assignment) (v : var) :
  is_binary a v = true <-> a v = 0%Z \/ a v = 1%Z.
Proof. unfold is_binary. rewrite orb_true_iff, !Z.eqb_eq. reflexivity. Qed.

Lemma feasible_app (p q : LpProblem) (a : assignment) :
  feasible (p ++ q) a = true <-> feasible p a = true /\ feasible q a = true.
Proof. unfold feasible. rewrite forallb_app, andb_true_iff. reflexivity. Qed.

Lemma feasible_In (prob : LpProblem) (a : assignment) (c : LpConstraint) :
  feasible prob a = true -> In c prob ->
  (forall v, In v (c_sum c) -> a v = 0%Z \/ a v = 1%Z) /\ lp_sum a (c_sum c) = 1%Z.
Proof.
  unfold feasible. rewrite forallb_forall. intros H Hin.
  specialize (H c Hin). unfold satisfied in H.
  apply andb_true_iff in H as [Hb Hs]. rewrite forallb_forall in Hb.
  apply Z.eqb_eq in Hs. split; [|exact Hs].
  intros v Hv. apply is_binary_iff, Hb, Hv.
Qed.

(** The sum of binary variables counts the ones. *)
Lemma lp_sum_count (a : assignment) (vars : list var) :
  (forall v, In v vars -> a v = 0%Z \/ a v = 1%Z) ->
  lp_sum a vars = Z.of_nat (length (filter (fun v => (a v =? 1)%Z) vars)).
Proof.
  unfold lp_sum. induction vars as [|x t IH]; intros Hb; [reflexivity|].
  cbn [map fold_right filter]. rewrite IH by (intros; apply Hb; right; assumption).
  destruct (Hb x (or_introl eq_refl)) as [H|H]; rewrite H.
  - change (0 =? 1)%Z with false. lia.
  - change (1 =? 1)%Z with true. cbn [length]. rewrite Nat2Z.inj_succ. lia.
Qed.

Lemma filter_map_length {A B} (p : B -> bool) (f : A -> B) (l : list A) :
  length (filter p (map f l)) = length (filter (fun x => p (f x)) l).
Proof.
  induction l as [|x t IH]; simpl; [reflexivity|].
  destruct (p (f x)); simpl; rewrite IH; reflexivity.
Qed.

Lemma filter_ext_length {A} (p q : A -> bool) (l : list A) :
  (forall x, In x l -> p x = q x) -> length (filter p l) = length (filter q l).
Proof.
  intros H. rewrite (filter_ext_in p q l H). reflexivity.
Qed.

Section Chosen.

Variable a : assignment.
Variable n : nat.

(** With binary variables that sum to 0 the loop over the values leaves
    the cell as it is; when they sum to 1 it leaves the one value whose
    variable is 1. *)
Lemma pick_none (r c : nat) (values : list Z) (acc : cell) :
  (forall v, In v values -> a (r, c, v) = 0%Z \/ a (r, c, v) = 1%Z) ->
  lp_sum a (map (fun v => (r, c, v)) values) = 0%Z ->
  (forall v, In v values -> a (r, c, v) = 0%Z)
  /\ fold_left (pick a r c) values acc = acc.
Proof.
  revert acc. induction values as [|x t IH]; intros acc Hb Hs.
  - split; [intros v []|reflexivity].
  - assert (Hpos : (0 <= lp_sum a (map (fun v => (r, c, v)) t))%Z).
    { rewrite lp_sum_count; [lia|]. intros v Hv. apply in_map_iff in Hv as [w [<- Hw]].
      apply Hb. right. exact Hw. }
    unfold lp_sum in Hs, Hpos. cbn [map fold_right] in Hs.
    destruct (Hb x (or_introl eq_refl)) as [Hx|Hx]; [|lia].
    rewrite Hx in Hs.
    destruct (IH acc) as [Hz Hf].
    + intros v Hv. apply Hb. right. exact Hv.
    + unfold lp_sum. lia.
    + split.
      * intros v [<-|Hv]; auto.
      * cbn [fold_left]. unfold pick at 2. rewrite Hx. simpl. exact Hf.
Qed.

Lemma pick_one (r c : nat) (values : list Z) (acc : cell) :
  (forall v, In v values -> a (r, c, v) = 0%Z \/ a (r, c, v) = 1%Z) ->
  lp_sum a (map (fun v => (r, c, v)) values) = 1%Z ->
  exists v0, In v0 values /\ a (r, c, v0) = 1%Z
             /\ (forall v, In v values -> v <> v0 -> a (r, c, v) = 0%Z)
             /\ fold_left (pick a r c) values acc = encode v0.
Proof.
  revert acc. induction values as [|x t IH]; intros acc Hb Hs.
  - discriminate.
  - unfold lp_sum in Hs. cbn [map fold_right] in Hs.
    assert (Hbt : forall v, In v t -> a (r, c, v) = 0%Z \/ a (r, c, v) = 1%Z).
    { intros v Hv. apply Hb. right. exact Hv. }
    destruct (Hb x (or_introl eq_refl)) as [Hx|Hx]; rewrite Hx in Hs.
    + destruct (IH acc Hbt) as [v0 [Hin [H1 [H0 Hf]]]]; [unfold lp_sum; lia|].
      exists v0. split; [right; exact Hin|]. split; [exact H1|]. split.
      * intros v [<-|Hv] Hne; auto.
      * cbn [fold_left]. unfold pick at 2. rewrite Hx. simpl. exact Hf.
    + destruct (pick_none r c t (encode x) Hbt) as [Hz Hf]; [unfold lp_sum; lia|].
      exists x. split; [left; reflexivity|]. split; [exact Hx|]. split.
      * intros v [<-|Hv] Hne; [congruence | auto].
      * cbn [fold_left]. unfold pick at 2. rewrite Hx. simpl. exact Hf.
Qed.

(** The cells of the square of side [n] each have one value. *)
Hypothesis Hcells : feasible (cell_constraints n) a = true.

Lemma cell_constraint_In (r c : nat) :
  r < n -> c < n ->
  In (mkConstraint (cell_name r c) (map (fun v => (r, c, v)) (range1 n)))
     (cell_constraints n).
Proof.
  intros Hr Hc. unfold cell_constraints.
  apply in_flat_map. exists r. split; [apply In_range, Hr|].
  apply in_flat_map. exists c. split; [apply In_range, Hc|].
  left. reflexivity.
Qed.

Lemma binary_in_square (r c : nat) (v : Z) :
  r < n -> c < n -> In v (range1 n) -> a (r, c, v) = 0%Z \/ a (r, c, v) = 1%Z.
Proof.
  intros Hr Hc Hv.
  destruct (feasible_In _ _ _ Hcells (cell_constraint_In r c Hr Hc)) as [Hb _].
  apply Hb. simpl. apply in_map_iff. exists v. auto.
Qed.

Lemma chosen_iff (r c : nat) (v : Z) :
  r < n -> c < n -> In v (range1 n) ->
  (chosen a n r c = encode v <-> a (r, c, v) = 1%Z).
Proof.
  intros Hr Hc Hv.
  destruct (feasible_In _ _ _ Hcells (cell_constraint_In r c Hr Hc)) as [_ Hs].
  simpl in Hs.
  destruct (pick_one r c (range1 n) (PInt 0)) as [v0 [Hin [H1 [H0 Hf]]]];
    [intros w Hw; apply binary_in_square; assumption | exact Hs |].
  unfold chosen. rewrite Hf. split.
  - intros He. apply encode_inj in He. congruence.
  - intros Hone. destruct (Z.eq_dec v v0) as [->|Hne]; [reflexivity|].
    rewrite (H0 v Hv Hne) in Hone. discriminate.
Qed.

(** A grid that holds the extracted cells. *)
Variable sol : Grid.
Hypothesis Hsol : forall r c, r < n -> c < n -> get (PInt 0) sol r c = chosen a n r c.

(** A constraint on the cells at [ps] for the value [v] puts the symbol
    of [v] exactly once among these cells. *)
Lemma constraint_once (ps : list (nat * nat)) (v : Z) :
  in_square n ps -> In v (range1 n) ->
  lp_sum a (vars_at v ps) = 1%Z ->
  count cell_eqb (encode v) (cells_at (PInt 0) sol ps) = 1.
Proof.
  intros Hps Hv Hs. unfold count, cells_at.
  rewrite filter_map_length.
  rewrite lp_sum_count in Hs.
  - unfold vars_at in Hs. rewrite filter_map_length in Hs.
    rewrite (filter_ext_length _ (fun x => (a (let '(r, c) := x in (r, c, v)) =? 1)%Z)).
    + apply Nat2Z.inj. exact Hs.
    + intros [r c] Hin. destruct (Hps r c Hin) as [Hr Hc].
      rewrite (Hsol r c Hr Hc).
      destruct (cell_eqb (encode v) (chosen a n r c)) eqn:E.
      * apply cell_eqb_eq in E. symmetry in E.
        apply (chosen_iff r c v Hr Hc Hv) in E. rewrite E. reflexivity.
      * destruct (a (r, c, v) =? 1)%Z eqn:E1; [|reflexivity].
        apply Z.eqb_eq in E1. apply (chosen_iff r c v Hr Hc Hv) in E1.
        rewrite E1 in E.
        assert (Hrefl : cell_eqb (encode v) (encode v) = true)
          by (apply cell_eqb_eq; reflexivity).
        congruence.
  - intros x Hx. unfold vars_at in Hx. apply in_map_iff in Hx as [[r c] [<- Hin]].
    destruct (Hps r c Hin) as [Hr Hc]. apply binary_in_square; assumption.
Qed.

End Chosen.

(** ** The solution returned by [solver] *)

Lemma not_zero_iff (x : cell) : not_zero x = true <-> x <> PInt 0.
Proof.
  destruct x as [z|s]; simpl.
  - rewrite negb_true_iff, Z.eqb_neq. split; congruence.
  - split; [discriminate | reflexivity].
Qed.

Lemma solver_Some_inv (backend : Backend) (g : Grid) (diagonal : bool) (sol : Grid) :
  fst (solver backend g diagonal) = Ok (Some sol) ->
  solver_problem g diagonal
  = Ok (problem_of g diagonal, range (length g), range (length g),
        range1 (length g),
        mkVarDict (range (length g)) (range (length g)) (range1 (length g)))
  /\ valid_grid g = true /\ clues_good g
  /\ exists a,
       backend (problem_of g diagonal) = (Optimal, a)
       /\ square (length g) sol = true
       /\ forall r c, r < length g -> c < length g ->
                      get (PInt 0) sol r c = chosen a (length g) r c.
Proof.
  unfold solver. intros H.
  destruct (solver_try backend g diagonal) as [sol'|e] eqn:Htry.
  2:{ destruct (is_Exception (exc_cls e)); discriminate. }
  simpl in H. inversion H; subst sol'. clear H.
  unfold solver_try in Htry.
  apply bind_ok in Htry as [[[[[prob rows] cols] values] d] [Hprob Hrest]].
  pose proof (solver_problem_inv _ _ _ _ _ _ _ Hprob)
    as [Hvalid [Hgood [-> [-> [-> [-> ->]]]]]].
  split; [exact Hprob|]. split; [exact Hvalid|]. split; [exact Hgood|].
  destruct (backend (problem_of g diagonal)) as [status a].
  destruct status; try discriminate.
  exists a. split; [reflexivity|].
  destruct (extract_solution_ok a (length g)) as [sol' [Hex [Hsq Hget]]].
  rewrite Hex in Hrest. inversion Hrest; subst sol'. auto.
Qed.

Lemma solver_Optimal (backend : Backend) (g : Grid) (diagonal : bool) (a : assignment)
    (sol : Grid) :
  valid_grid g = true -> clues_good g ->
  backend (problem_of g diagonal) = (Optimal, a) ->
  extract_solution a
    (mkVarDict (range (length g)) (range (length g)) (range1 (length g)))
    (range (length g)) (range (length g)) (range1 (length g)) = Ok sol ->
  solver backend g diagonal = (Ok (Some sol), []).
Proof.
  intros Hvalid Hgood Hb Hex. unfold solver, solver_try.
  rewrite (solver_problem_ok g diagonal Hvalid Hgood). cbn [bind].
  rewrite Hb, Hex. reflexivity.
Qed.

Lemma sound_feasible (backend : Backend) (g : Grid) (diagonal : bool) (sol : Grid) :
  backend_sound backend g diagonal = true ->
  fst (solver backend g diagonal) = Ok (Some sol) ->
  feasible (problem_of g diagonal) (snd (backend (problem_of g diagonal))) = true.
Proof.
  intros Hsound Hsol. apply solver_Some_inv in Hsol as [Hprob [_ [_ [a [Hb _]]]]].
  unfold backend_sound in Hsound. rewrite Hprob, Hb in Hsound.
  rewrite Hb. exact Hsound.
Qed.

Section Units.

Variables n m : nat.
Hypothesis Hm : m * m = n.

Lemma row_in_square (r : nat) : r < n -> in_square n (row_cells n r).
Proof.
  intros Hr r' c Hin. unfold row_cells in Hin.
  apply in_map_iff in Hin as [x [Hx Hin]]. inversion Hx; subst.
  apply In_range in Hin. auto.
Qed.

Lemma col_in_square (c : nat) : c < n -> in_square n (col_cells n c).
Proof.
  intros Hc r c' Hin. unfold col_cells in Hin.
  apply in_map_iff in Hin as [x [Hx Hin]]. inversion Hx; subst.
  apply In_range in Hin. auto.
Qed.

Lemma box_in_square (gr gc : nat) : gr < m -> gc < m -> in_square n (box_cells m gr gc).
Proof.
  intros Hgr Hgc r c Hin. unfold box_cells in Hin.
  apply in_map_iff in Hin as [[i j] [Hx Hin]]. inversion Hx; subst r c.
  apply in_prod_iff in Hin as [Hi Hj]. apply In_range in Hi, Hj.
  split; apply (box_index n m Hm); assumption.
Qed.

Lemma diag1_in_square : in_square n (diag1_cells n).
Proof.
  intros r c Hin. unfold diag1_cells in Hin.
  apply in_map_iff in Hin as [x [Hx Hin]]. inversion Hx; subst.
  apply In_range in Hin. auto.
Qed.

Lemma diag2_in_square : in_square n (diag2_cells n).
Proof.
  intros r c Hin. unfold diag2_cells in Hin.
  apply in_map_iff in Hin as [x [Hx Hin]]. inversion Hx; subst.
  apply In_range in Hin. lia.
Qed.

Lemma row_constraint_In (r : nat) (v : Z) :
  r < n -> In v (range1 n) ->
  In (mkConstraint (row_value r v) (vars_at v (row_cells n r))) (row_constraints n).
Proof.
  intros Hr Hv. unfold row_constraints.
  apply in_flat_map. exists r. split; [apply In_range, Hr|].
  apply in_flat_map. exists v. split; [exact Hv | left; reflexivity].
Qed.

Lemma col_constraint_In (c : nat) (v : Z) :
  c < n -> In v (range1 n) ->
  In (mkConstraint (col_value c v) (vars_at v (col_cells n c))) (col_constraints n).
Proof.
  intros Hc Hv. unfold col_constraints.
  apply in_flat_map. exists c. split; [apply In_range, Hc|].
  apply in_flat_map. exists v. split; [exact Hv | left; reflexivity].
Qed.

Lemma box_constraint_In (gr gc : nat) (v : Z) :
  gr < m -> gc < m -> In v (range1 n) ->
  In (mkConstraint (subgrid_value gr gc v) (vars_at v (box_cells m gr gc)))
     (box_constraints n m).
Proof.
  intros Hgr Hgc Hv. unfold box_constraints.
  apply in_flat_map. exists gr. split; [apply In_range, Hgr|].
  apply in_flat_map. exists gc. split; [apply In_range, Hgc|].
  apply in_flat_map. exists v. split; [exact Hv | left; reflexivity].
Qed.

Lemma diagonal_constraint_In (v : Z) :
  In v (range1 n) ->
  In (mkConstraint (diagonal1_value v) (vars_at v (diag1_cells n))) (diagonal_constraints n)
  /\ In (mkConstraint (diagonal2_value v) (vars_at v (diag2_cells n)))
        (diagonal_constraints n).
Proof.
  intros Hv. unfold diagonal_constraints. split; apply in_or_app; [left|right];
    apply in_flat_map; exists v; (split; [exact Hv | left; reflexivity]).
Qed.

Variable a : assignment.
Variable sol : Grid.
Hypothesis Hfeasible : feasible (standard_constraints n m) a = true.
Hypothesis Hsol : forall r c, r < n -> c < n -> get (PInt 0) sol r c = chosen a n r c.

Lemma standard_parts :
  feasible (col_constraints n) a = true /\ feasible (row_constraints n) a = true
  /\ feasible (cell_constraints n) a = true /\ feasible (box_constraints n m) a = true.
Proof.
  unfold standard_constraints in Hfeasible.
  rewrite !feasible_app in Hfeasible. tauto.
Qed.

Lemma unit_each_once (ps : list (nat * nat)) :
  in_square n ps ->
  (forall v, In v (range1 n) -> lp_sum a (vars_at v ps) = 1%Z) ->
  each_once cell_eqb (PInt 0) (map encode (range1 n)) sol ps = true.
Proof.
  intros Hps Hsum. unfold each_once. apply forallb_forall. intros s Hs.
  apply in_map_iff in Hs as [v [<- Hv]]. apply Nat.eqb_eq.
  destruct standard_parts as [_ [_ [Hcells _]]].
  apply (constraint_once a n Hcells sol Hsol ps v Hps Hv). apply Hsum, Hv.
Qed.

Lemma rules_of_feasible :
  sudoku_rules cell_eqb (PInt 0) (map encode (range1 n)) n m sol = true.
Proof.
  destruct standard_parts as [Hcols [Hrows [Hcells Hboxes]]].
  unfold sudoku_rules, units. rewrite !forallb_app, !andb_true_iff.
  split; [|split]; apply forallb_forall; intros ps Hin;
    apply in_map_iff in Hin as [x [<- Hx]].
  - apply In_range in Hx. apply unit_each_once; [apply row_in_square, Hx|].
    intros v Hv.
    apply (feasible_In _ _ _ Hrows (row_constraint_In x v Hx Hv)).
  - apply In_range in Hx. apply unit_each_once; [apply col_in_square, Hx|].
    intros v Hv.
    apply (feasible_In _ _ _ Hcols (col_constraint_In x v Hx Hv)).
  - destruct x as [gr gc]. apply in_prod_iff in Hx as [Hgr Hgc].
    apply In_range in Hgr, Hgc.
    apply unit_each_once; [apply box_in_square; assumption|].
    intros v Hv.
    apply (feasible_In _ _ _ Hboxes (box_constraint_In gr gc v Hgr Hgc Hv)).
Qed.

End Units.

Lemma clue_constraint_In (n : nat) (g : Grid) (r c : nat) (the_row : list cell)
    (x : cell) (v : Z) :
  r < n -> c < n ->
  nth_error g r = Some the_row -> nth_error the_row c = Some x ->
  not_zero x = true -> convert_to_numeric x = Ok v ->
  In (mkConstraint (prefilled r c) [(r, c, v)]) (clue_constraints n g).
Proof.
  intros Hr Hc Hrow Hx Hnz Hv. unfold clue_constraints.
  apply in_flat_map. exists r. split; [apply In_range, Hr|].
  apply in_flat_map. exists c. split; [apply In_range, Hc|].
  unfold clue_of. rewrite Hrow, Hx, Hnz, Hv. left. reflexivity.
Qed.

Lemma clue_forces (n : nat) (g : Grid) (a : assignment) (r c : nat) (x : cell) :
  feasible (clue_constraints n g) a = true ->
  r < n -> c < n -> clue_good n g r c ->
  get (PInt 0) g r c = x -> x <> PInt 0 ->
  exists v, convert_to_numeric x = Ok v /\ In v (range1 n) /\ a (r, c, v) = 1%Z.
Proof.
  intros Hfeas Hr Hc [the_row [y [Hrow [Hy Hgood]]]] Hget Hnz.
  assert (Hxy : x = y).
  { rewrite <- Hget. unfold get.
    rewrite (nth_error_nth _ _ _ Hrow). apply (nth_error_nth _ _ _ Hy). }
  subst y. apply not_zero_iff in Hnz.
  destruct (Hgood Hnz) as [v [Hv Hb]]. exists v.
  split; [exact Hv|]. split; [apply In_range1, Hb|].
  pose proof (clue_constraint_In n g r c the_row x v Hr Hc Hrow Hy Hnz Hv) as Hin.
  destruct (feasible_In _ _ _ Hfeas Hin) as [_ Hs].
  unfold lp_sum in Hs. simpl in Hs. lia.
Qed.

Lemma problem_of_parts (g : Grid) (diagonal : bool) (a : assignment) :
  feasible (problem_of g diagonal) a = true ->
  feasible (standard_constraints (length g) (Nat.sqrt (length g))) a = true
  /\ feasible (clue_constraints (length g) g) a = true
  /\ (diagonal = true -> feasible (diagonal_constraints (length g)) a = true).
Proof.
  unfold problem_of. rewrite !feasible_app. intros [H1 [H2 H3]].
  repeat split; try assumption. intros ->. exact H3.
Qed.

(** C1, as stated, fails: the clue 10 of a 16x16 puzzle does not come
    back as 10 but as the letter A, although the backend has solved the
    problem. *)
Lemma C1_clue_comes_back_as_letter :
  backend_sound (answers solved16) (ints puzzle16) false = true
  /\ exists sol,
       fst (solver (answers solved16) (ints puzzle16) false) = Ok (Some sol)
       /\ get (PInt 0) (ints puzzle16) 0 9 = PInt 10
       /\ get (PInt 0) sol 0 9 = PStr (py "A")
       /\ get (PInt 0) sol 0 9 <> get (PInt 0) (ints puzzle16) 0 9.
Proof.
  split; [vm_compute; reflexivity|].
  eexists. split; [vm_compute; reflexivity|].
  split; [reflexivity|]. split; [reflexivity|]. discriminate.
Qed.

(** C1, amended: when the backend reports [Optimal] (and its values
    satisfy the problem), [solver] returns a grid of [N] rows of [N] cells
    in which every cell that was pre-filled holds the symbol of its decoded
    value -- the value itself up to 9, the letter [chr(55 + v)] above 9 --
    and every row, every column and every box contains the symbol of each
    value of [1..N] exactly once.  A pre-filled integer up to 9 comes back
    unchanged. *)
Theorem C1_solution_obeys_rules (backend : Backend) (g : Grid) (diagonal : bool) :
  backend_sound backend g diagonal = true ->
  status_of backend g diagonal = Some Optimal ->
  let n := length g in
  let m := Nat.sqrt n in
  exists sol,
    solver backend g diagonal = (Ok (Some sol), [])
    /\ m * m = n
    /\ square n sol = true
    /\ (forall r c x, r < n -> c < n -> get (PInt 0) g r c = x -> x <> PInt 0 ->
          exists v, convert_to_numeric x = Ok v
                    /\ (1 <= v <= Z.of_nat n)%Z
                    /\ get (PInt 0) sol r c = encode v
                    /\ (forall z, x = PInt z -> (z <= 9)%Z -> get (PInt 0) sol r c = x))
    /\ sudoku_rules cell_eqb (PInt 0) (map encode (range1 n)) n m sol = true.
Proof.
  intros Hsound Hstatus n m.
  unfold status_of in Hstatus. unfold backend_sound in Hsound.
  destruct (solver_problem g diagonal) as [[[[[prob rows] cols] values] d]|e] eqn:Hprob;
    [|discriminate].
  pose proof (solver_problem_inv _ _ _ _ _ _ _ Hprob)
    as [Hvalid [Hgood [-> [-> [-> [-> ->]]]]]].
  destruct (backend (problem_of g diagonal)) as [status a] eqn:Hb.
  simpl in Hstatus. inversion Hstatus; subst status. clear Hstatus.
  destruct (extract_solution_ok a (length g)) as [sol [Hex [Hsq Hget]]].
  exists sol. split; [apply (solver_Optimal backend g diagonal a sol); assumption|].
  apply problem_of_parts in Hsound as [Hstd [Hclues _]].
  assert (Hm : m * m = n) by (apply valid_grid_iff in Hvalid; tauto).
  split; [exact Hm|]. split; [exact Hsq|]. split.
  - intros r c x Hr Hc Hx Hnz.
    destruct (clue_forces n g a r c x Hclues Hr Hc (Hgood r c Hr Hc) Hx Hnz)
      as [v [Hv [Hin Hone]]].
    exists v. split; [exact Hv|]. split; [apply In_range1, Hin|].
    assert (Hcells : feasible (cell_constraints n) a = true).
    { apply (standard_parts n m a Hstd). }
    assert (Hcell : get (PInt 0) sol r c = encode v).
    { rewrite (Hget r c Hr Hc). apply (chosen_iff a n Hcells r c v Hr Hc Hin), Hone. }
    split; [exact Hcell|].
    intros z -> Hz. rewrite Hcell. simpl in Hv. inversion Hv; subst v.
    unfold encode. rewrite Z.gtb_ltb, (proj2 (Z.ltb_ge 9 z) Hz). reflexivity.
  - apply (rules_of_feasible n m Hm a sol Hstd Hget).
Qed.

Lemma C1_solution_obeys_rules_witness :
  let n := length (ints puzzle4) in
  let m := Nat.sqrt n in
  exists sol,
    solver (answers solved4) (ints puzzle4) false = (Ok (Some sol), [])
    /\ m * m = n
    /\ square n sol = true
    /\ (forall r c x, r < n -> c < n ->
          get (PInt 0) (ints puzzle4) r c = x -> x <> PInt 0 ->
          exists v, convert_to_numeric x = Ok v
                    /\ (1 <= v <= Z.of_nat n)%Z
                    /\ get (PInt 0) sol r c = encode v
                    /\ (forall z, x = PInt z -> (z <= 9)%Z -> get (PInt 0) sol r c = x))
    /\ sudoku_rules cell_eqb (PInt 0) (map encode (range1 n)) n m sol = true.
Proof.
  apply (C1_solution_obeys_rules (answers solved4) (ints puzzle4) false).
  - vm_compute. reflexivity.
  - vm_compute. reflexivity.
Defined.

(** ** A grid that is already solved *)

Lemma grid_ext {A} (n : nat) (d : A) (s1 s2 : list (list A)) :
  square n s1 = true -> square n s2 = true ->
  (forall r c, r < n -> c < n -> get d s1 r c = get d s2 r c) ->
  s1 = s2.
Proof.
  intros H1 H2 Hget.
  assert (Hr1 : forall r, r < n -> length (nth r s1 []) = n)
    by (intros; apply square_row; assumption).
  assert (Hr2 : forall r, r < n -> length (nth r s2 []) = n)
    by (intros; apply square_row; assumption).
  apply square_iff in H1 as [Hl1 _]. apply square_iff in H2 as [Hl2 _].
  apply (nth_ext s1 s2 [] []); [congruence|].
  intros r Hr. rewrite Hl1 in Hr.
  apply (nth_ext _ _ d d).
  - rewrite Hr1, Hr2 by assumption. reflexivity.
  - intros c Hc. rewrite Hr1 in Hc by assumption.
    apply Hget; assumption.
Qed.

Lemma get_map {A B} (f : A -> B) (d : A) (g : list (list A)) (r c : nat) :
  get (f d) (map (map f) g) r c = f (get d g r c).
Proof.
  unfold get. change (@nil B) with (map f []).
  rewrite (map_nth (map f)). apply map_nth.
Qed.

Lemma square_map {A B} (f : A -> B) (n : nat) (g : list (list A)) :
  square n g = true -> square n (map (map f) g) = true.
Proof.
  rewrite !square_iff. intros [Hl Hrows]. rewrite length_map. split; [exact Hl|].
  intros row Hin. apply in_map_iff in Hin as [row' [<- Hin]].
  rewrite length_map. auto.
Qed.

Lemma valid_square (g : Grid) : valid_grid g = true -> square (length g) g = true.
Proof.
  intros H. apply valid_grid_iff in H as [_ [Hrows _]].
  apply square_iff. auto.
Qed.

Lemma get_In {A} (n : nat) (d : A) (g : list (list A)) (r c : nat) :
  square n g = true -> r < n -> c < n ->
  exists row, nth_error g r = Some row /\ nth_error row c = Some (get d g r c)
              /\ In row g /\ In (get d g r c) row.
Proof.
  intros Hsq Hr Hc. pose proof (square_row n g r Hsq Hr) as Hrow.
  apply square_iff in Hsq as [Hl _]. unfold get.
  exists (nth r g []).
  assert (H1 : nth_error g r = Some (nth r g [])) by (apply nth_error_nth'; lia).
  assert (H2 : nth_error (nth r g []) c = Some (nth c (nth r g []) d))
    by (apply nth_error_nth'; lia).
  repeat split; try assumption.
  - eapply nth_error_In; eassumption.
  - eapply nth_error_In; eassumption.
Qed.

Lemma count_once_NoDup (x : Z) (l : list Z) :
  NoDup l -> In x l -> length (filter (Z.eqb x) l) = 1.
Proof.
  induction l as [|y t IH]; intros Hnd Hin; [contradiction|].
  inversion Hnd as [|? ? Hy Ht]; subst. simpl.
  destruct (Z.eqb_spec x y) as [->|Hne].
  - simpl. f_equal. apply length_zero_iff_nil.
    destruct (filter (Z.eqb y) t) as [|z f] eqn:E; [reflexivity|].
    assert (Hz : In z (filter (Z.eqb y) t)) by (rewrite E; left; reflexivity).
    apply filter_In in Hz as [Hz1 Hz2]. apply Z.eqb_eq in Hz2. subst z. contradiction.
  - destruct Hin as [->|Hin]; [congruence | auto].
Qed.

Lemma NoDup_range1 (n : nat) : NoDup (range1 n).
Proof.
  unfold range1. generalize (seq_NoDup n 1). generalize (seq 1 n) as l.
  induction l as [|x t IH]; intros Hnd; simpl; [constructor|].
  inversion Hnd as [|? ? Hx Ht]; subst. constructor; [|apply IH, Ht].
  intros Hin. apply in_map_iff in Hin as [y [Hy Hin]].
  apply Nat2Z.inj in Hy. subst y. contradiction.
Qed.

Lemma indicator_binary (s : list (list Z)) (v : var) :
  indicator s v = 0%Z \/ indicator s v = 1%Z.
Proof.
  destruct v as [[r c] v]. unfold indicator.
  destruct (get 0%Z s r c =? v)%Z; auto.
Qed.

(** Under the indicator of a grid the sum of a constraint counts the
    cells that hold the value. *)
Lemma lp_sum_indicator (s : list (list Z)) (v : Z) (ps : list (nat * nat)) :
  lp_sum (indicator s) (vars_at v ps) = Z.of_nat (count Z.eqb v (cells_at 0%Z s ps)).
Proof.
  rewrite lp_sum_count by (intros; apply indicator_binary).
  unfold vars_at, count, cells_at. rewrite !filter_map_length. f_equal.
  apply filter_ext_length. intros [r c] _. unfold indicator.
  rewrite (Z.eqb_sym v). destruct (get 0%Z s r c =? v)%Z; reflexivity.
Qed.

Lemma satisfied_indicator (s : list (list Z)) (name : cname) (vars : list var) :
  lp_sum (indicator s) vars = 1%Z ->
  satisfied (indicator s) (mkConstraint name vars) = true.
Proof.
  intros H. unfold satisfied. simpl. rewrite H, Z.eqb_refl, andb_true_r.
  apply forallb_forall. intros v _. apply is_binary_iff, indicator_binary.
Qed.

Section Solved.

Variable g : Grid.
Hypothesis Hsolved : solved g = true.

Let n := length g.
Let m := Nat.sqrt n.

Lemma solved_valid : valid_grid g = true.
Proof. unfold solved in Hsolved. rewrite !andb_true_iff in Hsolved. tauto. Qed.

Lemma solved_cell (r c : nat) :
  r < n -> c < n ->
  convert_to_numeric (get (PInt 0) g r c) = Ok (numeric (get (PInt 0) g r c))
  /\ In (numeric (get (PInt 0) g r c)) (range1 n).
Proof.
  intros Hr Hc.
  destruct (get_In n (PInt 0) g r c (valid_square g solved_valid) Hr Hc)
    as [row [_ [_ [Hrow Hx]]]].
  pose proof solved_valid as Hv. apply valid_grid_iff in Hv as [_ [_ [_ Hcells]]].
  specialize (Hcells row _ Hrow Hx). apply cell_ok_iff in Hcells as [v [Hv Hb]].
  unfold solved in Hsolved. rewrite !andb_true_iff in Hsolved.
  destruct Hsolved as [[_ Hnz] _].
  rewrite forallb_forall in Hnz. specialize (Hnz row Hrow).
  rewrite forallb_forall in Hnz. specialize (Hnz _ Hx).
  apply Z.leb_le in Hnz. unfold numeric in *. rewrite Hv in *.
  split; [reflexivity|]. apply In_range1. fold n in Hb. lia.
Qed.

Lemma solved_clues_good : clues_good g.
Proof.
  intros r c Hr Hc. fold n in Hr, Hc |- *.
  destruct (get_In n (PInt 0) g r c (valid_square g solved_valid) Hr Hc)
    as [row [H1 [H2 _]]].
  exists row, (get (PInt 0) g r c). split; [exact H1|]. split; [exact H2|].
  intros _. destruct (solved_cell r c Hr Hc) as [Hv Hin].
  exists (numeric (get (PInt 0) g r c)). split; [exact Hv|]. apply In_range1, Hin.
Qed.

Lemma solved_get (r c : nat) :
  get 0%Z (numeric_grid g) r c = numeric (get (PInt 0) g r c).
Proof. apply (get_map numeric (PInt 0)). Qed.

Lemma solved_unit (ps : list (nat * nat)) (v : Z) :
  In ps (units n m) -> In v (range1 n) ->
  lp_sum (indicator (numeric_grid g)) (vars_at v ps) = 1%Z.
Proof.
  intros Hps Hv. rewrite lp_sum_indicator.
  unfold solved in Hsolved. rewrite !andb_true_iff in Hsolved.
  destruct Hsolved as [_ Hrules]. unfold sudoku_rules in Hrules.
  rewrite forallb_forall in Hrules. specialize (Hrules ps Hps).
  unfold each_once in Hrules. rewrite forallb_forall in Hrules.
  specialize (Hrules v Hv). apply Nat.eqb_eq in Hrules. rewrite Hrules. reflexivity.
Qed.

Lemma solved_feasible :
  feasible (problem_of g false) (indicator (numeric_grid g)) = true.
Proof.
  unfold problem_of, standard_constraints. fold n. fold m.
  rewrite app_nil_r, !feasible_app.
  repeat split; unfold feasible; apply forallb_forall; intros k Hk.
  - unfold col_constraints in Hk.
    apply in_flat_map in Hk as [c [Hc Hk]]. apply in_flat_map in Hk as [v [Hv Hk]].
    destruct Hk as [<-|[]]. apply satisfied_indicator, solved_unit; [|exact Hv].
    unfold units. apply in_or_app. right. apply in_or_app. left.
    apply in_map. exact Hc.
  - unfold row_constraints in Hk.
    apply in_flat_map in Hk as [r [Hr Hk]]. apply in_flat_map in Hk as [v [Hv Hk]].
    destruct Hk as [<-|[]]. apply satisfied_indicator, solved_unit; [|exact Hv].
    unfold units. apply in_or_app. left. apply in_map. exact Hr.
  - unfold cell_constraints in Hk.
    apply in_flat_map in Hk as [r [Hr Hk]]. apply in_flat_map in Hk as [c [Hc Hk]].
    destruct Hk as [<-|[]]. apply satisfied_indicator.
    apply In_range in Hr, Hc.
    rewrite lp_sum_count by (intros; apply indicator_binary).
    rewrite filter_map_length.
    rewrite (filter_ext_length _ (Z.eqb (numeric (get (PInt 0) g r c)))).
    + rewrite count_once_NoDup; [reflexivity | apply NoDup_range1|].
      apply solved_cell; assumption.
    + intros v _. unfold indicator. rewrite solved_get.
      destruct (numeric (get (PInt 0) g r c) =? v)%Z; reflexivity.
  - unfold box_constraints in Hk.
    apply in_flat_map in Hk as [gr [Hgr Hk]]. apply in_flat_map in Hk as [gc [Hgc Hk]].
    apply in_flat_map in Hk as [v [Hv Hk]].
    destruct Hk as [<-|[]]. apply satisfied_indicator, solved_unit; [|exact Hv].
    unfold units. apply in_or_app. right. apply in_or_app. right.
    apply in_map_iff. exists (gr, gc). split; [reflexivity|].
    apply in_prod; assumption.
  - unfold clue_constraints in Hk.
    apply in_flat_map in Hk as [r [Hr Hk]]. apply in_flat_map in Hk as [c [Hc Hk]].
    apply In_range in Hr, Hc.
    destruct (get_In n (PInt 0) g r c (valid_square g solved_valid) Hr Hc)
      as [row [H1 [H2 _]]].
    destruct (solved_cell r c Hr Hc) as [Hv _].
    unfold clue_of in Hk. rewrite H1, H2, Hv in Hk.
    destruct (not_zero (get (PInt 0) g r c)); [|contradiction].
    destruct Hk as [<-|[]]. apply satisfied_indicator.
    unfold lp_sum, indicator. simpl. rewrite solved_get, Z.eqb_refl. reflexivity.
Qed.

End Solved.

(** C6, as stated, fails for [m = 4]: a solved 16x16 grid of integers does
    not come back equal to itself, since its values above 9 come back as
    letters. *)
Lemma C6_solved_16x16_is_not_returned :
  solved (ints solved16) = true
  /\ backend_sound (answers solved16) (ints solved16) false = true
  /\ backend_complete (answers solved16) (ints solved16) false
  /\ fst (solver (answers solved16) (ints solved16) false)
     <> Ok (Some (ints solved16)).
Proof.
  split; [vm_compute; reflexivity|].
  split; [vm_compute; reflexivity|].
  split; [intros prob rows cols values d a _ _; reflexivity|].
  vm_compute. discriminate.
Qed.

(** C6, amended: a solved valid grid passed to [solver] (with a backend
    that finds a solution when there is one) comes back with every cell
    re-encoded: the value itself up to 9, the letter [chr(55 + v)] above 9.
    The result is the input grid itself when every cell is an integer and
    the side is at most 9, so for the sides 4 and 9; not for the side 16. *)
Theorem C6_solved_grid_comes_back (backend : Backend) (g : Grid) :
  backend_sound backend g false = true ->
  backend_complete backend g false ->
  solved g = true ->
  fst (solver backend g false) = Ok (Some (map (map reencode) g))
  /\ ((forall row x, In row g -> In x row -> exists z, x = PInt z) ->
      length g <= 9 ->
      fst (solver backend g false) = Ok (Some g)).
Proof.
  intros Hsound Hcomplete Hsolved.
  pose proof (solved_valid g Hsolved) as Hvalid.
  pose proof (solved_clues_good g Hsolved) as Hgood.
  pose proof (solver_problem_ok g false Hvalid Hgood) as Hprob.
  pose proof (Hcomplete _ _ _ _ _ _ Hprob (solved_feasible g Hsolved)) as Hopt.
  destruct (backend (problem_of g false)) as [status a] eqn:Hb.
  simpl in Hopt. subst status.
  assert (Hfeas : feasible (problem_of g false) a = true).
  { unfold backend_sound in Hsound. rewrite Hprob, Hb in Hsound. exact Hsound. }
  apply problem_of_parts in Hfeas as [Hstd [Hclues _]].
  destruct (extract_solution_ok a (length g)) as [sol [Hex [Hsq Hget]]].
  assert (Hcells : feasible (cell_constraints (length g)) a = true).
  { apply (standard_parts _ _ a Hstd). }
  assert (Hsol : sol = map (map reencode) g).
  { apply (grid_ext (length g) (PInt 0)); [exact Hsq | |].
    - apply square_map, valid_square, Hvalid.
    - intros r c Hr Hc.
      change (PInt 0) with (reencode (PInt 0)) at 2. rewrite get_map.
      destruct (solved_cell g Hsolved r c Hr Hc) as [Hv Hin].
      destruct (clue_forces (length g) g a r c (get (PInt 0) g r c) Hclues Hr Hc
                  (Hgood r c Hr Hc) eq_refl) as [v [Hv' [_ Hone]]].
      + intros Hz. rewrite Hz in Hin. unfold numeric in Hin. simpl in Hin.
        apply In_range1 in Hin. lia.
      + rewrite (Hget r c Hr Hc). unfold reencode, numeric. rewrite Hv'.
        apply (chosen_iff a (length g) Hcells r c v Hr Hc); [|exact Hone].
        rewrite Hv in Hv'. inversion Hv'. exact Hin. }
  assert (Hrun : fst (solver backend g false) = Ok (Some (map (map reencode) g))).
  { rewrite (solver_Optimal backend g false a sol Hvalid Hgood Hb Hex).
    rewrite Hsol. reflexivity. }
  split; [exact Hrun|].
  intros Hints Hside. rewrite Hrun. do 2 f_equal.
  rewrite <- (map_id g) at 2. apply map_ext_in. intros row Hrow.
  rewrite <- (map_id row) at 2. apply map_ext_in. intros x Hx.
  destruct (Hints row x Hrow Hx) as [z ->].
  apply valid_grid_iff in Hvalid as [_ [_ [_ Hok]]].
  specialize (Hok row (PInt z) Hrow Hx). apply cell_ok_iff in Hok as [v [Hv Hb']].
  simpl in Hv. inversion Hv; subst v.
  unfold reencode, numeric, encode. simpl.
  rewrite Z.gtb_ltb, (proj2 (Z.ltb_ge 9 z)) by lia. reflexivity.
Qed.

Lemma C6_solved_grid_comes_back_witness :
  fst (solver (answers solved4) (ints solved4) false)
  = Ok (Some (map (map reencode) (ints solved4)))
  /\ fst (solver (answers solved4) (ints solved4) false) = Ok (Some (ints solved4)).
Proof.
  destruct (C6_solved_grid_comes_back (answers solved4) (ints solved4)) as [H1 H2].
  - vm_compute. reflexivity.
  - intros prob rows cols values d a _ _. reflexivity.
  - vm_compute. reflexivity.
  - split; [exact H1|]. apply H2.
    + intros row x Hrow Hx. simpl in Hrow.
      repeat (destruct Hrow as [Hrow|Hrow];
              [subst row; simpl in Hx;
               repeat (destruct Hx as [Hx|Hx]; [subst x; eexists; reflexivity|]);
               contradiction|]).
      contradiction.
    + simpl. lia.
Defined.

(** ** No solution *)

Lemma filter_two {A} (p : A -> bool) (l : list A) (x y : A) :
  NoDup l -> In x l -> In y l -> x <> y -> p x = true -> p y = true ->
  2 <= length (filter p l).
Proof.
  intros Hnd Hx Hy Hne Hpx Hpy.
  assert (Hfx : In x (filter p l)) by (apply filter_In; auto).
  assert (Hfy : In y (filter p l)) by (apply filter_In; auto).
  destruct (filter p l) as [|u [|w t]]; [contradiction | | simpl; lia].
  destruct Hfx as [Hu|[]], Hfy as [Hu'|[]]. congruence.
Qed.

Lemma solver_result (backend : Backend) (g : Grid) (diagonal : bool) :
  (exists sol, fst (solver backend g diagonal) = Ok (Some sol))
  \/ fst (solver backend g diagonal) = Ok None.
Proof.
  unfold solver. pose proof (handled_solver_try backend g diagonal) as H.
  destruct (solver_try backend g diagonal) as [sol|e].
  - left. exists sol. reflexivity.
  - right. simpl in H. rewrite H. reflexivity.
Qed.

(** C4: when the backend's status is not [Optimal] (or the backend is not
    reached at all), [solver] returns [None]; and a grid with the same
    pre-filled value twice in a row yields [None], whatever a backend whose
    [Optimal] answers satisfy the problem reports. *)
Theorem C4_no_solution_is_None (backend : Backend) (g : Grid) (diagonal : bool) :
  (status_of backend g diagonal <> Some Optimal ->
   fst (solver backend g diagonal) = Ok None)
  /\ (backend_sound backend g diagonal = true ->
      (exists r row c1 c2 x,
          nth_error g r = Some row /\ nth_error row c1 = Some x
          /\ nth_error row c2 = Some x /\ c1 <> c2 /\ x <> PInt 0) ->
      fst (solver backend g diagonal) = Ok None).
Proof.
  split.
  - intros Hstatus.
    destruct (solver_result backend g diagonal) as [[sol Hsol]|Hnone]; [|exact Hnone].
    exfalso. apply Hstatus.
    apply solver_Some_inv in Hsol as [Hprob [_ [_ [a [Hb _]]]]].
    unfold status_of. rewrite Hprob, Hb. reflexivity.
  - intros Hsound [r [row [c1 [c2 [x [Hrow [Hx1 [Hx2 [Hne Hnz]]]]]]]]].
    destruct (solver_result backend g diagonal) as [[sol Hsol]|Hnone]; [|exact Hnone].
    exfalso.
    pose proof (sound_feasible _ _ _ _ Hsound Hsol) as Hfeas.
    apply solver_Some_inv in Hsol as [_ [Hvalid [Hgood [a [Hb _]]]]].
    rewrite Hb in Hfeas. simpl in Hfeas.
    apply problem_of_parts in Hfeas as [Hstd [Hclues _]].
    set (n := length g) in *.
    assert (Hr : r < n) by (apply nth_error_Some; congruence).
    assert (Hlen : length row = n).
    { apply valid_grid_iff in Hvalid as [_ [Hrows _]].
      apply Hrows. eapply nth_error_In; eassumption. }
    assert (Hc1 : c1 < n) by (rewrite <- Hlen; apply nth_error_Some; congruence).
    assert (Hc2 : c2 < n) by (rewrite <- Hlen; apply nth_error_Some; congruence).
    assert (Hg1 : get (PInt 0) g r c1 = x).
    { unfold get. rewrite (nth_error_nth _ _ _ Hrow). apply nth_error_nth, Hx1. }
    assert (Hg2 : get (PInt 0) g r c2 = x).
    { unfold get. rewrite (nth_error_nth _ _ _ Hrow). apply nth_error_nth, Hx2. }
    destruct (clue_forces n g a r c1 x Hclues Hr Hc1 (Hgood r c1 Hr Hc1) Hg1 Hnz)
      as [v [Hv [Hin H1]]].
    destruct (clue_forces n g a r c2 x Hclues Hr Hc2 (Hgood r c2 Hr Hc2) Hg2 Hnz)
      as [v' [Hv' [_ H2]]].
    assert (v' = v) by congruence. subst v'.
    destruct (standard_parts n _ a Hstd) as [_ [Hrows [Hcells _]]].
    destruct (feasible_In _ _ _ Hrows (row_constraint_In n r v Hr Hin)) as [Hbin Hsum].
    rewrite lp_sum_count in Hsum by exact Hbin. simpl in Hsum.
    unfold vars_at, row_cells in Hsum. rewrite map_map, filter_map_length in Hsum.
    pose proof (filter_two (fun c => (a (r, c, v) =? 1)%Z) (range n) c1 c2
                  (seq_NoDup n 0) (proj2 (In_range c1 n) Hc1)
                  (proj2 (In_range c2 n) Hc2) Hne
                  (proj2 (Z.eqb_eq _ _) H1) (proj2 (Z.eqb_eq _ _) H2)) as Htwo.
    lia.
Qed.

Lemma C4_no_solution_is_None_witness :
  fst (solver (reports Unbounded) (ints puzzle4) false) = Ok None
  /\ fst (solver (reports Infeasible) (ints twice_in_row) false) = Ok None.
Proof.
  split.
  - apply (proj1 (C4_no_solution_is_None (reports Unbounded) (ints puzzle4) false)).
    vm_compute. discriminate.
  - apply (proj2 (C4_no_solution_is_None (reports Infeasible) (ints twice_in_row) false)).
    + vm_compute. reflexivity.
    + exists 0, [PInt 1; PInt 1; PInt 0; PInt 0], 0, 1, (PInt 1).
      repeat split; try reflexivity; [lia | discriminate].
Defined.

(** ** The diagonal variant *)

Lemma flat_map_single {A B} (f : A -> B) (l : list A) :
  flat_map (fun x => [f x]) l = map f l.
Proof. induction l as [|x t IH]; simpl; [reflexivity | rewrite IH; reflexivity]. Qed.

Lemma no_diagonal_in_base (g : Grid) (c : LpConstraint) :
  In c (problem_of g false) -> is_diagonal_name (c_name c) = false.
Proof.
  unfold problem_of, standard_constraints. rewrite app_nil_r. intros H.
  repeat (apply in_app_or in H as [H|H]).
  - unfold col_constraints in H.
    apply in_flat_map in H as [x [_ H]]. apply in_flat_map in H as [v [_ H]].
    destruct H as [<-|[]]. reflexivity.
  - unfold row_constraints in H.
    apply in_flat_map in H as [x [_ H]]. apply in_flat_map in H as [v [_ H]].
    destruct H as [<-|[]]. reflexivity.
  - unfold cell_constraints in H.
    apply in_flat_map in H as [x [_ H]]. apply in_flat_map in H as [v [_ H]].
    destruct H as [<-|[]]. reflexivity.
  - unfold box_constraints in H.
    apply in_flat_map in H as [x [_ H]]. apply in_flat_map in H as [y [_ H]].
    apply in_flat_map in H as [v [_ H]].
    destruct H as [<-|[]]. reflexivity.
  - unfold clue_constraints in H.
    apply in_flat_map in H as [x [_ H]]. apply in_flat_map in H as [y [_ H]].
    unfold clue_of in H.
    destruct (nth_error g x) as [row|]; [|contradiction].
    destruct (nth_error row y) as [z|]; [|contradiction].
    destruct (not_zero z); [|contradiction].
    destruct (convert_to_numeric z); [|contradiction].
    destruct H as [<-|[]]. reflexivity.
Qed.

(** C5, as stated, fails for the side 16: the solution returned with the
    flag for [puzzle16x] obeys the rule of the diagonals, but the value 10
    is on neither diagonal; each holds the letter A once instead, and so
    for every value above 9. *)
Lemma C5_value_10_is_on_no_diagonal :
  legal true 16 solved16x = true
  /\ backend_sound (answers solved16x) (ints puzzle16x) true = true
  /\ exists sol,
       fst (solver (answers solved16x) (ints puzzle16x) true) = Ok (Some sol)
       /\ count cell_eqb (PInt 10) (cells_at (PInt 0) sol (diag1_cells 16)) = 0
       /\ count cell_eqb (PInt 10) (cells_at (PInt 0) sol (diag2_cells 16)) = 0
       /\ count cell_eqb (PStr (py "A")) (cells_at (PInt 0) sol (diag1_cells 16)) = 1
       /\ count cell_eqb (PStr (py "A")) (cells_at (PInt 0) sol (diag2_cells 16)) = 1
       /\ each_once cell_eqb (PInt 0) (map PInt (range1 16)) sol (diag1_cells 16)
          = false
       /\ each_once cell_eqb (PInt 0) (map PInt (range1 16)) sol (diag2_cells 16)
          = false.
Proof.
  split; [vm_compute; reflexivity|].
  split; [vm_compute; reflexivity|].
  eexists. split; [vm_compute; reflexivity|].
  repeat split; vm_compute; reflexivity.
Qed.

(** C5, amended: the problem built with the diagonal flag is the problem
    built without it followed by [2 * N] constraints: for every value of
    [1..N], in this order, one on the [N] cells with [row = col] and then,
    again for every value, one on the [N] cells with [row + col = N - 1];
    without the flag the problem has no diagonal constraint.  A solution
    returned with the flag has the symbol of every value exactly once on
    each diagonal and obeys the rules for rows, columns and boxes; the
    symbol of a value is the value itself up to 9, so the symbols are the
    values [1..N] when [N <= 9], and the letter [chr(55 + v)] above 9. *)
Theorem C5_diagonal_constraints (backend : Backend) (g : Grid) :
  let n := length g in
  (forall prob rows cols values d,
      solver_problem g false = Ok (prob, rows, cols, values, d) ->
      solver_problem g true
      = Ok (prob
            ++ map (fun v => mkConstraint (diagonal1_value v) (vars_at v (diag1_cells n)))
                 (range1 n)
            ++ map (fun v => mkConstraint (diagonal2_value v) (vars_at v (diag2_cells n)))
                 (range1 n),
            rows, cols, values, d)
      /\ forall c, In c prob -> is_diagonal_name (c_name c) = false)
  /\ (forall r c, In (r, c) (diag1_cells n) <-> r < n /\ r = c)
  /\ (forall r c, In (r, c) (diag2_cells n) <-> r < n /\ c < n /\ r + c = n - 1)
  /\ (forall sol,
        backend_sound backend g true = true ->
        fst (solver backend g true) = Ok (Some sol) ->
        each_once cell_eqb (PInt 0) (map encode (range1 n)) sol (diag1_cells n) = true
        /\ each_once cell_eqb (PInt 0) (map encode (range1 n)) sol (diag2_cells n) = true
        /\ sudoku_rules cell_eqb (PInt 0) (map encode (range1 n)) n (Nat.sqrt n) sol
           = true)
  /\ (n <= 9 -> map encode (range1 n) = map PInt (range1 n))
  /\ (forall v, In v (range1 n) -> (9 < v)%Z -> encode v = PStr (chr (55 + v))).
Proof.
  intros n. split; [|split; [|split; [|split; [|split]]]].
  5:{ intros Hn. apply map_ext_in. intros v Hv. apply In_range1 in Hv.
      unfold encode. rewrite Z.gtb_ltb.
      destruct (9 <? v)%Z eqn:E; [apply Z.ltb_lt in E; lia | reflexivity]. }
  5:{ intros v _ Hv. unfold encode. rewrite Z.gtb_ltb.
      apply Z.ltb_lt in Hv. rewrite Hv. reflexivity. }
  - intros prob rows cols values d Hprob.
    apply solver_problem_inv in Hprob as [Hvalid [Hgood [-> [-> [-> [-> ->]]]]]].
    split.
    + rewrite (solver_problem_ok g true Hvalid Hgood). do 5 f_equal.
      unfold problem_of, diagonal_constraints. fold n.
      rewrite !flat_map_single, app_nil_r, <- !app_assoc. reflexivity.
    + apply no_diagonal_in_base.
  - intros r c. unfold diag1_cells. rewrite in_map_iff. split.
    + intros [i [Hi Hin]]. inversion Hi; subst. apply In_range in Hin. auto.
    + intros [Hr <-]. exists r. split; [reflexivity | apply In_range, Hr].
  - intros r c. unfold diag2_cells. rewrite in_map_iff. split.
    + intros [i [Hi Hin]]. inversion Hi; subst. apply In_range in Hin. lia.
    + intros [Hr [Hc Hs]]. exists r. split; [f_equal; lia | apply In_range, Hr].
  - intros sol Hsound Hsol.
    pose proof (sound_feasible _ _ _ _ Hsound Hsol) as Hfeas.
    apply solver_Some_inv in Hsol as [_ [Hvalid [Hgood [a [Hb [Hsq Hget]]]]]].
    rewrite Hb in Hfeas. simpl in Hfeas.
    apply problem_of_parts in Hfeas as [Hstd [_ Hdiag]].
    specialize (Hdiag eq_refl). fold n in Hstd, Hdiag, Hget.
    assert (Hm : Nat.sqrt n * Nat.sqrt n = n) by (apply valid_grid_iff in Hvalid; tauto).
    split; [|split].
    + apply (unit_each_once n (Nat.sqrt n) a sol Hstd Hget); [apply (diag1_in_square n _ Hm)|].
      intros v Hv.
      apply (feasible_In _ _ _ Hdiag (proj1 (diagonal_constraint_In n v Hv))).
    + apply (unit_each_once n (Nat.sqrt n) a sol Hstd Hget); [apply (diag2_in_square n _ Hm)|].
      intros v Hv.
      apply (feasible_In _ _ _ Hdiag (proj2 (diagonal_constraint_In n v Hv))).
    + apply (rules_of_feasible n (Nat.sqrt n) Hm a sol Hstd Hget).
Qed.

Lemma C5_diagonal_constraints_witness :
  let sol := ints solved4x in
  each_once cell_eqb (PInt 0) (map encode (range1 4)) sol (diag1_cells 4) = true
  /\ each_once cell_eqb (PInt 0) (map encode (range1 4)) sol (diag2_cells 4) = true
  /\ sudoku_rules cell_eqb (PInt 0) (map encode (range1 4)) 4 2 sol = true.
Proof.
  apply (C5_diagonal_constraints (answers solved4x) (ints puzzle4x)).
  - vm_compute. reflexivity.
  - vm_compute. reflexivity.
Defined.

(** ** The batch reader after a bad puzzle *)

(** C8 does not hold of the code.  After the error in the first puzzle of
    [batch_short_row] the reader does not skip the rest of that puzzle: it
    reads its next row as the header of the second puzzle, reports a second
    error and returns no puzzle at all, although the second puzzle is read
    and solved when it stands alone.  In [batch_two_letters] the symbol AB
    raises a [TypeError], which no handler of the reader catches: the
    exception leaves [main] and nothing is written. *)
Theorem C8_bad_puzzle_breaks_the_batch :
  read_sudokus_from_file (Ok batch_short_row)
  = (Ok ([], []),
     [PrintErrorReading 1 (mkExc ValueError (FileRowInvalidLength 1 1));
      PrintErrorReading 2 (mkExc ValueError (TooManyValuesToUnpack 2))])
  /\ fst (main (answers solved4) (Ok batch_short_row) (Ok tt)) = Ok ([], [])
  /\ read_sudokus_from_file (Ok batch_second_alone) = (Ok ([puzzle4], [false]), [])
  /\ (exists text,
        fst (main (answers solved4) (Ok batch_second_alone) (Ok tt))
        = Ok ([Some (ints solved4)], text))
  /\ read_sudokus_from_file (Ok batch_two_letters)
     = (Raise (mkExc TypeError (OrdExpectedCharacter 2)), [])
  /\ (forall output_file,
        main (answers solved4) (Ok batch_two_letters) output_file
        = (Raise (mkExc TypeError (OrdExpectedCharacter 2)), [])).
Proof.
  split; [vm_compute; reflexivity|].
  split; [vm_compute; reflexivity|].
  split; [vm_compute; reflexivity|].
  split; [eexists; vm_compute; reflexivity|].
  split; [vm_compute; reflexivity|].
  intros output_file. vm_compute. reflexivity.
Qed.

(** * Further properties of the module *)

(** ** Letters in [convert_to_numeric] *)

Lemma length_upper (s : pystr) : length (upper s) = length s.
Proof. unfold upper. apply length_map. Qed.

Lemma upper_letter (c : Z) :
  is_alpha_cp c = true -> (65 <= upper_cp c <= 90)%Z.
Proof.
  unfold is_alpha_cp, upper_cp, is_upper_cp. intros H.
  destruct (is_lower_cp c) eqn:Hl.
  - unfold is_lower_cp in Hl. apply andb_true_iff in Hl as [H1 H2].
    apply Z.leb_le in H1, H2. lia.
  - rewrite orb_false_r in H. apply andb_true_iff in H as [H1 H2].
    apply Z.leb_le in H1, H2. lia.
Qed.

(** X1: on a string of ASCII letters ([A] to [Z], [a] to [z]),
    [convert_to_numeric] decodes a single letter, whatever its case, to the
    value of [10..35] that is its position in the alphabet plus 9, and raises
    [TypeError], not [ValueError], when the string has two letters or more. *)
Theorem X1_convert_letters (s : pystr) :
  ascii s = true ->
  isalpha s = true ->
  (forall c, s = [c] ->
     convert_to_numeric (PStr s) = Ok (upper_cp c - 55)%Z
     /\ (10 <= upper_cp c - 55 <= 35)%Z
     /\ convert_to_numeric (PStr [upper_cp c]) = Ok (upper_cp c - 55)%Z)
  /\ (length s <> 1 ->
      convert_to_numeric (PStr s)
      = Raise (mkExc TypeError (OrdExpectedCharacter (length s)))).
Proof.
  intros _ Halpha. split.
  - intros c ->. unfold convert_to_numeric. rewrite Halpha.
    unfold isalpha in Halpha. simpl in Halpha. rewrite andb_true_r in Halpha.
    pose proof (upper_letter c Halpha) as Hu.
    split; [reflexivity|]. split; [lia|].
    assert (Hup : is_upper_cp (upper_cp c) = true).
    { unfold is_upper_cp. apply andb_true_iff; split; apply Z.leb_le; lia. }
    assert (Hlo : is_lower_cp (upper_cp c) = false).
    { unfold is_lower_cp. apply andb_false_iff; left. apply Z.leb_gt; lia. }
    unfold isalpha. simpl. unfold is_alpha_cp. rewrite Hup. simpl.
    unfold upper_cp at 1. rewrite Hlo. reflexivity.
  - intros Hlen. unfold convert_to_numeric. rewrite Halpha.
    unfold ord. rewrite <- (length_upper s) in Hlen |- *.
    destruct (upper s) as [|c [|c' t]]; simpl in *; try reflexivity. lia.
Qed.

Lemma X1_convert_letters_witness :
  convert_to_numeric (PStr (py "g")) = Ok 16%Z
  /\ convert_to_numeric (PStr (py "AB"))
     = Raise (mkExc TypeError (OrdExpectedCharacter 2)).
Proof.
  split.
  - apply (proj1 (X1_convert_letters (py "g") eq_refl eq_refl) 103%Z eq_refl).
  - apply (proj2 (X1_convert_letters (py "AB") eq_refl eq_refl)). simpl. lia.
Defined.

(** ** The exceptions of the validator *)

Lemma ord_upper_long (s : pystr) :
  length s <> 1 ->
  ord (upper s) = Raise (mkExc TypeError (OrdExpectedCharacter (length s))).
Proof.
  intros Hlen. unfold ord. rewrite <- (length_upper s) in Hlen |- *.
  destruct (upper s) as [|c [|c' t]]; simpl in *; try reflexivity. lia.
Qed.






(** ** The names of the constraints *)

Lemma map_flat_map {A B C} (g : B -> C) (f : A -> list B) (l : list A) :
  map g (flat_map f l) = flat_map (fun x => map g (f x)) l.
Proof.
  induction l as [|x t IH]; simpl; [reflexivity|].
  rewrite map_app, IH. reflexivity.
Qed.

Lemma NoDup_map_inj {A B} (f : A -> B) (l : list A) :
  (forall x y, f x = f y -> x = y) -> NoDup l -> NoDup (map f l).
Proof.
  intros Hinj Hnd. induction Hnd as [|x t Hx Ht IH]; simpl; constructor; [|exact IH].
  intros Hin. apply in_map_iff in Hin as [y [Hy Hin]].
  apply Hinj in Hy. subst y. contradiction.
Qed.

(** The lists [f x] are disjoint when every element tells the [x] it
    comes from. *)
Lemma NoDup_flat_map_key {A B} (f : A -> list B) (key : B -> A) (l : list A) :
  NoDup l ->
  (forall x, In x l -> NoDup (f x)) ->
  (forall x b, In x l -> In b (f x) -> key b = x) ->
  NoDup (flat_map f l).
Proof.
  intros Hnd. induction Hnd as [|x t Hx Ht IH]; intros Hf Hkey; simpl; [constructor|].
  apply NoDup_app.
  - apply Hf. left. reflexivity.
  - apply IH; intros; [apply Hf | apply Hkey]; auto; right; assumption.
  - intros b Hb Hb'. apply in_flat_map in Hb' as [y [Hy Hby]].
    assert (key b = x) by (apply Hkey; auto; left; reflexivity).
    assert (key b = y) by (apply Hkey; auto; right; assumption).
    congruence.
Qed.

Lemma names_col (n : nat) :
  NoDup (names (col_constraints n))
  /\ forall name, In name (names (col_constraints n)) -> name_family name = 0.
Proof.
  unfold names, col_constraints. rewrite map_flat_map. split.
  - apply NoDup_flat_map_key with (key := name_first); [apply seq_NoDup| |].
    + intros col _. rewrite map_flat_map. simpl. rewrite flat_map_single.
      apply NoDup_map_inj; [|apply NoDup_range1]. intros x y H. congruence.
    + intros col b _ Hb. rewrite map_flat_map in Hb. simpl in Hb.
      rewrite flat_map_single in Hb. apply in_map_iff in Hb as [v [<- _]]. reflexivity.
  - intros name H. apply in_flat_map in H as [col [_ H]].
    rewrite map_flat_map in H. simpl in H. rewrite flat_map_single in H.
    apply in_map_iff in H as [v [<- _]]. reflexivity.
Qed.

Lemma names_row (n : nat) :
  NoDup (names (row_constraints n))
  /\ forall name, In name (names (row_constraints n)) -> name_family name = 1.
Proof.
  unfold names, row_constraints. rewrite map_flat_map. split.
  - apply NoDup_flat_map_key with (key := name_first); [apply seq_NoDup| |].
    + intros row _. rewrite map_flat_map. simpl. rewrite flat_map_single.
      apply NoDup_map_inj; [|apply NoDup_range1]. intros x y H. congruence.
    + intros row b _ Hb. rewrite map_flat_map in Hb. simpl in Hb.
      rewrite flat_map_single in Hb. apply in_map_iff in Hb as [v [<- _]]. reflexivity.
  - intros name H. apply in_flat_map in H as [row [_ H]].
    rewrite map_flat_map in H. simpl in H. rewrite flat_map_single in H.
    apply in_map_iff in H as [v [<- _]]. reflexivity.
Qed.

Lemma names_cell (n : nat) :
  NoDup (names (cell_constraints n))
  /\ forall name, In name (names (cell_constraints n)) -> name_family name = 2.
Proof.
  unfold names, cell_constraints. rewrite map_flat_map. split.
  - apply NoDup_flat_map_key with (key := name_first); [apply seq_NoDup| |].
    + intros row _. rewrite map_flat_map. simpl. rewrite flat_map_single.
      apply NoDup_map_inj; [|apply seq_NoDup]. intros x y H. congruence.
    + intros row b _ Hb. rewrite map_flat_map in Hb. simpl in Hb.
      rewrite flat_map_single in Hb. apply in_map_iff in Hb as [v [<- _]]. reflexivity.
  - intros name H. apply in_flat_map in H as [row [_ H]].
    rewrite map_flat_map in H. simpl in H. rewrite flat_map_single in H.
    apply in_map_iff in H as [v [<- _]]. reflexivity.
Qed.

Lemma names_box (n m : nat) :
  NoDup (names (box_constraints n m))
  /\ forall name, In name (names (box_constraints n m)) -> name_family name = 3.
Proof.
  unfold names, box_constraints. rewrite map_flat_map. split.
  - apply NoDup_flat_map_key with (key := name_first); [apply seq_NoDup| |].
    + intros gr _. rewrite map_flat_map.
      apply NoDup_flat_map_key with (key := name_second); [apply seq_NoDup| |].
      * intros gc _. rewrite map_flat_map. simpl. rewrite flat_map_single.
        apply NoDup_map_inj; [|apply NoDup_range1]. intros x y H. congruence.
      * intros gc b _ Hb. rewrite map_flat_map in Hb. simpl in Hb.
        rewrite flat_map_single in Hb. apply in_map_iff in Hb as [v [<- _]].
        reflexivity.
    + intros gr b _ Hb. rewrite map_flat_map in Hb.
      apply in_flat_map in Hb as [gc [_ Hb]].
      rewrite map_flat_map in Hb. simpl in Hb.
      rewrite flat_map_single in Hb. apply in_map_iff in Hb as [v [<- _]]. reflexivity.
  - intros name H. apply in_flat_map in H as [gr [_ H]].
    rewrite map_flat_map in H. apply in_flat_map in H as [gc [_ H]].
    rewrite map_flat_map in H. simpl in H. rewrite flat_map_single in H.
    apply in_map_iff in H as [v [<- _]]. reflexivity.
Qed.

Lemma clue_of_names (g : Grid) (row col : nat) :
  names (clue_of g row col) = [] \/ names (clue_of g row col) = [prefilled row col].
Proof.
  unfold clue_of.
  destruct (nth_error g row) as [the_row|]; [|left; reflexivity].
  destruct (nth_error the_row col) as [c|]; [|left; reflexivity].
  destruct (not_zero c); [|left; reflexivity].
  destruct (convert_to_numeric c); [right | left]; reflexivity.
Qed.

Lemma names_clue (n : nat) (g : Grid) :
  NoDup (names (clue_constraints n g))
  /\ forall name, In name (names (clue_constraints n g)) -> name_family name = 4.
Proof.
  unfold names at 1 2, clue_constraints. rewrite map_flat_map. split.
  - apply NoDup_flat_map_key with (key := name_first); [apply seq_NoDup| |].
    + intros row _. rewrite map_flat_map.
      apply NoDup_flat_map_key with (key := name_second); [apply seq_NoDup| |].
      * intros col _. fold (names (clue_of g row col)).
        destruct (clue_of_names g row col) as [->| ->]; repeat constructor.
        intros [].
      * intros col b _ Hb. fold (names (clue_of g row col)) in Hb.
        destruct (clue_of_names g row col) as [H|H]; rewrite H in Hb;
          [contradiction|]. destruct Hb as [<-|[]]. reflexivity.
    + intros row b _ Hb. rewrite map_flat_map in Hb.
      apply in_flat_map in Hb as [col [_ Hb]].
      fold (names (clue_of g row col)) in Hb.
      destruct (clue_of_names g row col) as [H|H]; rewrite H in Hb;
        [contradiction|]. destruct Hb as [<-|[]]. reflexivity.
  - intros name H. apply in_flat_map in H as [row [_ H]].
    rewrite map_flat_map in H. apply in_flat_map in H as [col [_ H]].
    fold (names (clue_of g row col)) in H.
    destruct (clue_of_names g row col) as [H'|H']; rewrite H' in H;
      [contradiction|]. destruct H as [<-|[]]. reflexivity.
Qed.

Lemma names_diagonal (n : nat) :
  NoDup (names (diagonal_constraints n))
  /\ forall name, In name (names (diagonal_constraints n)) ->
                  name_family name = 5 \/ name_family name = 6.
Proof.
  unfold names, diagonal_constraints. rewrite map_app, !map_flat_map. simpl.
  rewrite !flat_map_single. split.
  - apply NoDup_app.
    + apply NoDup_map_inj; [|apply NoDup_range1]. intros x y H. congruence.
    + apply NoDup_map_inj; [|apply NoDup_range1]. intros x y H. congruence.
    + intros name H1 H2. apply in_map_iff in H1 as [v [<- _]].
      apply in_map_iff in H2 as [w [Hw _]]. discriminate.
  - intros name H. apply in_app_or in H as [H|H];
      apply in_map_iff in H as [v [<- _]]; auto.
Qed.

Ltac name_families :=
  repeat match goal with
    | H : In _ (_ ++ _) |- _ => apply in_app_or in H as [H|H]
    | H : In _ (map c_name (col_constraints _)) |- _ =>
        apply (proj2 (names_col _)) in H
    | H : In _ (map c_name (row_constraints _)) |- _ =>
        apply (proj2 (names_row _)) in H
    | H : In _ (map c_name (cell_constraints _)) |- _ =>
        apply (proj2 (names_cell _)) in H
    | H : In _ (map c_name (box_constraints _ _)) |- _ =>
        apply (proj2 (names_box _ _)) in H
    | H : In _ (map c_name (clue_constraints _ _)) |- _ =>
        apply (proj2 (names_clue _ _)) in H
    | H : In _ (map c_name (diagonal_constraints _)) |- _ =>
        apply (proj2 (names_diagonal _)) in H as [H|H]
    end.

Lemma names_problem_of (g : Grid) (diagonal : bool) :
  NoDup (names (problem_of g diagonal)).
Proof.
  unfold problem_of, standard_constraints, names. rewrite !map_app.
  pose proof (proj1 (names_col (length g))) as N0.
  pose proof (proj1 (names_row (length g))) as N1.
  pose proof (proj1 (names_cell (length g))) as N2.
  pose proof (proj1 (names_box (length g) (Nat.sqrt (length g)))) as N3.
  pose proof (proj1 (names_clue (length g) g)) as N4.
  pose proof (proj1 (names_diagonal (length g))) as N5.
  unfold names in N0, N1, N2, N3, N4, N5.
  destruct diagonal; simpl;
    repeat (apply NoDup_app; try assumption; try constructor);
    intros name Hin Hin'; name_families; try contradiction; congruence.
Qed.

(** X3: the constraints of the problem that [solver] hands to the backend
    have pairwise distinct names, so that no [addConstraint] replaces a
    constraint added before under the same name. *)
Theorem X3_constraint_names_distinct (g : Grid) (diagonal : bool) (prob : LpProblem)
    (rows cols : list nat) (values : list Z) (d : VarDict) :
  solver_problem g diagonal = Ok (prob, rows, cols, values, d) ->
  NoDup (names prob).
Proof.
  intros H. apply solver_problem_inv in H as [_ [_ [-> _]]].
  apply names_problem_of.
Qed.

Lemma X3_constraint_names_distinct_witness :
  NoDup (names (problem_of (ints puzzle4x) true)).
Proof.
  apply (X3_constraint_names_distinct (ints puzzle4x) true _
           (range 4) (range 4) (range1 4)
           (mkVarDict (range 4) (range 4) (range1 4))).
  vm_compute. reflexivity.
Defined.

(** ** The size and the shape of the problem *)

Lemma length_flat_map_seq {A B} (f : nat -> list B) (h : A -> nat) (d : A)
    (l : list A) (s : nat) :
  (forall i, i < length l -> length (f (s + i)) = h (nth i l d)) ->
  length (flat_map f (seq s (length l))) = list_sum (map h l).
Proof.
  revert s. induction l as [|x t IH]; intros s H; simpl; [reflexivity|].
  rewrite length_app. f_equal.
  - specialize (H 0 (Nat.lt_0_succ _)). rewrite Nat.add_0_r in H. exact H.
  - apply IH. intros i Hi. rewrite Nat.add_succ_comm. apply (H (S i)). simpl. lia.
Qed.

Lemma list_sum_filter {A} (p : A -> bool) (l : list A) :
  list_sum (map (fun x => if p x then 1 else 0) l) = length (filter p l).
Proof.
  induction l as [|x t IH]; simpl; [reflexivity|].
  destruct (p x); simpl; rewrite IH; reflexivity.
Qed.

Lemma list_sum_filter_concat {A} (p : A -> bool) (ll : list (list A)) :
  list_sum (map (fun l => length (filter p l)) ll) = length (filter p (concat ll)).
Proof.
  induction ll as [|l t IH]; simpl; [reflexivity|].
  rewrite filter_app, length_app, IH. reflexivity.
Qed.

Lemma length_clue_of (g : Grid) (r c : nat) :
  valid_grid g = true -> clues_good g -> r < length g -> c < length g ->
  length (clue_of g r c) = if not_zero (get (PInt 0) g r c) then 1 else 0.
Proof.
  intros Hvalid Hgood Hr Hc.
  destruct (Hgood r c Hr Hc) as [row [x [Hrow [Hx Hclue]]]].
  assert (Hget : get (PInt 0) g r c = x).
  { unfold get. rewrite (nth_error_nth _ _ _ Hrow). apply nth_error_nth, Hx. }
  rewrite Hget. unfold clue_of. rewrite Hrow, Hx.
  destruct (not_zero x); [|reflexivity].
  destruct (Hclue eq_refl) as [v [-> _]]. reflexivity.
Qed.

Lemma length_clue_constraints (g : Grid) :
  valid_grid g = true -> clues_good g ->
  length (clue_constraints (length g) g) = clue_count g.
Proof.
  intros Hvalid Hgood. unfold clue_constraints, clue_count, range.
  rewrite <- list_sum_filter_concat.
  apply (length_flat_map_seq _ _ []). intros r Hr. simpl.
  assert (Hlen : length (nth r g []) = length g).
  { apply square_row; [apply valid_square, Hvalid | exact Hr]. }
  rewrite <- list_sum_filter, <- Hlen at 1.
  apply (length_flat_map_seq _ _ (PInt 0)). intros c Hc. simpl.
  rewrite Hlen in Hc. apply length_clue_of; assumption.
Qed.

Lemma length_standard (n m : nat) :
  m * m = n -> length (standard_constraints n m) = 4 * n * n.
Proof.
  intros Hm.
  assert (Hr : length (range n) = n) by (unfold range; apply length_seq).
  assert (Hm' : length (range m) = m) by (unfold range; apply length_seq).
  assert (Hv : length (range1 n) = n)
    by (unfold range1; rewrite length_map; apply length_seq).
  assert (Hcol : length (col_constraints n) = n * n).
  { unfold col_constraints. rewrite flat_map_constant_length with (c := n).
    - rewrite Hr. reflexivity.
    - intros x _. rewrite flat_map_single, length_map. exact Hv. }
  assert (Hrow : length (row_constraints n) = n * n).
  { unfold row_constraints. rewrite flat_map_constant_length with (c := n).
    - rewrite Hr. reflexivity.
    - intros x _. rewrite flat_map_single, length_map. exact Hv. }
  assert (Hcell : length (cell_constraints n) = n * n).
  { unfold cell_constraints. rewrite flat_map_constant_length with (c := n).
    - rewrite Hr. reflexivity.
    - intros x _. rewrite flat_map_single, length_map. exact Hr. }
  assert (Hbox : length (box_constraints n m) = m * (m * n)).
  { unfold box_constraints. rewrite flat_map_constant_length with (c := m * n).
    - rewrite Hm'. reflexivity.
    - intros x _. rewrite flat_map_constant_length with (c := n).
      + rewrite Hm'. reflexivity.
      + intros y _. rewrite flat_map_single, length_map. exact Hv. }
  unfold standard_constraints. rewrite !length_app, Hcol, Hrow, Hcell, Hbox. nia.
Qed.

Lemma length_diagonal (n : nat) : length (diagonal_constraints n) = 2 * n.
Proof.
  unfold diagonal_constraints. rewrite length_app, !flat_map_single, !length_map.
  unfold range1. rewrite length_map, length_seq. lia.
Qed.

Lemma NoDup_list_prod {A B} (l : list A) (l' : list B) :
  NoDup l -> NoDup l' -> NoDup (list_prod l l').
Proof.
  intros Hl Hl'. rewrite list_prod_as_flat_map.
  apply NoDup_flat_map_key with (key := fst); [exact Hl| |].
  - intros x _. apply NoDup_map_inj; [|exact Hl']. intros a b H. congruence.
  - intros x b _ Hb. apply in_map_iff in Hb as [y [<- _]]. reflexivity.
Qed.

(** The variables of a value on distinct positions of the square. *)
Lemma vars_at_shape (n : nat) (v : Z) (ps : list (nat * nat)) (name : cname) :
  NoDup ps -> in_square n ps -> In v (range1 n) ->
  sums_distinct n (length ps) (mkConstraint name (vars_at v ps)).
Proof.
  intros Hnd Hsq Hv. unfold sums_distinct, vars_at. simpl. split; [|split].
  - apply NoDup_map_inj; [|exact Hnd]. intros [r c] [r' c'] H. congruence.
  - apply length_map.
  - intros x Hx. apply in_map_iff in Hx as [[r c] [<- Hin]].
    destruct (Hsq r c Hin) as [Hr Hc]. apply In_range1 in Hv. simpl. auto.
Qed.

Lemma length_range (n : nat) : length (range n) = n.
Proof. unfold range. apply length_seq. Qed.

Section Shapes.

Variables n m : nat.
Hypothesis Hm : m * m = n.

Lemma row_cells_shape (r : nat) :
  r < n -> NoDup (row_cells n r) /\ in_square n (row_cells n r) /\ length (row_cells n r) = n.
Proof.
  intros Hr. split; [|split].
  - apply NoDup_map_inj; [|apply seq_NoDup]. intros x y H. congruence.
  - apply (row_in_square n m Hm r Hr).
  - unfold row_cells. rewrite length_map. apply length_range.
Qed.

Lemma col_cells_shape (c : nat) :
  c < n -> NoDup (col_cells n c) /\ in_square n (col_cells n c) /\ length (col_cells n c) = n.
Proof.
  intros Hc. split; [|split].
  - apply NoDup_map_inj; [|apply seq_NoDup]. intros x y H. congruence.
  - apply (col_in_square n m Hm c Hc).
  - unfold col_cells. rewrite length_map. apply length_range.
Qed.

Lemma box_cells_shape (gr gc : nat) :
  gr < m -> gc < m ->
  NoDup (box_cells m gr gc) /\ in_square n (box_cells m gr gc)
  /\ length (box_cells m gr gc) = n.
Proof.
  intros Hgr Hgc. split; [|split].
  - apply NoDup_map_inj; [|apply NoDup_list_prod; apply seq_NoDup].
    intros [i j] [i' j'] H. inversion H. f_equal; lia.
  - apply (box_in_square n m Hm gr gc Hgr Hgc).
  - unfold box_cells. rewrite length_map, length_prod, length_range. exact Hm.
Qed.

Lemma diag_cells_shape :
  (NoDup (diag1_cells n) /\ in_square n (diag1_cells n) /\ length (diag1_cells n) = n)
  /\ (NoDup (diag2_cells n) /\ in_square n (diag2_cells n) /\ length (diag2_cells n) = n).
Proof.
  split; (split; [|split]).
  - apply NoDup_map_inj; [|apply seq_NoDup]. intros x y H. congruence.
  - apply (diag1_in_square n m Hm).
  - unfold diag1_cells. rewrite length_map. apply length_range.
  - apply NoDup_map_inj; [|apply seq_NoDup]. intros x y H. congruence.
  - apply (diag2_in_square n m Hm).
  - unfold diag2_cells. rewrite length_map. apply length_range.
Qed.

Lemma standard_shape (c : LpConstraint) :
  In c (standard_constraints n m) -> sums_distinct n n c.
Proof.
  unfold standard_constraints. intros H.
  repeat (apply in_app_or in H as [H|H]).
  - unfold col_constraints in H.
    apply in_flat_map in H as [x [Hx H]]. apply in_flat_map in H as [v [Hv H]].
    destruct H as [<-|[]]. apply In_range in Hx.
    destruct (col_cells_shape x Hx) as [H1 [H2 H3]].
    rewrite <- H3 at 2. apply vars_at_shape; assumption.
  - unfold row_constraints in H.
    apply in_flat_map in H as [x [Hx H]]. apply in_flat_map in H as [v [Hv H]].
    destruct H as [<-|[]]. apply In_range in Hx.
    destruct (row_cells_shape x Hx) as [H1 [H2 H3]].
    rewrite <- H3 at 2. apply vars_at_shape; assumption.
  - unfold cell_constraints in H.
    apply in_flat_map in H as [r [Hr H]]. apply in_flat_map in H as [c' [Hc H]].
    destruct H as [<-|[]]. apply In_range in Hr, Hc.
    unfold sums_distinct. simpl. split; [|split].
    + apply NoDup_map_inj; [|apply NoDup_range1]. intros x y H. congruence.
    + rewrite length_map. unfold range1. rewrite length_map. apply length_seq.
    + intros x Hx. apply in_map_iff in Hx as [v [<- Hv]].
      apply In_range1 in Hv. simpl. auto.
  - unfold box_constraints in H.
    apply in_flat_map in H as [gr [Hgr H]]. apply in_flat_map in H as [gc [Hgc H]].
    apply in_flat_map in H as [v [Hv H]].
    destruct H as [<-|[]]. apply In_range in Hgr, Hgc.
    destruct (box_cells_shape gr gc Hgr Hgc) as [H1 [H2 H3]].
    rewrite <- H3 at 2. apply vars_at_shape; assumption.
Qed.

Lemma diagonal_shape (c : LpConstraint) :
  In c (diagonal_constraints n) -> sums_distinct n n c.
Proof.
  unfold diagonal_constraints. intros H.
  destruct diag_cells_shape as [[A1 [A2 A3]] [B1 [B2 B3]]].
  apply in_app_or in H as [H|H]; apply in_flat_map in H as [v [Hv H]];
    destruct H as [<-|[]].
  - rewrite <- A3 at 2. apply vars_at_shape; assumption.
  - rewrite <- B3 at 2. apply vars_at_shape; assumption.
Qed.

End Shapes.

Lemma clue_shape (g : Grid) (c : LpConstraint) :
  clues_good g -> In c (clue_constraints (length g) g) ->
  sums_distinct (length g) 1 c.
Proof.
  intros Hgood H. unfold clue_constraints in H.
  apply in_flat_map in H as [r [Hr H]]. apply in_flat_map in H as [col [Hc H]].
  apply In_range in Hr, Hc.
  destruct (Hgood r col Hr Hc) as [row [x [Hrow [Hx Hclue]]]].
  unfold clue_of in H. rewrite Hrow, Hx in H.
  destruct (not_zero x); [|contradiction].
  destruct (Hclue eq_refl) as [v [Hv Hb]]. rewrite Hv in H.
  destruct H as [<-|[]]. unfold sums_distinct. simpl. split; [|split].
  - repeat constructor. intros [].
  - reflexivity.
  - intros y [<-|[]]. simpl. auto.
Qed.

(** X4: for a grid of side [N] the problem handed to the backend has
    [4 * N * N] constraints for the rows, columns, cells and boxes, one for
    every pre-filled cell and, with the diagonal flag, [2 * N] more; every
    constraint sums distinct variables of the cube, one for a clue and [N]
    for any other constraint. *)
Theorem X4_problem_size_and_shape (g : Grid) (diagonal : bool) (prob : LpProblem)
    (rows cols : list nat) (values : list Z) (d : VarDict) :
  solver_problem g diagonal = Ok (prob, rows, cols, values, d) ->
  let n := length g in
  length prob = 4 * n * n + clue_count g + (if diagonal then 2 * n else 0)
  /\ forall c, In c prob ->
       sums_distinct n (if name_family (c_name c) =? 4 then 1 else n) c.
Proof.
  intros H n. apply solver_problem_inv in H as [Hvalid [Hgood [-> _]]].
  assert (Hm : Nat.sqrt n * Nat.sqrt n = n) by (apply valid_grid_iff in Hvalid; tauto).
  unfold problem_of. fold n. split.
  - rewrite !length_app, (length_standard n _ Hm).
    pose proof (length_clue_constraints g Hvalid Hgood) as E. fold n in E. rewrite E.
    destruct diagonal; [rewrite length_diagonal | simpl]; lia.
  - intros c Hc. apply in_app_or in Hc as [Hc|Hc]; [|apply in_app_or in Hc as [Hc|Hc]].
    + assert (Hf : (name_family (c_name c) =? 4) = false).
      { apply Nat.eqb_neq. unfold standard_constraints in Hc.
        assert (Hn : In (c_name c) (map c_name
                        (col_constraints n ++ row_constraints n
                         ++ cell_constraints n ++ box_constraints n (Nat.sqrt n))))
          by (apply in_map; exact Hc).
        rewrite !map_app in Hn. name_families; lia. }
      rewrite Hf. apply (standard_shape n _ Hm c Hc).
    + assert (Hf : (name_family (c_name c) =? 4) = true).
      { apply Nat.eqb_eq. apply (proj2 (names_clue n g)). apply in_map. exact Hc. }
      rewrite Hf. apply clue_shape; assumption.
    + destruct diagonal; [|contradiction].
      assert (Hf : (name_family (c_name c) =? 4) = false).
      { apply Nat.eqb_neq.
        destruct (proj2 (names_diagonal n) (c_name c)) as [E|E];
          [apply in_map; exact Hc | lia | lia]. }
      rewrite Hf. apply (diagonal_shape n _ Hm c Hc).
Qed.

Lemma X4_problem_size_and_shape_witness :
  length (problem_of (ints puzzle4x) true) = 4 * 4 * 4 + 2 + 2 * 4.
Proof.
  apply (X4_problem_size_and_shape (ints puzzle4x) true _
           (range 4) (range 4) (range1 4)
           (mkVarDict (range 4) (range 4) (range1 4))).
  vm_compute. reflexivity.
Defined.

(** ** [extract_solution] on any values of the variables *)

Lemma pick_all_zero (a : assignment) (r c : nat) (l : list Z) (acc : cell) :
  (forall v, In v l -> a (r, c, v) = 0%Z) ->
  fold_left (pick a r c) l acc = acc.
Proof.
  revert acc. induction l as [|x t IH]; intros acc H; [reflexivity|].
  cbn [fold_left]. unfold pick at 2. rewrite (H x (or_introl eq_refl)). simpl.
  apply IH. intros v Hv. apply H. right. exact Hv.
Qed.

Lemma range1_split (n k : nat) :
  1 <= k <= n ->
  range1 n = map Z.of_nat (seq 1 (k - 1)) ++ Z.of_nat k :: map Z.of_nat (seq (S k) (n - k)).
Proof.
  intros Hk. unfold range1.
  replace n with ((k - 1) + (1 + (n - k))) at 1 by lia.
  rewrite seq_app, map_app. f_equal.
  replace (1 + (k - 1)) with k by lia. reflexivity.
Qed.

(** X5: whatever values the variables have, [extract_solution] on the
    variables that [setup_problem] creates returns a grid of [N] rows of
    [N] cells and raises nothing.  A cell none of whose variables is set
    keeps the initial 0; otherwise the cell holds the symbol of the largest
    value whose variable is set. *)
Theorem X5_extract_solution_total (a : assignment) (n : nat) :
  let '(_, rows, cols, values, grid_vars) := setup_problem n n in
  exists sol,
    extract_solution a grid_vars rows cols values = Ok sol
    /\ square n sol = true
    /\ forall r c, r < n -> c < n ->
         ((forall v, (1 <= v <= Z.of_nat n)%Z -> a (r, c, v) = 0%Z) ->
          get (PInt 0) sol r c = PInt 0)
         /\ (forall v, (1 <= v <= Z.of_nat n)%Z -> a (r, c, v) <> 0%Z ->
               (forall w, (v < w <= Z.of_nat n)%Z -> a (r, c, w) = 0%Z) ->
               get (PInt 0) sol r c = encode v).
Proof.
  unfold setup_problem.
  destruct (extract_solution_ok a n) as [sol [Hex [Hsq Hget]]].
  exists sol. split; [exact Hex|]. split; [exact Hsq|].
  intros r c Hr Hc. rewrite (Hget r c Hr Hc). unfold chosen. split.
  - intros Hzero. apply pick_all_zero. intros v Hv. apply Hzero, In_range1, Hv.
  - intros v Hv Hset Habove.
    rewrite (range1_split n (Z.to_nat v)) by lia.
    rewrite fold_left_app. cbn [fold_left]. rewrite Z2Nat.id by lia.
    unfold pick at 2.
    destruct (a (r, c, v) =? 0)%Z eqn:E; [apply Z.eqb_eq in E; contradiction|].
    simpl. apply pick_all_zero. intros w Hw.
    apply in_map_iff in Hw as [k [<- Hk]]. apply in_seq in Hk.
    apply Habove. lia.
Qed.

(** ** A clue written as the string "0" *)

Lemma for_fold_result {A S} (l : list A) (body : A -> S -> Res S) (s : S) :
  (exists s', for_fold l s body = Ok s')
  \/ exists x s0 e, In x l /\ body x s0 = Raise e /\ for_fold l s body = Raise e.
Proof.
  revert s; induction l as [|x t IH]; simpl; intros s.
  - left; exists s; reflexivity.
  - destruct (body x s) as [s'|e] eqn:Hx; simpl.
    + destruct (IH s') as [[s'' H]|[y [s0 [e [Hin [Hy Hr]]]]]].
      * left; exists s''; assumption.
      * right; exists y, s0, e; auto.
    + right; exists x, s, e; auto.
Qed.

Lemma clue_body_raise (g : Grid) (r c : nat) (s : LpProblem) (e : exc) :
  valid_grid g = true -> r < length g -> c < length g ->
  clue_body (length g) g r c s = Raise e ->
  e = mkExc KeyError (MissingKey 0).
Proof.
  intros Hvalid Hr Hc.
  destruct (get_In (length g) (PInt 0) g r c (valid_square g Hvalid) Hr Hc)
    as [row [Hrow [Hx [Hin Hinx]]]].
  apply valid_grid_iff in Hvalid as [_ [_ [_ Hok]]].
  specialize (Hok row _ Hin Hinx). apply cell_ok_iff in Hok as [v [Hv Hb]].
  unfold clue_body, getitem. cbv zeta. rewrite Hrow. cbn [bind]. rewrite Hx. cbn [bind].
  destruct (not_zero (get (PInt 0) g r c)); [|discriminate].
  rewrite Hv. cbn [bind].
  unfold lookup. cbn [d_rows d_cols d_values].
  rewrite (proj2 (mem_nat_range r (length g)) Hr),
          (proj2 (mem_nat_range c (length g)) Hc). cbn [negb].
  destruct (mem_Z v (range1 (length g))) eqn:Hmem; cbn [negb bind]; [discriminate|].
  intros H. inversion H. do 2 f_equal.
  destruct (Z.eq_dec v 0) as [->|Hne]; [reflexivity|].
  assert (Hin1 : mem_Z v (range1 (length g)) = true) by (apply mem_Z_range1; lia).
  congruence.
Qed.

(** X6: a grid that the validator accepts but in which a cell that is not
    the integer 0 decodes to 0 -- the string "0" for an empty cell -- is
    not solved: the clue loop looks up the value 0, which is no key of the
    variables, and [solver] prints the [KeyError] and returns [None]
    without calling the backend. *)
Theorem X6_string_zero_is_a_missing_key (backend : Backend) (g : Grid) (diagonal : bool) :
  valid_grid g = true ->
  (exists row x, In row g /\ In x row /\ not_zero x = true
                 /\ convert_to_numeric x = Ok 0%Z) ->
  solver backend g diagonal = (Ok None, [PrintError (mkExc KeyError (MissingKey 0))])
  /\ status_of backend g diagonal = None.
Proof.
  intros Hvalid [row [x [Hrow [Hx [Hnz Hzero]]]]].
  assert (Hsq : Nat.sqrt (length g) * Nat.sqrt (length g) = length g)
    by (apply valid_grid_iff in Hvalid; tauto).
  assert (Hraise : solver_problem g diagonal = Raise (mkExc KeyError (MissingKey 0))).
  { unfold solver_problem. rewrite (validate_valid g Hvalid).
    cbn [unpack3 bind setup_problem].
    rewrite (create_unfold _ _ Hsq).
    match goal with |- context [for_fold ?l ?s ?body] =>
      destruct (for_fold_result l body s) as [[s' Hok]|[r [s0 [e [Hr [Hb Hrun]]]]]]
    end.
    - exfalso.
      assert (Hcreate : create_sudoku_constraints []
                (mkVarDict (range (length g)) (range (length g)) (range1 (length g)))
                (range (length g)) (range (length g)) (range1 (length g))
                (length g) (Nat.sqrt (length g)) g = Ok s')
        by (rewrite (create_unfold _ _ Hsq); exact Hok).
      apply (create_inv _ _ Hsq) in Hcreate as [_ Hgood].
      apply In_nth_error in Hrow as [r Hr]. apply In_nth_error in Hx as [c Hc].
      assert (Hr' : r < length g) by (apply nth_error_Some; congruence).
      assert (Hlen : length row = length g).
      { apply valid_grid_iff in Hvalid as [_ [Hrows _]].
        apply Hrows. eapply nth_error_In; eassumption. }
      assert (Hc' : c < length g) by (rewrite <- Hlen; apply nth_error_Some; congruence).
      destruct (Hgood r c Hr' Hc') as [row' [x' [Hr2 [Hc2 Hclue]]]].
      assert (row' = row) by congruence. subst row'.
      assert (x' = x) by congruence. subst x'.
      destruct (Hclue Hnz) as [v [Hv Hb]]. rewrite Hzero in Hv. inversion Hv. lia.
    - rewrite Hrun. cbn [bind]. f_equal.
      apply In_range in Hr.
      match type of Hb with for_fold ?l ?s ?body = _ =>
        destruct (for_fold_result l body s) as [[s' Hok]|[c [s1 [e' [Hc [Hb' Hrun']]]]]]
      end; [congruence|].
      assert (e' = e) by congruence. subst e'. apply In_range in Hc.
      apply (clue_body_raise g r c s1 e Hvalid Hr Hc Hb'). }
  split.
  - unfold solver, solver_try. rewrite Hraise. reflexivity.
  - unfold status_of. rewrite Hraise. reflexivity.
Qed.

Lemma X6_string_zero_is_a_missing_key_witness :
  solver (answers solved4) [[PStr (py "0")]] false
  = (Ok None, [PrintError (mkExc KeyError (MissingKey 0))])
  /\ status_of (answers solved4) [[PStr (py "0")]] false = None.
Proof.
  apply (X6_string_zero_is_a_missing_key (answers solved4) [[PStr (py "0")]] false).
  - reflexivity.
  - exists [PStr (py "0")], (PStr (py "0")). repeat split; simpl; auto.
Defined.

(** ** Every legal completion satisfies the problem *)

Section Completion.

Variable g : Grid.
Variable s : list (list Z).
Variable diagonal : bool.
Hypothesis Hvalid : valid_grid g = true.
Hypothesis Hcompletes : completes g s = true.
Hypothesis Hlegal : legal diagonal (length g) s = true.

Let n := length g.

Lemma completion_square : square n s = true.
Proof. unfold completes in Hcompletes. rewrite !andb_true_iff in Hcompletes. tauto. Qed.

Lemma completion_value (r c : nat) : r < n -> c < n -> In (get 0%Z s r c) (range1 n).
Proof.
  intros Hr Hc.
  destruct (get_In n 0%Z s r c completion_square Hr Hc) as [row [_ [_ [Hrow Hx]]]].
  unfold completes in Hcompletes. rewrite !andb_true_iff in Hcompletes.
  destruct Hcompletes as [[_ Hvals] _].
  rewrite forallb_forall in Hvals. specialize (Hvals row Hrow).
  rewrite forallb_forall in Hvals. specialize (Hvals _ Hx).
  apply andb_true_iff in Hvals as [H1 H2]. apply Z.leb_le in H1, H2.
  apply In_range1. fold n in H2. lia.
Qed.

Lemma completion_clue (r c : nat) :
  r < n -> c < n -> not_zero (get (PInt 0) g r c) = true ->
  convert_to_numeric (get (PInt 0) g r c) = Ok (get 0%Z s r c).
Proof.
  intros Hr Hc Hnz.
  unfold completes in Hcompletes. rewrite !andb_true_iff in Hcompletes.
  destruct Hcompletes as [_ Hagree]. rewrite forallb_forall in Hagree.
  specialize (Hagree (r, c)). simpl in Hagree. rewrite Hnz in Hagree. simpl in Hagree.
  assert (Hin : In (r, c) (list_prod (range (length g)) (range (length g))))
    by (apply in_prod; apply In_range; assumption).
  apply Hagree, Z.eqb_eq in Hin. rewrite <- Hin.
  destruct (get_In n (PInt 0) g r c (valid_square g Hvalid) Hr Hc)
    as [row [_ [_ [Hrow Hx]]]].
  pose proof Hvalid as Hv. apply valid_grid_iff in Hv as [_ [_ [_ Hcells]]].
  specialize (Hcells row _ Hrow Hx). apply cell_ok_iff in Hcells as [v [Hv _]].
  unfold numeric. rewrite Hv. reflexivity.
Qed.

Lemma completion_clues_good : clues_good g.
Proof.
  intros r c Hr Hc. fold n in Hr, Hc |- *.
  destruct (get_In n (PInt 0) g r c (valid_square g Hvalid) Hr Hc)
    as [row [H1 [H2 _]]].
  exists row, (get (PInt 0) g r c). split; [exact H1|]. split; [exact H2|].
  intros Hnz. exists (get 0%Z s r c).
  split; [apply completion_clue; assumption|].
  apply In_range1, completion_value; assumption.
Qed.

Lemma completion_unit (ps : list (nat * nat)) (v : Z) :
  In ps (units n (Nat.sqrt n)) -> In v (range1 n) ->
  lp_sum (indicator s) (vars_at v ps) = 1%Z.
Proof.
  intros Hps Hv. rewrite lp_sum_indicator.
  unfold legal in Hlegal. apply andb_true_iff in Hlegal as [Hrules _].
  unfold sudoku_rules in Hrules. fold n in Hrules.
  rewrite forallb_forall in Hrules. specialize (Hrules ps Hps).
  unfold each_once in Hrules. rewrite forallb_forall in Hrules.
  specialize (Hrules v Hv). apply Nat.eqb_eq in Hrules. rewrite Hrules. reflexivity.
Qed.

Lemma completion_diagonal (v : Z) :
  diagonal = true -> In v (range1 n) ->
  lp_sum (indicator s) (vars_at v (diag1_cells n)) = 1%Z
  /\ lp_sum (indicator s) (vars_at v (diag2_cells n)) = 1%Z.
Proof.
  intros Hd Hv. rewrite !lp_sum_indicator.
  unfold legal in Hlegal. rewrite Hd in Hlegal. simpl in Hlegal.
  rewrite !andb_true_iff in Hlegal. destruct Hlegal as [_ [H1 H2]].
  unfold each_once in H1, H2. fold n in H1, H2. rewrite forallb_forall in H1, H2.
  specialize (H1 v Hv). specialize (H2 v Hv). apply Nat.eqb_eq in H1, H2.
  rewrite H1, H2. split; reflexivity.
Qed.

Lemma completion_feasible :
  feasible (problem_of g diagonal) (indicator s) = true.
Proof.
  unfold problem_of, standard_constraints. fold n.
  rewrite !feasible_app.
  repeat split; unfold feasible; apply forallb_forall; intros k Hk.
  - unfold col_constraints in Hk.
    apply in_flat_map in Hk as [c [Hc Hk]]. apply in_flat_map in Hk as [v [Hv Hk]].
    destruct Hk as [<-|[]]. apply satisfied_indicator, completion_unit; [|exact Hv].
    unfold units. apply in_or_app. right. apply in_or_app. left.
    apply in_map. exact Hc.
  - unfold row_constraints in Hk.
    apply in_flat_map in Hk as [r [Hr Hk]]. apply in_flat_map in Hk as [v [Hv Hk]].
    destruct Hk as [<-|[]]. apply satisfied_indicator, completion_unit; [|exact Hv].
    unfold units. apply in_or_app. left. apply in_map. exact Hr.
  - unfold cell_constraints in Hk.
    apply in_flat_map in Hk as [r [Hr Hk]]. apply in_flat_map in Hk as [c [Hc Hk]].
    destruct Hk as [<-|[]]. apply satisfied_indicator.
    apply In_range in Hr, Hc.
    rewrite lp_sum_count by (intros; apply indicator_binary).
    rewrite filter_map_length.
    rewrite (filter_ext_length _ (Z.eqb (get 0%Z s r c))).
    + rewrite count_once_NoDup; [reflexivity | apply NoDup_range1|].
      apply completion_value; assumption.
    + intros v _. unfold indicator.
      destruct (get 0%Z s r c =? v)%Z; reflexivity.
  - unfold box_constraints in Hk.
    apply in_flat_map in Hk as [gr [Hgr Hk]]. apply in_flat_map in Hk as [gc [Hgc Hk]].
    apply in_flat_map in Hk as [v [Hv Hk]].
    destruct Hk as [<-|[]]. apply satisfied_indicator, completion_unit; [|exact Hv].
    unfold units. apply in_or_app. right. apply in_or_app. right.
    apply in_map_iff. exists (gr, gc). split; [reflexivity|].
    apply in_prod; assumption.
  - unfold clue_constraints in Hk.
    apply in_flat_map in Hk as [r [Hr Hk]]. apply in_flat_map in Hk as [c [Hc Hk]].
    apply In_range in Hr, Hc.
    destruct (get_In n (PInt 0) g r c (valid_square g Hvalid) Hr Hc)
      as [row [H1 [H2 _]]].
    unfold clue_of in Hk. rewrite H1, H2 in Hk.
    destruct (not_zero (get (PInt 0) g r c)) eqn:Hnz; [|contradiction].
    rewrite (completion_clue r c Hr Hc Hnz) in Hk.
    destruct Hk as [<-|[]]. apply satisfied_indicator.
    unfold lp_sum, indicator. simpl. rewrite Z.eqb_refl. reflexivity.
  - destruct (bool_dec diagonal true) as [Hd|Hd].
    2:{ apply not_true_is_false in Hd. rewrite Hd in Hk. contradiction. }
    rewrite Hd in Hk. unfold diagonal_constraints in Hk.
    apply in_app_or in Hk as [Hk|Hk]; apply in_flat_map in Hk as [v [Hv Hk]];
      destruct Hk as [<-|[]]; apply satisfied_indicator;
      apply completion_diagonal; auto.
Qed.

End Completion.

(** X7: the constraints exclude no legal grid.  When a grid of values
    completes a valid puzzle and obeys the rules (with the flag, also on the
    two diagonals), the problem built for the puzzle is satisfied by the
    variables that describe this grid; a backend that reports [Optimal] for
    every problem that has a solution then makes [solver] return a grid,
    not [None]. *)
Theorem X7_legal_completion_is_feasible (backend : Backend) (g : Grid)
    (diagonal : bool) (s : list (list Z)) :
  valid_grid g = true ->
  completes g s = true ->
  legal diagonal (length g) s = true ->
  feasible (problem_of g diagonal) (indicator s) = true
  /\ (backend_complete backend g diagonal ->
      exists sol, solver backend g diagonal = (Ok (Some sol), [])).
Proof.
  intros Hvalid Hcompletes Hlegal.
  pose proof (completion_feasible g s diagonal Hvalid Hcompletes Hlegal) as Hfeas.
  split; [exact Hfeas|]. intros Hcomplete.
  pose proof (completion_clues_good g s Hvalid Hcompletes) as Hgood.
  pose proof (solver_problem_ok g diagonal Hvalid Hgood) as Hprob.
  pose proof (Hcomplete _ _ _ _ _ _ Hprob Hfeas) as Hopt.
  destruct (backend (problem_of g diagonal)) as [status a] eqn:Hb.
  simpl in Hopt. subst status.
  destruct (extract_solution_ok a (length g)) as [sol [Hex _]].
  exists sol. apply (solver_Optimal backend g diagonal a sol); assumption.
Qed.

Lemma X7_legal_completion_is_feasible_witness :
  feasible (problem_of (ints puzzle4x) true) (indicator solved4x) = true
  /\ exists sol, solver (answers solved4x) (ints puzzle4x) true = (Ok (Some sol), []).
Proof.
  destruct (X7_legal_completion_is_feasible (answers solved4x) (ints puzzle4x) true
              solved4x) as [H1 H2]; try (vm_compute; reflexivity).
  split; [exact H1|]. apply H2.
  intros prob rows cols values d a _ _. reflexivity.
Defined.

(** ** The exceptions of the batch reader *)

Lemma mapM_raise {A B} (f : A -> Res B) (l : list A) (e : exc) :
  mapM f l = Raise e -> exists x, In x l /\ f x = Raise e.
Proof.
  induction l as [|x t IH]; simpl; [discriminate|].
  destruct (f x) as [y|e'] eqn:Hx; simpl.
  - destruct (mapM f t) as [ys|e''] eqn:Ht; simpl; [discriminate|].
    intros H. inversion H; subst e''. destruct (IH eq_refl) as [z [Hz Hfz]].
    exists z. auto.
  - intros H. inversion H; subst e'. exists x. auto.
Qed.

Lemma int_of_str_raise (s : pystr) (e : exc) :
  int_of_str s = Raise e -> exc_cls e = ValueError.
Proof.
  unfold int_of_str.
  match goal with |- context [match ?p with Some _ => _ | None => _ end] =>
    destruct p end; [discriminate|].
  intros H. inversion H. reflexivity.
Qed.

Lemma unpack2_ints_raise (tokens : list pystr) (e : exc) :
  unpack2_ints tokens = Raise e -> exc_cls e = ValueError.
Proof.
  destruct tokens as [|a [|b [|c t]]]; simpl.
  - intros H. inversion H. reflexivity.
  - destruct (int_of_str a) eqn:Ha; simpl; intros H; inversion H; subst;
      [reflexivity | eapply int_of_str_raise; eassumption].
  - destruct (int_of_str a) eqn:Ha; simpl;
      [|intros H; inversion H; subst; eapply int_of_str_raise; eassumption].
    destruct (int_of_str b) eqn:Hb; simpl; [discriminate|].
    intros H; inversion H; subst; eapply int_of_str_raise; eassumption.
  - destruct (int_of_str a) eqn:Ha; simpl;
      [|intros H; inversion H; subst; eapply int_of_str_raise; eassumption].
    destruct (int_of_str b) eqn:Hb; simpl;
      [|intros H; inversion H; subst; eapply int_of_str_raise; eassumption].
    destruct (int_of_str c) eqn:Hc; simpl; intros H; inversion H; subst;
      [reflexivity | eapply int_of_str_raise; eassumption].
Qed.

Lemma token_raise (s : pystr) (e : exc) :
  convert_to_numeric (PStr s) = Raise e ->
  exc_cls e = ValueError \/ escapes e.
Proof.
  intros H. simpl in H. destruct (isalpha s) eqn:Halpha.
  - right. destruct (Nat.eq_dec (length s) 1) as [Hone|Hne].
    + destruct s as [|c [|c' t]]; simpl in *; discriminate.
    + rewrite (ord_upper_long s Hne) in H. inversion H.
      left. exists (length s). split; [|reflexivity].
      destruct s as [|c [|c' t]]; simpl in *; try discriminate; lia.
  - left. eapply int_of_str_raise; eassumption.
Qed.

Lemma read_rows_raise (sudoku_index : nat) (dim : Z) (row_indices : list nat)
    (sudoku : list (list Z)) (f f' : File) (e : exc) :
  read_rows sudoku_index dim row_indices sudoku f = (Raise e, f') ->
  exc_cls e = ValueError \/ escapes e.
Proof.
  revert sudoku f. induction row_indices as [|row_index rest IH]; intros sudoku f;
    cbn [read_rows]; [discriminate|].
  destruct (readline f) as [line f1].
  destruct (Z.of_nat (length (split (strip line))) =? dim)%Z; cbn [negb].
  2:{ intros H. inversion H. left. reflexivity. }
  destruct (mapM (fun value => convert_to_numeric (PStr value)) (split (strip line)))
    as [numeric_row|e1] eqn:Hmap.
  2:{ intros H. inversion H; subst.
      apply mapM_raise in Hmap as [tok [_ Htok]]. apply token_raise in Htok. exact Htok. }
  match goal with |- context [for_ ?l ?body] =>
    destruct (for_result l body) as [Hok|[p [e2 [_ [Hp Hrun]]]]]
  end.
  - rewrite Hok. apply IH.
  - rewrite Hrun. intros H. inversion H; subst. left.
    destruct p as [col_index value].
    destruct (negb ((0 <=? value) && (value <=? dim))%Z); [|discriminate].
    inversion Hp. reflexivity.
Qed.

Lemma int_sqrt_raise (dim : Z) (e : exc) :
  int_sqrt dim = Raise e -> exc_cls e = ValueError \/ escapes e.
Proof.
  unfold int_sqrt, float_of_int.
  destruct (2 ^ 1024 <=? round53 (Z.abs dim) false)%Z; cbn [raise bind].
  - intros H. inversion H. right. right. reflexivity.
  - destruct (Z.sgn dim * round53 (Z.abs dim) false <? 0)%Z; [|discriminate].
    intros H. inversion H. left. reflexivity.
Qed.

Lemma read_one_raise (sudoku_index : nat) (f f' : File) (e : exc) :
  read_one sudoku_index f = (Raise e, f') ->
  exc_cls e = ValueError \/ escapes e.
Proof.
  unfold read_one. destruct (readline f) as [line f1].
  destruct (unpack2_ints (split (strip line))) as [[dim diagonal_flag]|e1] eqn:Hu.
  2:{ intros H. inversion H; subst. left. eapply unpack2_ints_raise; eassumption. }
  destruct (int_sqrt dim) as [m|e1] eqn:Hsqrt.
  2:{ intros H. inversion H; subst. eapply int_sqrt_raise; eassumption. }
  destruct (negb (m * m =? dim)%Z).
  { intros H. inversion H. left. reflexivity. }
  destruct (read_rows sudoku_index dim (range (Z.to_nat dim)) [] f1) as [[sudoku|e2] f2] eqn:Hr.
  - destruct (readline f2). discriminate.
  - intros H. inversion H; subst. eapply read_rows_raise; eassumption.
Qed.

Lemma read_loop_raise (indices : list nat) (f : File)
    (sudokus : list (list (list Z))) (flags : list bool) (e : exc) (out : list output) :
  read_loop indices f sudokus flags = (Raise e, out) -> escapes e.
Proof.
  revert f sudokus flags out. induction indices as [|i rest IH];
    intros f sudokus flags out; simpl; [discriminate|].
  destruct (read_one i f) as [[[sudoku diagonal]|e1] f1] eqn:Hone.
  - apply IH.
  - destruct (is_ValueError (exc_cls e1)) eqn:Hv.
    + destruct (read_loop rest f1 sudokus flags) as [r out'] eqn:Hrest.
      intros H. inversion H; subst. eapply IH; eassumption.
    + intros H. inversion H; subst.
      destruct (read_one_raise i f f1 e Hone) as [Hve|Hesc]; [|exact Hesc].
      rewrite Hve in Hv. discriminate.
Qed.

(** X8: [read_sudokus_from_file] lets no [ValueError] and no
    [FileNotFoundError] out.  Whatever [open] does and whatever text the file
    holds, it returns, or it raises one of three exceptions that its handlers
    do not catch: the [TypeError] of [ord] on a symbol of two letters or
    more, the [OverflowError] of [sqrt] on a dimension too large for a float,
    or the exception of [open] itself when it is of another class than the
    two handled. *)
Theorem X8_what_leaves_the_reader (file : Res File) :
  (exists sudokus flags out,
      read_sudokus_from_file file = (Ok (sudokus, flags), out))
  \/ (exists e out,
        read_sudokus_from_file file = (Raise e, out)
        /\ unhandled_by_reader e = true
        /\ (escapes e \/ file = Raise e)).
Proof.
  unfold read_sudokus_from_file. destruct file as [f|e].
  2:{ destruct (is_FileNotFoundError (exc_cls e)) eqn:Hnf;
        [left; eexists _, _, _; reflexivity|].
      destruct (is_ValueError (exc_cls e)) eqn:Hv;
        [left; eexists _, _, _; reflexivity|].
      right. exists e, []. unfold unhandled_by_reader. rewrite Hnf, Hv. auto. }
  destruct (readline f) as [line f1].
  destruct (int_of_str (strip line)) as [k|e].
  2:{ left. eexists _, _, _. reflexivity. }
  destruct (read_loop (range (Z.to_nat k)) f1 [] []) as [[[sudokus flags]|e] out] eqn:Hloop.
  - left. eexists _, _, _. reflexivity.
  - right. exists e, out. split; [reflexivity|].
    apply read_loop_raise in Hloop.
    split; [|left; exact Hloop].
    destruct Hloop as [[k' [_ ->]]| ->]; reflexivity.
Qed.

(** ** What the batch reader returns *)

Lemma read_rows_ok (sudoku_index : nat) (dim : Z) (row_indices : list nat)
    (sudoku sudoku' : list (list Z)) (f f' : File) :
  read_rows sudoku_index dim row_indices sudoku f = (Ok sudoku', f') ->
  exists rows,
    sudoku' = sudoku ++ rows /\ length rows = length row_indices
    /\ Forall (row_read dim) rows.
Proof.
  revert sudoku f. induction row_indices as [|row_index rest IH]; intros sudoku f;
    cbn [read_rows].
  - intros H. inversion H. exists []. rewrite app_nil_r. auto.
  - destruct (readline f) as [line f1].
    destruct (Z.of_nat (length (split (strip line))) =? dim)%Z eqn:Hlen; cbn [negb];
      [|discriminate].
    destruct (mapM (fun value => convert_to_numeric (PStr value)) (split (strip line)))
      as [numeric_row|e1] eqn:Hmap; [|discriminate].
    match goal with |- context [for_ ?l ?body] =>
      destruct (for_ l body) as [[]|e2] eqn:Hfor
    end; [|discriminate].
    intros H. apply IH in H as [rows [-> [Hl Hrows]]].
    exists (numeric_row :: rows). rewrite <- app_assoc. split; [reflexivity|].
    split; [simpl; lia|]. constructor; [|exact Hrows].
    split.
    + apply Z.eqb_eq in Hlen. rewrite <- Hlen. f_equal.
      clear - Hmap. revert numeric_row Hmap.
      induction (split (strip line)) as [|t ts IHt]; intros numeric_row Hmap.
      * inversion Hmap. reflexivity.
      * cbn [mapM] in Hmap. apply bind_ok in Hmap as [y [_ Hmap]].
        apply bind_ok in Hmap as [ys [Hys Hmap]]. inversion Hmap.
        simpl. f_equal. apply IHt, Hys.
    + apply for_ok in Hfor. rewrite Forall_forall in Hfor.
      apply Forall_forall. intros v Hv.
      apply In_nth_error in Hv as [i Hi].
      assert (Hin : In (i, v) (enumerate numeric_row)).
      { unfold enumerate.
        assert (Hi' : i < length numeric_row) by (apply nth_error_Some; congruence).
        assert (Hc : nth_error (combine (seq 0 (length numeric_row)) numeric_row) i
                     = Some (i, v)).
        { rewrite (nth_error_nth' _ (0, 0%Z)) by (rewrite length_combine, length_seq; lia).
          rewrite combine_nth by apply length_seq.
          rewrite seq_nth by exact Hi'. rewrite (nth_error_nth _ _ _ Hi). reflexivity. }
        eapply nth_error_In; eassumption. }
      specialize (Hfor _ Hin). simpl in Hfor.
      destruct ((0 <=? v) && (v <=? dim))%Z eqn:E; [|discriminate].
      apply andb_true_iff in E as [E1 E2]. apply Z.leb_le in E1, E2. lia.
Qed.

Lemma rows_read_valid (dim : Z) (rows : list (list Z)) :
  (0 <= dim)%Z -> (Z.sqrt dim * Z.sqrt dim = dim)%Z ->
  length rows = Z.to_nat dim -> Forall (row_read dim) rows ->
  rows <> [] -> valid_grid (ints rows) = true.
Proof.
  intros Hpos Hsq Hlen Hrows Hne.
  assert (Hints : length (ints rows) = Z.to_nat dim)
    by (unfold ints; rewrite length_map; exact Hlen).
  apply valid_grid_iff. rewrite Hints. rewrite Forall_forall in Hrows.
  split; [|split; [|split]].
  - destruct rows; [congruence | discriminate].
  - intros row Hrow. unfold ints in Hrow. apply in_map_iff in Hrow as [r [<- Hr]].
    rewrite length_map. destruct (Hrows r Hr) as [Hl _]. lia.
  - assert (Hm : Z.to_nat (Z.sqrt dim) * Z.to_nat (Z.sqrt dim) = Z.to_nat dim).
    { rewrite <- Z2Nat.inj_mul by apply Z.sqrt_nonneg. rewrite Hsq. reflexivity. }
    rewrite <- Hm at 1 2. rewrite Nat.sqrt_square. exact Hm.
  - intros row x Hrow Hx. unfold ints in Hrow. apply in_map_iff in Hrow as [r [<- Hr]].
    apply in_map_iff in Hx as [v [<- Hv]].
    destruct (Hrows r Hr) as [_ Hvals]. rewrite Forall_forall in Hvals.
    specialize (Hvals v Hv). unfold cell_ok, in_range. simpl.
    apply andb_true_iff; split; apply Z.leb_le; lia.
Qed.

Lemma read_one_ok (sudoku_index : nat) (f f' : File) (sudoku : list (list Z))
    (diagonal : bool) :
  read_one sudoku_index f = (Ok (sudoku, diagonal), f') ->
  sudoku = [] \/ valid_grid (ints sudoku) = true.
Proof.
  unfold read_one. destruct (readline f) as [line f1].
  destruct (unpack2_ints (split (strip line))) as [[dim diagonal_flag]|e1]; [|discriminate].
  destruct (int_sqrt dim) as [m|e1]; [|discriminate].
  destruct (m * m =? dim)%Z eqn:Hm; cbn [negb]; [|discriminate].
  apply Z.eqb_eq in Hm.
  assert (Hneg : (0 <= dim)%Z) by nia.
  assert (Hsq : (Z.sqrt dim * Z.sqrt dim = dim)%Z).
  { rewrite <- Hm, <- (Z.abs_square m).
    rewrite (Z.sqrt_square (Z.abs m)) by apply Z.abs_nonneg. reflexivity. }
  destruct (read_rows sudoku_index dim (range (Z.to_nat dim)) [] f1)
    as [[rows|e2] f2] eqn:Hr; [|discriminate].
  destruct (readline f2) as [blank f3]. intros H. inversion H as [[Hs Hd Hf]].
  subst rows.
  apply read_rows_ok in Hr as [rows' [Hrows' [Hl Hread]]]. simpl in Hrows'. subst rows'.
  rewrite length_range in Hl.
  destruct sudoku as [|r0 rs] eqn:E; [left; reflexivity | right].
  apply (rows_read_valid dim); try assumption. discriminate.
Qed.

Lemma read_loop_ok (indices : list nat) (f : File)
    (sudokus sudokus' : list (list (list Z))) (flags flags' : list bool)
    (out : list output) :
  read_loop indices f sudokus flags = (Ok (sudokus', flags'), out) ->
  exists new_sudokus new_flags,
    sudokus' = sudokus ++ new_sudokus /\ flags' = flags ++ new_flags
    /\ length new_sudokus = length new_flags
    /\ length new_sudokus + length out = length indices
    /\ Forall (fun s => s = [] \/ valid_grid (ints s) = true) new_sudokus
    /\ Forall reports_puzzle out.
Proof.
  revert f sudokus flags out. induction indices as [|i rest IH];
    intros f sudokus flags out; cbn [read_loop].
  - intros H. inversion H. exists [], []. rewrite !app_nil_r. repeat split; auto.
  - destruct (read_one i f) as [[[sudoku diagonal]|e1] f1] eqn:Hone.
    + intros H. apply IH in H as [ns [nf [-> [-> [Hl [Hcount [Hs Ho]]]]]]].
      exists (sudoku :: ns), (diagonal :: nf). rewrite <- !app_assoc.
      repeat split; simpl; auto; try lia.
      constructor; [|exact Hs]. eapply read_one_ok; eassumption.
    + destruct (is_ValueError (exc_cls e1)) eqn:Hv; [|discriminate].
      destruct (read_loop rest f1 sudokus flags) as [r out'] eqn:Hrest.
      intros H. inversion H; subst.
      apply IH in Hrest as [ns [nf [-> [-> [Hl [Hcount [Hs Ho]]]]]]].
      exists ns, nf. repeat split; simpl; auto; try lia.
      constructor; [|exact Ho]. simpl.
      destruct (exc_cls e1); try discriminate; reflexivity.
Qed.



(** X10: every puzzle that [read_sudokus_from_file] returns is accepted by
    [validate_sudoku_input], as a grid of integers, with the one exception
    of the puzzle without rows that a header of dimension 0 produces, on
    which the validator raises [IndexError]. *)
Theorem X10_reader_returns_valid_puzzles (file : Res File)
    (sudokus : list (list (list Z))) (flags : list bool) (out : list output)
    (sudoku : list (list Z)) :
  read_sudokus_from_file file = (Ok (sudokus, flags), out) ->
  In sudoku sudokus ->
  (sudoku <> []
   /\ validate_sudoku_input (ints sudoku)
      = Ok [length sudoku; length sudoku; Nat.sqrt (length sudoku)])
  \/ (sudoku = []
      /\ validate_sudoku_input (ints sudoku)
         = Raise (mkExc IndexError ListIndexOutOfRange)).
Proof.
  unfold read_sudokus_from_file. destruct file as [f|e].
  2:{ destruct (is_FileNotFoundError (exc_cls e));
        [|destruct (is_ValueError (exc_cls e))];
        intros H; inversion H; contradiction. }
  destruct (readline f) as [line f1].
  destruct (int_of_str (strip line)) as [k|e].
  2:{ intros H. inversion H. contradiction. }
  intros H Hin.
  apply read_loop_ok in H as [ns [nf [-> [_ [_ [_ [Hs _]]]]]]].
  simpl in Hin. rewrite Forall_forall in Hs.
  destruct (Hs sudoku Hin) as [->|Hvalid].
  - right. split; reflexivity.
  - left. split.
    + intros ->. discriminate.
    + rewrite (validate_valid _ Hvalid). unfold ints. rewrite length_map. reflexivity.
Qed.

Lemma X10_reader_returns_valid_puzzles_witness :
  (puzzle4 <> []
   /\ validate_sudoku_input (ints puzzle4)
      = Ok [length puzzle4; length puzzle4; Nat.sqrt (length puzzle4)])
  \/ (puzzle4 = []
      /\ validate_sudoku_input (ints puzzle4)
         = Raise (mkExc IndexError ListIndexOutOfRange)).
Proof.
  apply (X10_reader_returns_valid_puzzles (Ok batch_second_alone) [puzzle4] [false] []).
  - vm_compute. reflexivity.
  - left. reflexivity.
Defined.

(** ** A written row is read back *)

Lemma split_from_token (t cur rest : pystr) :
  forallb (fun c => negb (is_space_cp c)) t = true ->
  split_from cur (t ++ rest) = split_from (rev t ++ cur) rest.
Proof.
  revert cur. induction t as [|c t IH]; intros cur H; [reflexivity|].
  simpl in H. apply andb_true_iff in H as [Hc Ht]. apply negb_true_iff in Hc.
  simpl. rewrite Hc. rewrite IH by exact Ht. rewrite <- app_assoc. reflexivity.
Qed.

Lemma split_join (tokens : list pystr) :
  forallb is_token tokens = true ->
  split (join (py " ") tokens) = tokens.
Proof.
  unfold split. induction tokens as [|t ts IH]; intros H; [reflexivity|].
  simpl in H. apply andb_true_iff in H as [Ht Hts].
  unfold is_token in Ht. apply andb_true_iff in Ht as [Hne Hsp].
  assert (Hrev : is_nil (rev t ++ []) = false).
  { destruct t as [|c t']; [discriminate|]. simpl.
    destruct (rev t' ++ [c]) eqn:E; [|destruct (l ++ []); reflexivity].
    apply app_eq_nil in E as [_ E]. discriminate. }
  destruct ts as [|t' ts'].
  - simpl. rewrite <- (app_nil_r t) at 1. rewrite split_from_token by exact Hsp.
    simpl. rewrite Hrev. rewrite app_nil_r, rev_involutive. reflexivity.
  - change (join (py " ") (t :: t' :: ts'))
      with (t ++ py " " ++ join (py " ") (t' :: ts')).
    rewrite split_from_token by exact Hsp.
    change (py " ") with [32%Z]. cbn [app split_from].
    change (is_space_cp 32) with true. cbv iota. rewrite Hrev.
    rewrite app_nil_r, rev_involutive. f_equal. apply IH, Hts.
Qed.

Lemma lstrip_token_first (c : Z) (t : pystr) :
  is_space_cp c = false -> lstrip (c :: t) = c :: t.
Proof. intros H. simpl. rewrite H. reflexivity. Qed.

Lemma strip_no_margin (first last : Z) (middle : pystr) :
  is_space_cp first = false -> is_space_cp last = false ->
  strip (first :: middle ++ [last]) = first :: middle ++ [last]
  /\ strip [first] = [first].
Proof.
  intros Hf Hl. unfold strip, rstrip. split.
  - rewrite lstrip_token_first by exact Hf.
    change (first :: middle ++ [last]) with ((first :: middle) ++ [last]).
    rewrite rev_app_distr. change (rev [last]) with [last].
    change ([last] ++ rev (first :: middle)) with (last :: rev (first :: middle)).
    rewrite lstrip_token_first by exact Hl.
    change (last :: rev (first :: middle)) with (rev [last] ++ rev (first :: middle)).
    rewrite <- rev_app_distr, rev_involutive. reflexivity.
  - rewrite lstrip_token_first by exact Hf. simpl. rewrite Hf. reflexivity.
Qed.

Lemma token_ends (t : pystr) :
  is_token t = true ->
  exists first rest, t = first :: rest /\ is_space_cp first = false
  /\ exists front last, t = front ++ [last] /\ is_space_cp last = false.
Proof.
  unfold is_token. intros H. apply andb_true_iff in H as [Hne Hsp].
  rewrite forallb_forall in Hsp.
  destruct t as [|c t']; [discriminate|].
  exists c, t'. split; [reflexivity|]. split.
  - apply negb_true_iff, Hsp. left. reflexivity.
  - destruct (exists_last (l := c :: t')) as [front [last E]]; [discriminate|].
    exists front, last. split; [exact E|].
    apply negb_true_iff, Hsp. rewrite E. apply in_or_app. right. left. reflexivity.
Qed.

Lemma join_ends (tokens : list pystr) :
  forallb is_token tokens = true -> tokens <> [] ->
  (exists first rest, join (py " ") tokens = first :: rest /\ is_space_cp first = false)
  /\ (exists front last, join (py " ") tokens = front ++ [last]
                         /\ is_space_cp last = false).
Proof.
  induction tokens as [|t ts IH]; intros H Hne; [congruence|].
  simpl in H. apply andb_true_iff in H as [Ht Hts].
  destruct (token_ends t Ht) as [first [rest [E1 [Hf [front [last [E2 Hl]]]]]]].
  destruct ts as [|t' ts'].
  - simpl. split; [exists first, rest | exists front, last]; auto.
  - change (join (py " ") (t :: t' :: ts'))
      with (t ++ py " " ++ join (py " ") (t' :: ts')).
    destruct (IH Hts) as [_ [front' [last' [E' Hl']]]]; [discriminate|].
    split.
    + exists first, (rest ++ py " " ++ join (py " ") (t' :: ts')).
      rewrite E1. split; [reflexivity | exact Hf].
    + exists (t ++ py " " ++ front'), last'. rewrite E'.
      rewrite <- !app_assoc. split; [reflexivity | exact Hl'].
Qed.

Lemma strip_join (tokens : list pystr) :
  forallb is_token tokens = true ->
  strip (join (py " ") tokens) = join (py " ") tokens.
Proof.
  intros H. destruct tokens as [|t ts] eqn:E; [reflexivity|]. rewrite <- E in *.
  destruct (join_ends tokens H) as [[first [rest [E1 Hf]]] [front [last [E2 Hl]]]];
    [subst; discriminate|].
  destruct rest as [|c rest'].
  - rewrite E1. apply (strip_no_margin first first []); assumption.
  - assert (Hmid : exists middle, join (py " ") tokens = first :: middle ++ [last]).
    { rewrite E1 in E2. destruct front as [|f0 front'].
      - simpl in E2. inversion E2.
      - simpl in E2. inversion E2; subst. exists front'. rewrite E1.
        f_equal. assumption. }
    destruct Hmid as [middle Hm]. rewrite Hm.
    apply (strip_no_margin first last middle); assumption.
Qed.

Lemma symbol_token (v : Z) :
  (0 <= v <= 35)%Z ->
  is_token (str (encode v)) = true
  /\ convert_to_numeric (PStr (str (encode v))) = Ok v.
Proof.
  intros Hv.
  assert (Hin : In v (map Z.of_nat (seq 0 36))).
  { apply in_map_iff. exists (Z.to_nat v). split; [lia | apply in_seq; lia]. }
  simpl in Hin.
  repeat (destruct Hin as [Hin|Hin]; [subst v; split; vm_compute; reflexivity|]).
  contradiction.
Qed.

Lemma parse_written_row (values : list Z) :
  Forall (fun v => (0 <= v <= 35)%Z) values ->
  parse_row (write_row (map encode values)) = Ok values.
Proof.
  intros Hv. unfold parse_row, write_row.
  assert (Htok : forallb is_token (map str (map encode values)) = true).
  { apply forallb_forall. intros t Ht. rewrite map_map in Ht.
    apply in_map_iff in Ht as [v [<- Hin]]. rewrite Forall_forall in Hv.
    apply symbol_token, Hv, Hin. }
  rewrite strip_join, split_join by exact Htok.
  rewrite map_map. clear Htok.
  induction Hv as [|v vs Hv Hvs IH]; [reflexivity|].
  cbn [map mapM]. rewrite (proj2 (symbol_token v Hv)). cbn [bind].
  rewrite IH. reflexivity.
Qed.

Lemma read_rows_written (sudoku_index : nat) (dim : Z) (rows : list (list Z)) :
  (dim <= 35)%Z ->
  Forall (row_read dim) rows ->
  forall (first : nat) (sudoku : list (list Z)) (rest : File),
    read_rows sudoku_index dim (seq first (length rows)) sudoku
      (map write_row (map (map encode) rows) ++ rest)
    = (Ok (sudoku ++ rows), rest).
Proof.
  intros Hdim Hrows. induction Hrows as [|row rows [Hlen Hrow] _ IH];
    intros first sudoku rest.
  - simpl. rewrite app_nil_r. reflexivity.
  - assert (Hv : Forall (fun v => (0 <= v <= 35)%Z) row).
    { eapply Forall_impl; [|exact Hrow]. simpl. intros v Hv. lia. }
    pose proof (parse_written_row row Hv) as Hparse. unfold parse_row in Hparse.
    assert (Hsplit : split (strip (write_row (map encode row)))
                     = map str (map encode row)).
    { unfold write_row. rewrite strip_join, split_join; [reflexivity| |];
        apply forallb_forall; intros t Ht; rewrite map_map in Ht;
        apply in_map_iff in Ht as [v [<- Hin]]; rewrite Forall_forall in Hv;
        apply symbol_token, Hv, Hin. }
    cbn [length seq map app read_rows readline].
    rewrite Hparse. rewrite Hsplit.
    rewrite !length_map, Hlen, Z.eqb_refl. cbn [negb].
    assert (Hfor : for_ (enumerate row) (fun '(col_index, value) =>
                     if negb ((0 <=? value) && (value <=? dim))%Z
                     then raise ValueError
                            (FileInvalidValue (sudoku_index + 1) value (first + 1)
                               (col_index + 1))
                     else Ok tt) = Ok tt).
    { apply for_ok. apply Forall_forall. intros [col_index value] Hin.
      unfold enumerate in Hin. apply in_combine_r in Hin.
      rewrite Forall_forall in Hrow. apply Hrow in Hin.
      replace ((0 <=? value) && (value <=? dim))%Z with true; [reflexivity|].
      symmetry. apply andb_true_iff. split; apply Z.leb_le; lia. }
    rewrite Hfor. rewrite IH, <- app_assoc. reflexivity.
Qed.

(** X11: what [write_sudoku_solutions_to_file] writes for a solution,
    after the line of its title, is read back by the loop over the rows of
    [read_sudokus_from_file] as the values of the solution, whenever its
    rows fit the dimension announced and the dimension is at most 35: the
    letters written for the values above 9 are read as these values, and
    the reader is left at the empty line that ends the solution. *)
Theorem X11_written_rows_are_read_back (sudoku_index : nat) (dim : Z)
    (rows : list (list Z)) :
  rows <> [] ->
  (dim <= 35)%Z ->
  Forall (row_read dim) rows ->
  exists title lines,
    write_sudoku_solutions_to_file [Some (map (map encode) rows)] (Ok tt)
    = Ok (title :: lines)
    /\ read_rows sudoku_index dim (range (length rows)) [] lines = (Ok rows, [[]]).
Proof.
  intros Hne Hdim Hrows. unfold range.
  destruct rows as [|row rows']; [contradiction|].
  unfold write_sudoku_solutions_to_file.
  cbn [bind write_solutions map app]. rewrite app_nil_r.
  eexists _, _. split; [reflexivity|].
  apply (read_rows_written sudoku_index dim (row :: rows') Hdim Hrows 0 [] [[]]).
Qed.

Lemma X11_written_rows_are_read_back_witness :
  exists title lines,
    write_sudoku_solutions_to_file [Some (map (map encode) solved16)] (Ok tt)
    = Ok (title :: lines)
    /\ read_rows 0 16 (range (length solved16)) [] lines = (Ok solved16, [[]]).
Proof.
  apply (X11_written_rows_are_read_back 0 16 solved16).
  - discriminate.
  - lia.
  - repeat constructor; simpl; lia.
Defined.

(** ** [main] *)

Lemma solver_returns (backend : Backend) (g : Grid) (diagonal : bool) :
  solver backend g diagonal
  = (Ok (solution_of backend (g, diagonal)), snd (solver backend g diagonal)).
Proof.
  unfold solver, solution_of. simpl.
  pose proof (handled_solver_try backend g diagonal) as H.
  destruct (solver_try backend g diagonal) as [sol|e].
  - reflexivity.
  - simpl in H. rewrite H. reflexivity.
Qed.

Lemma solve_all_returns (backend : Backend) (puzzles : list (Grid * bool)) :
  solve_all backend puzzles
  = (Ok (map (solution_of backend) puzzles),
     flat_map (fun p => snd (solver backend (fst p) (snd p))) puzzles).
Proof.
  induction puzzles as [|[g diagonal] rest IH]; [reflexivity|].
  cbn [solve_all map flat_map fst snd].
  rewrite (solver_returns backend g diagonal), IH. reflexivity.
Qed.

Lemma reader_lengths (file : Res File) (sudokus : list (list (list Z)))
    (flags : list bool) (out : list output) :
  read_sudokus_from_file file = (Ok (sudokus, flags), out) ->
  length sudokus = length flags.
Proof.
  unfold read_sudokus_from_file. destruct file as [f|e].
  2:{ destruct (is_FileNotFoundError (exc_cls e));
        [|destruct (is_ValueError (exc_cls e))];
        intros H; inversion H; reflexivity. }
  destruct (readline f) as [line f1].
  destruct (int_of_str (strip line)) as [k|e].
  2:{ intros H. inversion H. reflexivity. }
  intros H. apply read_loop_ok in H as [ns [nf [-> [-> [Hl _]]]]]. exact Hl.
Qed.

(** X12: when the reader returns, [main] calls [solver] once on every
    puzzle returned, in order and with the flag read with the puzzle ([zip]
    drops none, the two lists having the same length); no call raises.  It
    prints what the reader printed followed by what each call of [solver]
    printed, in order.  It then opens the output file: when [open] raises,
    [main] raises that exception; otherwise it writes the file from the
    results of the calls, one solution or [None] per puzzle, and returns.
    When the reader raises, [main] raises the same exception, has printed
    what the reader printed, and the output file is not opened. *)
Theorem X12_main_solves_every_puzzle_read (backend : Backend)
    (input_file : Res File) (output_file : Res unit) :
  (forall sudokus flags out,
      read_sudokus_from_file input_file = (Ok (sudokus, flags), out) ->
      let puzzles := combine (map ints sudokus) flags in
      exists solutions,
        length solutions = length sudokus
        /\ Forall2 (fun p solution => fst (solver backend (fst p) (snd p)) = Ok solution)
             puzzles solutions
        /\ main backend input_file output_file
           = (match output_file with
              | Ok _ => Ok (solutions, write_solutions 0 solutions)
              | Raise e => Raise e
              end,
              out ++ flat_map (fun p => snd (solver backend (fst p) (snd p))) puzzles))
  /\ (forall e out,
        read_sudokus_from_file input_file = (Raise e, out) ->
        forall output_file', main backend input_file output_file' = (Raise e, out)).
Proof.
  split.
  - intros sudokus flags out Hread puzzles.
    pose proof (reader_lengths input_file sudokus flags out Hread) as Hlen.
    exists (map (solution_of backend) puzzles). split; [|split].
    + unfold puzzles. rewrite length_map, length_combine, length_map. lia.
    + clear. induction puzzles as [|[g diagonal] rest IH]; constructor; [|exact IH].
      cbn [fst snd]. rewrite (solver_returns backend g diagonal). reflexivity.
    + unfold main. rewrite Hread.
      change (solve_all backend (combine (map (map (map PInt)) sudokus) flags))
        with (solve_all backend puzzles).
      rewrite (solve_all_returns backend puzzles). cbn [bind].
      unfold write_sudoku_solutions_to_file. destruct output_file; reflexivity.
  - intros e out Hread output_file'. unfold main. rewrite Hread. reflexivity.
Qed.

Lemma X12_main_solves_every_puzzle_read_witness :
  let puzzles := combine (map ints [puzzle4]) [false] in
  (exists solutions,
     length solutions = length [puzzle4]
     /\ Forall2 (fun p solution =>
                   fst (solver (answers solved4) (fst p) (snd p)) = Ok solution)
          puzzles solutions
     /\ main (answers solved4) (Ok batch_second_alone) (Ok tt)
        = (Ok (solutions, write_solutions 0 solutions),
           [] ++ flat_map (fun p => snd (solver (answers solved4) (fst p) (snd p)))
                   puzzles))
  /\ (exists solutions,
        length solutions = length [puzzle4]
        /\ Forall2 (fun p solution =>
                      fst (solver (answers solved4) (fst p) (snd p)) = Ok solution)
             puzzles solutions
        /\ main (answers solved4) (Ok batch_second_alone)
             (Raise (mkExc OSError (Errno 13)))
           = (Raise (mkExc OSError (Errno 13)),
              [] ++ flat_map (fun p => snd (solver (answers solved4) (fst p) (snd p)))
                      puzzles)).
Proof.
  split.
  - apply (proj1 (X12_main_solves_every_puzzle_read (answers solved4)
                    (Ok batch_second_alone) (Ok tt))).
    vm_compute. reflexivity.
  - apply (proj1 (X12_main_solves_every_puzzle_read (answers solved4)
                    (Ok batch_second_alone) (Raise (mkExc OSError (Errno 13))))).
    vm_compute. reflexivity.
Defined.

(** ** The square root of the dimension

    Line 161 computes [int(sqrt(dim))] in binary64.  The result is the
    integer square root as long as [dim] is below [2 ** 52]; a negative
    [dim] is a [ValueError], which the reader reports, and a [dim] of
    [2 ** 1024] or more, of either sign, is an [OverflowError], which it
    does not catch. *)

Lemma round53_small (t : Z) (inexact : bool) :
  (0 <= t < 2 ^ 53)%Z -> round53 t inexact = t.
Proof.
  intros Ht. unfold round53.
  assert (Hlog : (Z.log2 t < 53)%Z).
  { destruct (Z.eq_dec t 0) as [->|Hne]; [simpl; lia|].
    apply Z.log2_lt_pow2; lia. }
  replace (Z.log2 t + 1 - 53 <=? 0)%Z with true; [reflexivity|].
  symmetry. apply Z.leb_le. lia.
Qed.

(** The two numbers of 53 bits around [t]. *)
Lemma round53_between (t : Z) (inexact : bool) :
  (2 ^ 53 <= t)%Z ->
  let shift := (Z.log2 t - 52)%Z in
  (0 < shift)%Z
  /\ (2 ^ 52 <= t / 2 ^ shift < 2 ^ 53)%Z
  /\ (round53 t inexact = t / 2 ^ shift * 2 ^ shift
      \/ (round53 t inexact = (t / 2 ^ shift + 1) * 2 ^ shift
          /\ 2 ^ (shift - 1) <= t mod 2 ^ shift))%Z.
Proof.
  intros Ht shift.
  assert (P53 : (0 < 2 ^ 53)%Z) by (apply Z.pow_pos_nonneg; lia).
  assert (Hpos : (0 < t)%Z) by lia.
  assert (Hlog : (53 <= Z.log2 t)%Z) by (apply Z.log2_le_pow2; lia).
  assert (Hshift : (0 < shift)%Z) by (unfold shift; lia).
  destruct (Z.log2_spec t Hpos) as [Hlo Hhi].
  assert (HS : (0 < 2 ^ shift)%Z) by (apply Z.pow_pos_nonneg; lia).
  assert (E1 : (2 ^ Z.log2 t = 2 ^ 52 * 2 ^ shift)%Z).
  { rewrite <- Z.pow_add_r by lia. f_equal. unfold shift. lia. }
  assert (E2 : (2 ^ Z.succ (Z.log2 t) = 2 ^ 53 * 2 ^ shift)%Z).
  { rewrite <- Z.pow_add_r by lia. f_equal. unfold shift. lia. }
  split; [exact Hshift|]. split.
  - split.
    + apply Z.div_le_lower_bound; [exact HS|]. rewrite Z.mul_comm, <- E1. exact Hlo.
    + apply Z.div_lt_upper_bound; [exact HS|]. rewrite Z.mul_comm, <- E2. exact Hhi.
  - unfold round53. replace (Z.log2 t + 1 - 53)%Z with shift by (unfold shift; lia).
    replace (shift <=? 0)%Z with false by (symmetry; apply Z.leb_gt; exact Hshift).
    cbv zeta.
    destruct ((2 ^ (shift - 1) <? t mod 2 ^ shift)
              || ((t mod 2 ^ shift =? 2 ^ (shift - 1))
                  && (inexact || Z.odd (t / 2 ^ shift))))%Z eqn:Hup.
    + right. split; [reflexivity|].
      apply orb_true_iff in Hup as [Hup|Hup].
      * apply Z.ltb_lt in Hup. apply Z.lt_le_incl. exact Hup.
      * apply andb_true_iff in Hup as [Hup _]. apply Z.eqb_eq in Hup.
        rewrite Hup. apply Z.le_refl.
    + left. reflexivity.
Qed.

Lemma round53_bounds (t : Z) (inexact : bool) :
  (0 < t)%Z ->
  (2 ^ Z.log2 t <= round53 t inexact <= 2 ^ (Z.log2 t + 1))%Z.
Proof.
  intros Hpos. destruct (Z.log2_spec t Hpos) as [Hlo Hhi].
  replace (Z.succ (Z.log2 t)) with (Z.log2 t + 1)%Z in Hhi by lia.
  destruct (Z_lt_le_dec t (2 ^ 53)) as [Hsmall|Hbig].
  - rewrite round53_small by (split; [apply Z.lt_le_incl|]; assumption).
    split; [exact Hlo | apply Z.lt_le_incl; exact Hhi].
  - destruct (round53_between t inexact Hbig) as [Hshift [[Hq1 Hq2] Hr]].
    set (shift := (Z.log2 t - 52)%Z) in *.
    assert (HS : (0 < 2 ^ shift)%Z) by (apply Z.pow_pos_nonneg; lia).
    assert (E1 : (2 ^ Z.log2 t = 2 ^ 52 * 2 ^ shift)%Z).
    { rewrite <- Z.pow_add_r by lia. f_equal. unfold shift. lia. }
    assert (E2 : (2 ^ (Z.log2 t + 1) = 2 ^ 53 * 2 ^ shift)%Z).
    { rewrite <- Z.pow_add_r by lia. f_equal. unfold shift. lia. }
    rewrite E1, E2. clear E1 E2 Hlo Hhi Hbig.
    revert Hq1 Hq2 Hr HS.
    generalize (2 ^ shift)%Z (2 ^ 52)%Z (2 ^ 53)%Z. intros S a b Hq1 Hq2 Hr HS.
    assert (Ha : (a * S <= t / S * S)%Z) by (apply Z.mul_le_mono_nonneg_r; lia).
    assert (Hb : ((t / S + 1) * S <= b * S)%Z) by (apply Z.mul_le_mono_nonneg_r; lia).
    assert (Hc : (t / S * S <= (t / S + 1) * S)%Z) by (apply Z.mul_le_mono_nonneg_r; lia).
    destruct Hr as [->|[-> _]]; lia.
Qed.

Lemma int_sqrt_overflow (dim : Z) :
  (2 ^ 1024 <= Z.abs dim)%Z ->
  int_sqrt dim = Raise (mkExc OverflowError IntTooLargeForFloat).
Proof.
  intros H. unfold int_sqrt, float_of_int.
  assert (P1024 : (0 < 2 ^ 1024)%Z) by (apply Z.pow_pos_nonneg; lia).
  assert (Hpos : (0 < Z.abs dim)%Z) by (eapply Z.lt_le_trans; eassumption).
  pose proof (round53_bounds (Z.abs dim) false Hpos) as [Hlo _].
  assert (Hlog : (1024 <= Z.log2 (Z.abs dim))%Z) by (apply Z.log2_le_pow2; assumption).
  assert (Hpow : (2 ^ 1024 <= 2 ^ Z.log2 (Z.abs dim))%Z)
    by (apply Z.pow_le_mono_r; [lia | exact Hlog]).
  replace (2 ^ 1024 <=? round53 (Z.abs dim) false)%Z with true; [reflexivity|].
  symmetry. apply Z.leb_le. eapply Z.le_trans; eassumption.
Qed.

Lemma int_sqrt_negative (dim : Z) :
  (- 2 ^ 1023 < dim < 0)%Z ->
  int_sqrt dim = Raise (mkExc ValueError MathDomainError).
Proof.
  intros [Hlow Hneg]. unfold int_sqrt, float_of_int.
  assert (Habs : (Z.abs dim = - dim)%Z) by (apply Z.abs_neq; lia).
  assert (Hpos : (0 < Z.abs dim)%Z) by lia.
  assert (Hlt : (Z.abs dim < 2 ^ 1023)%Z) by lia.
  pose proof (round53_bounds (Z.abs dim) false Hpos) as [Hlo Hhi].
  assert (Hlog : (Z.log2 (Z.abs dim) < 1023)%Z) by (apply Z.log2_lt_pow2; assumption).
  assert (Hpow : (2 ^ (Z.log2 (Z.abs dim) + 1) <= 2 ^ 1023)%Z)
    by (apply Z.pow_le_mono_r; lia).
  assert (H0 : (0 < 2 ^ Z.log2 (Z.abs dim))%Z)
    by (apply Z.pow_pos_nonneg; [lia | apply Z.log2_nonneg]).
  assert (Hstep : (2 ^ 1023 < 2 ^ 1024)%Z) by (apply Z.pow_lt_mono_r; lia).
  replace (2 ^ 1024 <=? round53 (Z.abs dim) false)%Z with false.
  2:{ symmetry. apply Z.leb_gt. eapply Z.le_lt_trans; [exact Hhi|].
      eapply Z.le_lt_trans; eassumption. }
  cbn [bind].
  replace (Z.sgn dim) with (-1)%Z by (symmetry; apply Z.sgn_neg; exact Hneg).
  replace (-1 * round53 (Z.abs dim) false <? 0)%Z with true; [reflexivity|].
  symmetry. apply Z.ltb_lt.
  assert (Hr : (0 < round53 (Z.abs dim) false)%Z) by (eapply Z.lt_le_trans; eassumption).
  revert Hr. generalize (round53 (Z.abs dim) false). intros r Hr. lia.
Qed.

Lemma sqrt_scaled_bounds (x k t P : Z) :
  (0 < P -> 0 <= k -> k * k <= x -> x < (k + 1) * (k + 1) ->
   0 <= t -> t * t <= x * (P * P) -> x * (P * P) < (t + 1) * (t + 1) ->
   k * P <= t < (k + 1) * P)%Z.
Proof.
  intros HP Hk Hk1 Hk2 Ht Ht1 Ht2. split.
  - destruct (Z_lt_le_dec t (k * P)) as [Hlt|]; [exfalso|assumption].
    assert (H1 : ((t + 1) * (t + 1) <= (k * P) * (k * P))%Z).
    { apply Z.mul_le_mono_nonneg; lia. }
    assert (H2 : ((k * P) * (k * P) = (k * k) * (P * P))%Z) by ring.
    assert (H3 : ((k * k) * (P * P) <= x * (P * P))%Z).
    { apply Z.mul_le_mono_nonneg_r; [|assumption]. apply Z.mul_nonneg_nonneg; lia. }
    lia.
  - destruct (Z_lt_le_dec t ((k + 1) * P)) as [|Hge]; [assumption|exfalso].
    assert (H0 : (0 <= (k + 1) * P)%Z) by (apply Z.mul_nonneg_nonneg; lia).
    assert (H1 : (((k + 1) * P) * ((k + 1) * P) <= t * t)%Z).
    { apply Z.mul_le_mono_nonneg; lia. }
    assert (H2 : (((k + 1) * P) * ((k + 1) * P) = ((k + 1) * (k + 1)) * (P * P))%Z) by ring.
    assert (H3 : ((x + 1) * (P * P) <= ((k + 1) * (k + 1)) * (P * P))%Z).
    { apply Z.mul_le_mono_nonneg_r; [|lia]. apply Z.mul_nonneg_nonneg; lia. }
    assert (H4 : (0 < P * P)%Z) by (apply Z.mul_pos_pos; assumption).
    lia.
Qed.

(** The square root of a number below [(k + 1) * (k + 1)] is too far from
    [k + 1] to be rounded up to it. *)
Lemma no_round_up (x k t P S h R : Z) :
  (0 < P -> 0 < h -> S = 2 * h -> 0 <= k -> k + 1 <= R ->
   x < (k + 1) * (k + 1) -> 0 <= t -> t * t <= x * (P * P) ->
   S * (R * R) <= t -> t < (k + 1) * P ->
   (k + 1) * P - h <= t -> False)%Z.
Proof.
  intros HP Hh HS Hk HR Hx Ht Ht1 HSt Htop Hth.
  set (B := ((k + 1) * P)%Z) in *.
  assert (HB : (0 < B)%Z) by (apply Z.mul_pos_pos; lia).
  assert (HRR : (1 <= R * R)%Z) by (change 1%Z with (1 * 1)%Z; apply Z.mul_le_mono_nonneg; lia).
  assert (HSS : (S <= S * (R * R))%Z).
  { rewrite <- (Z.mul_1_r S) at 1. apply Z.mul_le_mono_nonneg_l; lia. }
  assert (HBh : (0 <= B - h)%Z) by lia.
  assert (H1 : ((B - h) * (B - h) <= t * t)%Z) by (apply Z.mul_le_mono_nonneg; lia).
  assert (H2 : ((x + 1) * (P * P) <= ((k + 1) * (k + 1)) * (P * P))%Z).
  { apply Z.mul_le_mono_nonneg_r; [|lia]. apply Z.mul_nonneg_nonneg; lia. }
  assert (H3 : (((k + 1) * (k + 1)) * (P * P) = B * B)%Z) by (unfold B; ring).
  assert (H4 : ((B - h) * (B - h) = B * B - B * S + h * h)%Z) by (rewrite HS; ring).
  assert (H5 : (0 <= h * h)%Z) by (apply Z.mul_nonneg_nonneg; lia).
  assert (H6 : (P * P <= B * S)%Z) by lia.
  assert (H7 : (B * (S * (R * R)) < B * B)%Z) by (apply Z.mul_lt_mono_pos_l; lia).
  assert (H8 : (B * B <= (R * R) * (P * P))%Z).
  { rewrite <- H3. apply Z.mul_le_mono_nonneg_r; [apply Z.mul_nonneg_nonneg; lia|].
    apply Z.mul_le_mono_nonneg; lia. }
  assert (H9 : ((P * P) * (R * R) <= (B * S) * (R * R))%Z).
  { apply Z.mul_le_mono_nonneg_r; lia. }
  assert (H10 : (B * (S * (R * R)) = (B * S) * (R * R))%Z) by ring.
  assert (H11 : ((R * R) * (P * P) = (P * P) * (R * R))%Z) by ring.
  lia.
Qed.

Lemma int_sqrt_exact (dim : Z) :
  (0 <= dim < 2 ^ 52)%Z -> int_sqrt dim = Ok (Z.sqrt dim).
Proof.
  intros [Hdim0 Hdim]. unfold int_sqrt, float_of_int.
  assert (H53 : (2 ^ 52 < 2 ^ 53)%Z) by (apply Z.pow_lt_mono_r; lia).
  assert (H1024 : (2 ^ 53 < 2 ^ 1024)%Z) by (apply Z.pow_lt_mono_r; lia).
  rewrite Z.abs_eq by exact Hdim0.
  rewrite round53_small by (split; [exact Hdim0 | eapply Z.lt_trans; eassumption]).
  replace (2 ^ 1024 <=? dim)%Z with false.
  2:{ symmetry. apply Z.leb_gt. eapply Z.lt_trans; [exact Hdim|].
      eapply Z.lt_trans; eassumption. }
  cbn [bind].
  assert (Hsgn : (Z.sgn dim * dim = dim)%Z).
  { destruct (Z.eq_dec dim 0) as [->|Hne]; [reflexivity|].
    rewrite Z.sgn_pos by lia. apply Z.mul_1_l. }
  rewrite Hsgn.
  replace (dim <? 0)%Z with false by (symmetry; apply Z.ltb_ge; exact Hdim0).
  f_equal. unfold floor_sqrt_float.
  assert (E128 : (2 ^ 128 = 2 ^ 64 * 2 ^ 64)%Z)
    by (rewrite <- Z.pow_add_r by lia; reflexivity).
  assert (E52 : (2 ^ 52 = 2 ^ 26 * 2 ^ 26)%Z)
    by (rewrite <- Z.pow_add_r by lia; reflexivity).
  assert (E90 : (2 ^ 90 = 2 ^ 26 * 2 ^ 64)%Z)
    by (rewrite <- Z.pow_add_r by lia; reflexivity).
  assert (P64 : (0 < 2 ^ 64)%Z) by (apply Z.pow_pos_nonneg; lia).
  assert (P26 : (0 < 2 ^ 26)%Z) by (apply Z.pow_pos_nonneg; lia).
  rewrite E128. rewrite E52 in Hdim.
  set (k := Z.sqrt dim). set (t := Z.sqrt (dim * (2 ^ 64 * 2 ^ 64))).
  set (inexact := negb (t * t =? dim * (2 ^ 64 * 2 ^ 64))%Z).
  destruct (Z.sqrt_spec dim Hdim0) as [Hk1 Hk2]. fold k in Hk1, Hk2.
  assert (Hk0 : (0 <= k)%Z) by apply Z.sqrt_nonneg.
  assert (Hx : (0 <= dim * (2 ^ 64 * 2 ^ 64))%Z)
    by (apply Z.mul_nonneg_nonneg; [exact Hdim0 | apply Z.mul_nonneg_nonneg; lia]).
  destruct (Z.sqrt_spec _ Hx) as [Ht1 Ht2]. fold t in Ht1, Ht2.
  assert (Ht0 : (0 <= t)%Z) by apply Z.sqrt_nonneg.
  replace (Z.succ k) with (k + 1)%Z in Hk2 by lia.
  replace (Z.succ t) with (t + 1)%Z in Ht2 by lia.
  assert (Hk26 : (k + 1 <= 2 ^ 26)%Z).
  { destruct (Z_lt_le_dec k (2 ^ 26)) as [|Hge]; [lia|exfalso].
    assert (2 ^ 26 * 2 ^ 26 <= k * k)%Z by (apply Z.mul_le_mono_nonneg; lia).
    lia. }
  destruct (sqrt_scaled_bounds dim k t (2 ^ 64) P64 Hk0 Hk1 Hk2 Ht0 Ht1 Ht2)
    as [Hlow Hhigh].
  assert (Hbounds : (k * 2 ^ 64 <= round53 t inexact < (k + 1) * 2 ^ 64)%Z).
  { destruct (Z_lt_le_dec t (2 ^ 53)) as [Hsmall|Hbig].
    { rewrite round53_small by (split; assumption). split; assumption. }
    destruct (round53_between t inexact Hbig) as [Hshift [[Hq1 Hq2] Hr]].
    set (shift := (Z.log2 t - 52)%Z) in *.
    assert (Hlog : (Z.log2 t < 90)%Z).
    { apply Z.log2_lt_pow2; [eapply Z.lt_le_trans; [|exact Hbig]; lia|].
      rewrite E90. eapply Z.lt_le_trans; [exact Hhigh|].
      apply Z.mul_le_mono_nonneg_r; lia. }
    assert (E64 : (2 ^ 64 = 2 ^ (64 - shift) * 2 ^ shift)%Z).
    { rewrite <- Z.pow_add_r by (unfold shift; lia). f_equal. lia. }
    assert (Hc : (0 < 2 ^ (64 - shift))%Z) by (apply Z.pow_pos_nonneg; unfold shift; lia).
    assert (Hh : (2 ^ shift = 2 * 2 ^ (shift - 1))%Z).
    { replace shift with (1 + (shift - 1))%Z at 1 by lia.
      rewrite Z.pow_add_r by lia. reflexivity. }
    assert (Hhpos : (0 < 2 ^ (shift - 1))%Z) by (apply Z.pow_pos_nonneg; lia).
    assert (HS : (0 < 2 ^ shift)%Z) by (apply Z.pow_pos_nonneg; lia).
    pose proof (Z.mul_div_le t _ HS) as Hqt1.
    pose proof (Z.mul_succ_div_gt t _ HS) as Hqt2.
    pose proof (Z.div_mod t (2 ^ shift) ltac:(lia)) as Hmod.
    assert (Hqlow : (k * 2 ^ (64 - shift) <= t / 2 ^ shift)%Z).
    { apply Z.div_le_lower_bound; [exact HS|].
      replace (2 ^ shift * (k * 2 ^ (64 - shift)))%Z with (k * 2 ^ 64)%Z
        by (rewrite E64; ring).
      exact Hlow. }
    assert (Hqhigh : (t / 2 ^ shift < (k + 1) * 2 ^ (64 - shift))%Z).
    { apply Z.div_lt_upper_bound; [exact HS|].
      replace (2 ^ shift * ((k + 1) * 2 ^ (64 - shift)))%Z with ((k + 1) * 2 ^ 64)%Z
        by (rewrite E64; ring).
      exact Hhigh. }
    assert (HSt : (2 ^ shift * (2 ^ 26 * 2 ^ 26) <= t)%Z).
    { rewrite <- E52. eapply Z.le_trans; [|exact Hqt1].
      apply Z.mul_le_mono_nonneg_l; lia. }
    revert Hr Hqt1 Hqt2 Hmod Hqlow Hqhigh HSt Hq1 Hq2.
    generalize (t / 2 ^ shift)%Z (t mod 2 ^ shift)%Z. intros q r.
    revert E64 Hh Hhpos HS Hc.
    generalize (2 ^ shift)%Z (2 ^ (shift - 1))%Z (2 ^ (64 - shift))%Z.
    intros S h c E64 Hh Hhpos HS Hc Hr Hqt1 Hqt2 Hmod Hqlow Hqhigh HSt _ _.
    assert (HkcS : (k * 2 ^ 64 = k * c * S)%Z) by (rewrite E64; ring).
    assert (HkcS1 : ((k + 1) * 2 ^ 64 = (k + 1) * c * S)%Z) by (rewrite E64; ring).
    assert (Hm1 : (k * c * S <= q * S)%Z) by (apply Z.mul_le_mono_nonneg_r; lia).
    assert (Hm2 : (q * S = S * q)%Z) by ring.
    destruct Hr as [->|[-> Hr]]; [lia|].
    split.
    - assert ((q * S <= (q + 1) * S)%Z) by (apply Z.mul_le_mono_nonneg_r; lia). lia.
    - destruct (Z_lt_le_dec (q + 1) ((k + 1) * c)) as [Hlt|Hge].
      + rewrite HkcS1. apply Z.mul_lt_mono_pos_r; assumption.
      + exfalso.
        assert (Hq : (q + 1 = (k + 1) * c)%Z) by lia.
        assert (HB : ((k + 1) * 2 ^ 64 = (q + 1) * S)%Z) by (rewrite HkcS1, Hq; reflexivity).
        assert (Hexp : ((q + 1) * S = q * S + S)%Z) by ring.
        apply (no_round_up dim k t (2 ^ 64) S h (2 ^ 26)); try assumption; lia. }
  symmetry. apply (Z.div_unique _ _ k (round53 t inexact - k * 2 ^ 64)); lia.
Qed.

(** X13: [int(sqrt(dim))], line 161 of [read_sudokus_from_file].  For
    [0 <= dim < 2 ** 52] it is the integer square root of [dim], so that
    the test [m * m != dim] accepts exactly the perfect squares; beyond, the
    rounding of [sqrt] can give one more (at [2 ** 54 + 2 ** 28]).  For a
    negative [dim] above [- 2 ** 1023], [sqrt] raises [ValueError]; for a
    [dim] of absolute value [2 ** 1024] or more, the conversion to a float
    raises [OverflowError]. *)
Theorem X13_square_root_of_the_dimension (dim : Z) :
  ((0 <= dim < 2 ^ 52)%Z ->
   int_sqrt dim = Ok (Z.sqrt dim)
   /\ ((Z.sqrt dim * Z.sqrt dim =? dim)%Z = true <-> exists k, (dim = k * k)%Z))
  /\ ((- 2 ^ 1023 < dim < 0)%Z ->
      int_sqrt dim = Raise (mkExc ValueError MathDomainError))
  /\ ((2 ^ 1024 <= Z.abs dim)%Z ->
      int_sqrt dim = Raise (mkExc OverflowError IntTooLargeForFloat))
  /\ int_sqrt (2 ^ 54 + 2 ^ 28) = Ok (Z.sqrt (2 ^ 54 + 2 ^ 28) + 1)%Z.
Proof.
  split; [|split; [|split]].
  - intros Hdim. split; [apply int_sqrt_exact; exact Hdim|].
    rewrite Z.eqb_eq. split.
    + intros H. exists (Z.sqrt dim). symmetry. exact H.
    + intros [k ->]. rewrite <- (Z.abs_square k).
      rewrite (Z.sqrt_square (Z.abs k)) by apply Z.abs_nonneg. reflexivity.
  - apply int_sqrt_negative.
  - apply int_sqrt_overflow.
  - vm_compute. reflexivity.
Qed.

Lemma X13_square_root_of_the_dimension_witness :
  (int_sqrt 16 = Ok (Z.sqrt 16)
   /\ ((Z.sqrt 16 * Z.sqrt 16 =? 16)%Z = true <-> exists k, (16 = k * k)%Z))
  /\ int_sqrt (-4) = Raise (mkExc ValueError MathDomainError)
  /\ int_sqrt (2 ^ 1024) = Raise (mkExc OverflowError IntTooLargeForFloat).
Proof.
  split; [|split].
  - apply (proj1 (X13_square_root_of_the_dimension 16)). split; [lia | reflexivity].
  - apply (proj1 (proj2 (X13_square_root_of_the_dimension (-4)))).
    split; [reflexivity | lia].
  - apply (proj1 (proj2 (proj2 (X13_square_root_of_the_dimension (2 ^ 1024))))).
    vm_compute. discriminate.
Defined.
